(** * Ghost Supply: the risk-aware routing engine

    A shallow embedding of the decision layer of [ghost_supply]
    ([decision/cvar_routing.py], [decision/pareto.py],
    [decision/game_theory.py], [decision/graph_builder.py]) together with
    the properties its specification states about it.

    Conventions.
    - Python [float] values are exact rationals ([Q]); the kill-zone
      penalty, which needs the exponential, is stated over [R].
    - Node identifiers are Python [int]s, hence [Z].
    - A [networkx] edge attribute bag is a [gmap string attr]; the graph
      is a [gmap (Z * Z)] of such bags plus a [gmap Z] of node records.
    - Library calls ([networkx.shortest_path], [numpy.random], the Pyomo
      solver, [nashpy], [geopy], [math.exp]) are parameters of the
      development: fields of an interface class or section variables. *)

From stdpp Require Import gmap strings list sorting pretty.
From Stdlib Require Import QArith Qround Qabs Reals.
From Stdlib Require Lqa Lra.

Close Scope Q_scope.
Close Scope R_scope.

(* ===================================================================== *)
(** * Python and NumPy primitives *)
(* ===================================================================== *)

Module Py.

(** [int(x)] on a float: truncation toward zero. *)
Definition int (x : Q) : Z := Z.quot (Qnum x) (Zpos (Qden x)).

(** [len(l)] as a Python integer. *)
Definition len {A} (l : list A) : Z := Z.of_nat (length l).

(** [l[i]]: negative indices count from the end, anything out of range
    raises [IndexError] ([None]). *)
Definition index {A} (l : list A) (i : Z) : option A :=
  if (0 <=? i)%Z then l !! Z.to_nat i
  else if (- len l <=? i)%Z then l !! Z.to_nat (len l + i)
  else None.

(** [sum(l)] starting from [0.0]. *)
Definition sum (l : list Q) : Q := foldr Qplus 0%Q l.

(** [np.mean(l)]: the sum divided by the number of elements. *)
Definition mean (l : list Q) : Q := (sum l / inject_Z (len l))%Q.

(** [sorted(l)]: stable ascending sort; [insert] puts [x] behind the
    elements that are not greater than it. *)
Fixpoint insert (x : Q) (l : list Q) : list Q :=
  match l with
  | [] => [x]
  | y :: l' => if Qle_bool y x then y :: insert x l' else x :: y :: l'
  end.

Definition sorted (l : list Q) : list Q := foldl (fun acc x => insert x acc) [] l.

(** [enumerate(l)], counting from [n]. *)
Fixpoint enumerate_from {A} (n : nat) (l : list A) : list (nat * A) :=
  match l with
  | [] => []
  | x :: l' => (n, x) :: enumerate_from (S n) l'
  end.

Definition enumerate {A} (l : list A) : list (nat * A) := enumerate_from 0 l.

(** [a < b] on floats. *)
Definition lt (a b : Q) : bool := negb (Qle_bool b a).

(** [min(a, b)] and [max(a, b)]: the first argument unless the second
    is strictly better. *)
Definition min (a b : Q) : Q := if lt b a then b else a.
Definition max (a b : Q) : Q := if lt a b then b else a.

End Py.

(* ===================================================================== *)
(** * CVaR of a scenario risk list ([CVaRRouter._calculate_cvar]) *)
(* ===================================================================== *)

Module Cvar.

Local Open Scope Q_scope.

(** [var_index = int(alpha * len(sorted_risks))] *)
Definition var_index (risks : list Q) (alpha : Q) : Z :=
  Py.int (alpha * inject_Z (Py.len (Py.sorted risks))).

(** [sorted_risks[var_index] if var_index < len(sorted_risks) else sorted_risks[-1]] *)
Definition var_of (sorted_risks : list Q) (var_index : Z) : option Q :=
  if (var_index <? Py.len sorted_risks)%Z
  then Py.index sorted_risks var_index
  else Py.index sorted_risks (-1).

(** [[r for r in sorted_risks if r >= var]] *)
Definition tail_risks (sorted_risks : list Q) (var : Q) : list Q :=
  List.filter (fun r => Qle_bool var r) sorted_risks.

(** The whole function; [None] is the [IndexError] of an empty list. *)
Definition _calculate_cvar (risks : list Q) (alpha : Q) : option Q :=
  let sorted_risks := Py.sorted risks in
  match var_of sorted_risks (var_index risks alpha) with
  | None => None
  | Some var =>
      let tail := tail_risks sorted_risks var in
      Some (match tail with [] => var | _ :: _ => Py.mean tail end)
  end.

End Cvar.

(* --------------------------------------------------------------------- *)
(** ** Facts about the primitives *)
(* --------------------------------------------------------------------- *)

Module PyFacts.
Import Lqa.
Local Open Scope Q_scope.

Lemma insert_perm x l : Py.insert x l ≡ₚ x :: l.
Proof.
  induction l as [|y l IH]; simpl; [done|].
  destruct (Qle_bool y x); [|done].
  rewrite IH. apply Permutation_swap.
Qed.

Lemma foldl_insert_perm l acc :
  foldl (fun a x => Py.insert x a) acc l ≡ₚ acc ++ l.
Proof.
  revert acc. induction l as [|x l IH]; intros acc; simpl.
  - by rewrite app_nil_r.
  - rewrite IH, insert_perm. simpl. apply Permutation_middle.
Qed.

Lemma sorted_perm l : Py.sorted l ≡ₚ l.
Proof. unfold Py.sorted. by rewrite foldl_insert_perm. Qed.

Lemma sorted_length l : length (Py.sorted l) = length l.
Proof. by rewrite sorted_perm. Qed.

Lemma sorted_len l : Py.len (Py.sorted l) = Py.len l.
Proof. unfold Py.len. by rewrite sorted_length. Qed.

Lemma sorted_elem x l : x ∈ Py.sorted l ↔ x ∈ l.
Proof. by rewrite sorted_perm. Qed.

Lemma insert_sorted x l :
  StronglySorted Qle l → StronglySorted Qle (Py.insert x l).
Proof.
  induction 1 as [|y l Hs IH Hall]; simpl.
  - repeat constructor.
  - destruct (Qle_bool y x) eqn:E.
    + constructor; [done|].
      rewrite insert_perm. constructor; [by apply Qle_bool_iff | done].
    + assert (x <= y) by
        (apply Qlt_le_weak, Qnot_le_lt; intros Hle;
         apply Qle_bool_iff in Hle; congruence).
      constructor; [by constructor|].
      constructor; [done|].
      eapply Forall_impl; [exact Hall|]. intros z Hz; simpl in Hz. lra.
Qed.

Lemma sorted_sorted l : StronglySorted Qle (Py.sorted l).
Proof.
  unfold Py.sorted. generalize (SSorted_nil Qle).
  generalize (@nil Q). induction l as [|x l IH]; intros acc Hacc; simpl.
  - done.
  - apply IH. by apply insert_sorted.
Qed.

(** In a sorted list the element at a smaller position is the smaller. *)
Lemma sorted_lookup_le (l : list Q) i j a b :
  StronglySorted Qle l → (i <= j)%nat →
  l !! i = Some a → l !! j = Some b → a <= b.
Proof.
  intros Hs. revert i j. induction Hs as [|x l Hs IH Hall]; intros i j Hij Hi Hj.
  - done.
  - destruct i as [|i], j as [|j]; simpl in *; simplify_eq.
    + lra.
    + rewrite Forall_forall in Hall. apply Hall.
      by eapply list_elem_of_lookup_2.
    + lia.
    + eapply IH; [|done..]. lia.
Qed.

Lemma sum_perm l1 l2 : l1 ≡ₚ l2 → Py.sum l1 == Py.sum l2.
Proof.
  induction 1; simpl; try lra.
Qed.

Lemma sum_nonneg l : Forall (fun r => 0 <= r) l → 0 <= Py.sum l.
Proof. induction 1; simpl; lra. Qed.

Lemma len_pos {A} (l : list A) : l ≠ [] → 0 < inject_Z (Py.len l).
Proof.
  intros Hne. destruct l; [done|].
  unfold Py.len. simpl length. unfold Qlt. simpl. lia.
Qed.

Lemma mean_nonneg l : l ≠ [] → Forall (fun r => 0 <= r) l → 0 <= Py.mean l.
Proof.
  intros Hne Hall. unfold Py.mean.
  apply Qle_shift_div_l; [by apply len_pos|].
  pose proof (sum_nonneg l Hall). lra.
Qed.

Lemma mean_perm l1 l2 : l1 ≡ₚ l2 → Py.mean l1 == Py.mean l2.
Proof.
  intros Hp. unfold Py.mean, Py.len.
  rewrite (sum_perm _ _ Hp), (Permutation_length Hp). reflexivity.
Qed.

(** [int] on a non-negative float is the floor. *)
Lemma int_floor x : 0 <= x → Py.int x = Qfloor x.
Proof.
  destruct x as [n d]. unfold Qle, Py.int, Qfloor; simpl. intros Hn.
  apply Z.quot_div_nonneg; lia.
Qed.

Lemma int_scaled_range alpha (n : Z) :
  0 < alpha → alpha < 1 → (0 < n)%Z →
  (0 <= Py.int (alpha * inject_Z n) < n)%Z.
Proof.
  intros H0 H1 Hn.
  assert (Hn' : 0 < inject_Z n) by (unfold Qlt; simpl; lia).
  assert (Hlo : 0 <= alpha * inject_Z n) by nra.
  assert (Hhi : alpha * inject_Z n < inject_Z n) by nra.
  rewrite int_floor by done. split.
  - change 0%Z with (Qfloor 0). by apply Qfloor_resp_le.
  - apply Z.lt_nge. intros Hge.
    pose proof (Qfloor_le (alpha * inject_Z n)) as Hfl.
    assert (inject_Z n <= inject_Z (Qfloor (alpha * inject_Z n)))
      by (rewrite <- Zle_Qle; done).
    lra.
Qed.

Lemma int_scaled_mono a1 a2 (n : Z) :
  0 < a1 → a1 <= a2 → (0 < n)%Z →
  (Py.int (a1 * inject_Z n) <= Py.int (a2 * inject_Z n))%Z.
Proof.
  intros H0 H12 Hn.
  assert (Hn' : 0 < inject_Z n) by (unfold Qlt; simpl; lia).
  rewrite !int_floor by nra.
  apply Qfloor_resp_le. nra.
Qed.

End PyFacts.

(* --------------------------------------------------------------------- *)
(** ** Properties of [_calculate_cvar] *)
(* --------------------------------------------------------------------- *)

Module CvarFacts.
Import Lqa Cvar PyFacts.
Local Open Scope Q_scope.

(** The part of the list below the threshold. *)
Definition below (l : list Q) (v : Q) : list Q :=
  List.filter (fun r => negb (Qle_bool v r)) l.

Lemma split_sum l v :
  Py.sum l == Py.sum (tail_risks l v) + Py.sum (below l v).
Proof.
  unfold tail_risks, below.
  induction l as [|x l IH]; simpl; [lra|].
  destruct (Qle_bool v x); simpl; lra.
Qed.

Lemma split_length l v :
  length l = (length (tail_risks l v) + length (below l v))%nat.
Proof.
  unfold tail_risks, below.
  induction l as [|x l IH]; simpl; [done|].
  destruct (Qle_bool v x); simpl; lia.
Qed.

Lemma split_len l v :
  inject_Z (Py.len l)
  == inject_Z (Py.len (tail_risks l v)) + inject_Z (Py.len (below l v)).
Proof.
  unfold Py.len. rewrite (split_length l v) at 1.
  rewrite Nat2Z.inj_add, inject_Z_plus. reflexivity.
Qed.

Lemma len_cons {A} (x : A) l :
  inject_Z (Py.len (x :: l)) == inject_Z (Py.len l) + 1.
Proof.
  unfold Py.len. cbn [length]. rewrite Nat2Z.inj_succ. unfold Z.succ.
  rewrite inject_Z_plus. reflexivity.
Qed.

Lemma sum_cons x l : Py.sum (x :: l) = x + Py.sum l.
Proof. reflexivity. Qed.

Lemma tail_sum_lower l v :
  v * inject_Z (Py.len (tail_risks l v)) <= Py.sum (tail_risks l v).
Proof.
  unfold tail_risks.
  induction l as [|x l IH]; cbn [List.filter].
  - change (v * 0 <= 0). lra.
  - destruct (Qle_bool v x) eqn:E; [|done].
    apply Qle_bool_iff in E. rewrite len_cons, sum_cons. lra.
Qed.

Lemma below_sum_upper l v :
  Py.sum (below l v) <= v * inject_Z (Py.len (below l v)).
Proof.
  unfold below.
  induction l as [|x l IH]; cbn [List.filter].
  - change (0 <= v * 0). lra.
  - destruct (Qle_bool v x) eqn:E; cbn [negb]; [done|].
    assert (x <= v).
    { apply Qlt_le_weak, Qnot_le_lt. intros Hle.
      apply Qle_bool_iff in Hle. congruence. }
    rewrite len_cons, sum_cons. lra.
Qed.

Lemma len_nonneg {A} (l : list A) : 0 <= inject_Z (Py.len l).
Proof. unfold Py.len, Qle; simpl. lia. Qed.

(** The mean of the values at or above any threshold is at least the
    mean of the whole list. *)
Lemma tail_mean_ge l v :
  tail_risks l v ≠ [] → Py.mean l <= Py.mean (tail_risks l v).
Proof.
  intros Hne.
  pose proof (len_pos _ Hne) as Hnt.
  pose proof (len_nonneg (below l v)) as Hnb.
  pose proof (split_sum l v) as Hs.
  pose proof (split_len l v) as Hl.
  pose proof (tail_sum_lower l v) as Ht.
  pose proof (below_sum_upper l v) as Hb.
  set (m := Py.mean (tail_risks l v)).
  assert (Hm : Py.sum (tail_risks l v) == m * inject_Z (Py.len (tail_risks l v))).
  { unfold m, Py.mean. field. lra. }
  assert (Hvm : v <= m).
  { apply (Qmult_le_r _ _ (inject_Z (Py.len (tail_risks l v)))); [done|]. lra. }
  unfold Py.mean at 1.
  apply Qle_shift_div_r; [lra|].
  rewrite Hs, Hl, Hm.
  assert (v * inject_Z (Py.len (below l v)) <= m * inject_Z (Py.len (below l v)))
    by (apply Qmult_le_compat_r; done).
  lra.
Qed.

(** Filtering the tail again at a higher threshold is filtering the list
    at that threshold. *)
Lemma tail_tail l v1 v2 :
  v1 <= v2 → tail_risks (tail_risks l v1) v2 = tail_risks l v2.
Proof.
  intros Hle. unfold tail_risks.
  induction l as [|x l IH]; simpl; [done|].
  destruct (Qle_bool v1 x) eqn:E1; simpl; rewrite IH.
  - done.
  - destruct (Qle_bool v2 x) eqn:E2; [|done].
    apply Qle_bool_iff in E2.
    assert (v1 <= x) as Hx by lra. apply Qle_bool_iff in Hx. congruence.
Qed.

Lemma tail_elem l v r : r ∈ l → v <= r → r ∈ tail_risks l v.
Proof.
  intros Hin Hle. unfold tail_risks.
  apply list_elem_of_In, filter_In. split; [by apply list_elem_of_In|].
  by apply Qle_bool_iff.
Qed.

(** What [var_of] returns for an index in range. *)
Lemma var_of_in_range (l : list Q) (i : Z) :
  (0 <= i < Py.len l)%Z → var_of l i = l !! Z.to_nat i.
Proof.
  intros [Hlo Hhi]. unfold var_of, Py.index.
  destruct (Z.ltb_spec i (Py.len l)); [|lia].
  destruct (Z.leb_spec 0 i); [done|lia].
Qed.

Lemma var_index_range risks alpha :
  risks ≠ [] → 0 < alpha → alpha < 1 →
  (0 <= var_index risks alpha < Py.len (Py.sorted risks))%Z.
Proof.
  intros Hne H0 H1. unfold var_index.
  apply int_scaled_range; [done..|].
  rewrite sorted_len. unfold Py.len. destruct risks; [done|simpl; lia].
Qed.

(** On the inputs of the specification the function returns the mean of
    a non-empty tail that starts at the value-at-risk. *)
Lemma cvar_value risks alpha :
  risks ≠ [] → 0 < alpha → alpha < 1 →
  ∃ var, Py.sorted risks !! Z.to_nat (var_index risks alpha) = Some var
       ∧ var ∈ tail_risks (Py.sorted risks) var
       ∧ _calculate_cvar risks alpha
         = Some (Py.mean (tail_risks (Py.sorted risks) var)).
Proof.
  intros Hne H0 H1.
  pose proof (var_index_range risks alpha Hne H0 H1) as Hr.
  destruct (lookup_lt_is_Some_2 (Py.sorted risks) (Z.to_nat (var_index risks alpha)))
    as [var Hvar]; [unfold Py.len in Hr; lia|].
  exists var. split; [done|].
  assert (Hin : var ∈ tail_risks (Py.sorted risks) var).
  { apply tail_elem; [by eapply list_elem_of_lookup_2 | lra]. }
  split; [done|].
  unfold _calculate_cvar. rewrite var_of_in_range, Hvar by done.
  destruct (tail_risks (Py.sorted risks) var); [by apply elem_of_nil in Hin|done].
Qed.

End CvarFacts.

Module CvarSpec.
Import Lqa Cvar PyFacts CvarFacts.
Local Open Scope Q_scope.

(** C1. For a non-empty list of non-negative risks and confidence levels
    [0 < a1 <= a2 < 1], [_calculate_cvar] returns values [c1] (at [a1])
    and [c2] (at [a2]) with [0 <= mean <= c1 <= c2]: the CVaR is at least
    the mean, the mean is non-negative, and the CVaR does not decrease
    when the level grows (taking [a1 = a2] gives the first two for every
    level). *)
Theorem cvar_ge_mean_monotone (risks : list Q) (a1 a2 : Q) :
  risks ≠ [] → Forall (fun r => 0 <= r) risks →
  0 < a1 → a1 <= a2 → a2 < 1 →
  ∃ c1 c2,
    _calculate_cvar risks a1 = Some c1 ∧
    _calculate_cvar risks a2 = Some c2 ∧
    0 <= Py.mean risks ∧ Py.mean risks <= c1 ∧ c1 <= c2.
Proof.
  intros Hne Hpos H0 H12 H1.
  destruct (cvar_value risks a1) as (v1 & Hv1 & Hin1 & Hc1); [done|done|lra|].
  destruct (cvar_value risks a2) as (v2 & Hv2 & Hin2 & Hc2); [done|lra|done|].
  eexists _, _. split; [exact Hc1|]. split; [exact Hc2|].
  split; [by apply mean_nonneg|].
  assert (Hv12 : v1 <= v2).
  { eapply (sorted_lookup_le (Py.sorted risks)); [apply sorted_sorted| |done..].
    pose proof (var_index_range risks a1 Hne H0 ltac:(lra)).
    apply Z2Nat.inj_le; [lia| |].
    - pose proof (var_index_range risks a2 Hne ltac:(lra) H1). lia.
    - unfold var_index. apply int_scaled_mono; [done..|].
      rewrite sorted_len. unfold Py.len. destruct risks; [done|simpl; lia]. }
  split.
  - rewrite <- (mean_perm _ _ (sorted_perm risks)).
    apply tail_mean_ge. intros E. rewrite E in Hin1. by apply elem_of_nil in Hin1.
  - rewrite <- (tail_tail _ v1 v2 Hv12).
    apply tail_mean_ge. rewrite tail_tail by done.
    intros E. rewrite E in Hin2. by apply elem_of_nil in Hin2.
Qed.

Lemma cvar_ge_mean_monotone_witness :
  ∃ c1 c2,
    _calculate_cvar [1 # 10; 1; 1 # 2; 3 # 10] (9 # 10) = Some c1 ∧
    _calculate_cvar [1 # 10; 1; 1 # 2; 3 # 10] (95 # 100) = Some c2 ∧
    0 <= Py.mean [1 # 10; 1; 1 # 2; 3 # 10] ∧
    Py.mean [1 # 10; 1; 1 # 2; 3 # 10] <= c1 ∧ c1 <= c2.
Proof.
  apply (cvar_ge_mean_monotone [1 # 10; 1; 1 # 2; 3 # 10] (9 # 10) (95 # 100)).
  - discriminate.
  - repeat constructor; discriminate.
  - reflexivity.
  - discriminate.
  - reflexivity.
Defined.

(** C10. For a non-empty risk list and a level in (0,1) the index
    [int(alpha * len)] is within the list, so the test
    [var_index < len(sorted_risks)] succeeds and the [sorted_risks[-1]]
    branch is not taken; the largest risk belongs to the tail
    [{r : r >= var}], so the tail is not empty and the [else var] branch
    is not taken either; the function returns the mean of that tail. *)
Theorem cvar_guards_unreachable (risks : list Q) (alpha : Q) :
  risks ≠ [] → 0 < alpha → alpha < 1 →
  let sorted_risks := Py.sorted risks in
  let i := var_index risks alpha in
  (0 <= i < Py.len sorted_risks)%Z ∧
  (i <? Py.len sorted_risks)%Z = true ∧
  ∃ var mx,
    var_of sorted_risks i = Some var ∧
    last sorted_risks = Some mx ∧
    Forall (fun r => r <= mx) risks ∧
    mx ∈ tail_risks sorted_risks var ∧
    tail_risks sorted_risks var ≠ [] ∧
    _calculate_cvar risks alpha = Some (Py.mean (tail_risks sorted_risks var)).
Proof.
  intros Hne H0 H1 sorted_risks i.
  pose proof (var_index_range risks alpha Hne H0 H1) as Hr.
  fold sorted_risks i in Hr.
  split; [done|]. split; [apply Z.ltb_lt; lia|].
  destruct (cvar_value risks alpha Hne H0 H1) as (var & Hvar & Hin & Hc).
  fold sorted_risks i in Hvar, Hin, Hc.
  assert (Hlen : (0 < length sorted_risks)%nat) by (unfold Py.len in Hr; lia).
  destruct (lookup_lt_is_Some_2 sorted_risks (pred (length sorted_risks)))
    as [mx Hmx]; [lia|].
  assert (Hmax : ∀ r, r ∈ sorted_risks → r <= mx).
  { intros r Hr'. apply list_elem_of_lookup in Hr' as [j Hj].
    eapply (sorted_lookup_le sorted_risks j); [apply sorted_sorted| |done..].
    apply lookup_lt_Some in Hj. lia. }
  assert (Hmx_in : mx ∈ tail_risks sorted_risks var).
  { apply tail_elem; [by eapply list_elem_of_lookup_2|].
    apply Hmax. by eapply list_elem_of_lookup_2. }
  exists var, mx.
  split; [by rewrite var_of_in_range|].
  split; [by rewrite last_lookup|].
  split.
  { apply Forall_forall. intros r Hr'. apply Hmax. by apply sorted_elem. }
  split; [done|]. split; [|done].
  intros E. rewrite E in Hmx_in. by apply elem_of_nil in Hmx_in.
Qed.

Lemma cvar_guards_unreachable_witness :
  (var_index [1 # 2; 1 # 10; 1 # 1] (95 # 100) <? Py.len (Py.sorted [1 # 2; 1 # 10; 1 # 1]))%Z
  = true.
Proof.
  apply (cvar_guards_unreachable [1 # 2; 1 # 10; 1 # 1] (95 # 100));
    [discriminate | reflexivity | reflexivity].
Defined.

End CvarSpec.

(* ===================================================================== *)
(** * Data model ([cvar_routing.py], dataclasses and the graph) *)
(* ===================================================================== *)

(** Exceptions that the modelled code can raise or let through. *)
Inductive exn :=
  | NetworkXNoPath | NodeNotFound | KeyError | IndexError | TypeError
  | ValueError | ZeroDivisionError | SolverError.

(** The outcome of a call: a value or a raised exception. *)
Inductive Res (A : Type) := Ok (a : A) | Raise (e : exn).
Arguments Ok {A} a.
Arguments Raise {A} e.

#[global] Instance Res_ret : MRet Res := @Ok.
#[global] Instance Res_bind : MBind Res := fun A B f m =>
  match m with Ok a => f a | Raise e => Raise e end.

Lemma bind_Ok {A B} (m : Res A) (f : A → Res B) b :
  m ≫= f = Ok b → ∃ a, m = Ok a ∧ f a = Ok b.
Proof. destruct m as [a|e]; [|done]. intros Hf. by exists a. Qed.

(** [@dataclass class Waypoint] *)
Module Waypoint.
Record t := mk {
  latitude : Q;
  longitude : Q;
  name : string;
  eta_hours : Q;
  instructions : string;
  risk_level : Q
}.
End Waypoint.

(** [@dataclass class RouteResult] *)
Module RouteResult.
Record t := mk {
  path : list (Q * Q);
  node_path : list Z;
  time_minutes : Q;
  distance_km : Q;
  mean_risk : Q;
  cvar_95 : Q;
  cvar_99 : Q;
  waypoints : list Waypoint.t;
  method : string;
  survival_probability : Q
}.
End RouteResult.

(* ===================================================================== *)
(** * Pareto filter ([decision/pareto.py]) *)
(* ===================================================================== *)

Module ParetoFrontGenerator.
Import RouteResult.

(** [_dominates(a, b)] *)
Definition _dominates (a b : RouteResult.t) : bool :=
  let time_better := Qle_bool (time_minutes a) (time_minutes b) in
  let risk_better := Qle_bool (cvar_95 a) (cvar_95 b) in
  let time_strictly_better := Py.lt (time_minutes a) (time_minutes b) in
  let risk_strictly_better := Py.lt (cvar_95 a) (cvar_95 b) in
  if time_better && risk_better && (time_strictly_better || risk_strictly_better)
  then true else false.

(** The inner loop of [_filter_dominated]: is [result_i], at position [i],
    dominated by a result at another position? *)
Definition dominated (results : list RouteResult.t) (i : nat)
    (result_i : RouteResult.t) : bool :=
  existsb (fun '(j, result_j) =>
             if Nat.eqb i j then false else _dominates result_j result_i)
          (Py.enumerate results).

(** [_filter_dominated(results)] *)
Definition _filter_dominated (results : list RouteResult.t) : list RouteResult.t :=
  if (length results <=? 1)%nat then results
  else
    List.map snd
      (List.filter (fun '(i, result_i) => negb (dominated results i result_i))
                   (Py.enumerate results)).

End ParetoFrontGenerator.

Module ParetoFacts.
Import Lqa RouteResult ParetoFrontGenerator.
Local Open Scope Q_scope.

(** Dominance as the specification words it: no worse in both
    coordinates of the (time, CVaR-95) plane and strictly better in one. *)
Definition spec_dominates (a b : RouteResult.t) : Prop :=
  (time_minutes a <= time_minutes b ∧ cvar_95 a <= cvar_95 b) ∧
  (time_minutes a < time_minutes b ∨ cvar_95 a < cvar_95 b).

Lemma lt_bool_iff a b : Py.lt a b = true ↔ a < b.
Proof.
  unfold Py.lt. rewrite negb_true_iff. split.
  - intros E. apply Qnot_le_lt. intros Hle. apply Qle_bool_iff in Hle. congruence.
  - intros Hlt. destruct (Qle_bool b a) eqn:E; [|done].
    apply Qle_bool_iff in E. lra.
Qed.

Lemma dominates_spec a b : _dominates a b = true ↔ spec_dominates a b.
Proof.
  unfold _dominates, spec_dominates.
  destruct (Qle_bool (time_minutes a) (time_minutes b)) eqn:Et;
  destruct (Qle_bool (cvar_95 a) (cvar_95 b)) eqn:Er;
  destruct (Py.lt (time_minutes a) (time_minutes b)) eqn:Est;
  destruct (Py.lt (cvar_95 a) (cvar_95 b)) eqn:Esr; simpl;
  repeat match goal with
  | H : Qle_bool _ _ = true |- _ => apply Qle_bool_iff in H
  | H : Py.lt _ _ = true |- _ => apply lt_bool_iff in H
  | H : Qle_bool _ _ = false |- _ =>
      apply not_true_iff_false in H; rewrite Qle_bool_iff in H
  | H : Py.lt _ _ = false |- _ =>
      apply not_true_iff_false in H; rewrite lt_bool_iff in H
  end; split; try done; try tauto.
Qed.

Lemma dominates_irrefl a : _dominates a a = false.
Proof.
  apply not_true_iff_false. rewrite dominates_spec.
  unfold spec_dominates. intros [_ [H|H]]; lra.
Qed.

Lemma elem_of_enumerate_from {A} (l : list A) n j x :
  (j, x) ∈ Py.enumerate_from n l ↔ ∃ k, j = (n + k)%nat ∧ l !! k = Some x.
Proof.
  revert n. induction l as [|y l IH]; intros n; simpl.
  - split; [by intros ?%elem_of_nil | by intros (k & _ & ?)].
  - rewrite elem_of_cons, IH. split.
    + intros [[= -> ->]|(k & -> & Hk)].
      * exists 0%nat. split; [lia|done].
      * exists (S k). split; [lia|done].
    + intros ([|k] & -> & Hk); simpl in Hk.
      * left. simplify_eq. f_equal. lia.
      * right. exists k. split; [lia|done].
Qed.

(** A result dominated by some element of the list, wherever it stands. *)
Definition dominated_by (results : list RouteResult.t) (r : RouteResult.t) : bool :=
  existsb (fun r' => _dominates r' r) results.

Lemma dominated_true results i r :
  dominated results i r = true ↔
  ∃ j r', j ≠ i ∧ results !! j = Some r' ∧ _dominates r' r = true.
Proof.
  unfold dominated, Py.enumerate. rewrite existsb_exists. split.
  - intros ([j r'] & Hin & Hd).
    apply list_elem_of_In, elem_of_enumerate_from in Hin as (k & -> & Hk).
    simpl in *. destruct (Nat.eqb_spec i k); [done|].
    exists k, r'. done.
  - intros (j & r' & Hne & Hj & Hd). exists (j, r'). split.
    + apply list_elem_of_In, elem_of_enumerate_from. by exists j.
    + destruct (Nat.eqb_spec i j); [congruence|done].
Qed.

Lemma dominated_by_true results r :
  dominated_by results r = true ↔ ∃ r', r' ∈ results ∧ _dominates r' r = true.
Proof.
  unfold dominated_by. rewrite existsb_exists.
  by setoid_rewrite list_elem_of_In.
Qed.

(** At its own position, skipping the position changes nothing: no
    result dominates itself. *)
Lemma dominated_at_own_position results i r :
  results !! i = Some r → dominated results i r = dominated_by results r.
Proof.
  intros Hi. apply eq_true_iff_eq.
  rewrite dominated_true, dominated_by_true. split.
  - intros (j & r' & _ & Hj & Hd). exists r'.
    split; [by eapply list_elem_of_lookup_2|done].
  - intros (r' & Hin & Hd). apply list_elem_of_lookup in Hin as [j Hj].
    exists j, r'. split_and!; [|done..].
    intros ->. simplify_eq. by rewrite dominates_irrefl in Hd.
Qed.

Lemma filter_enumerate_from {A} (P : nat * A → bool) (Q : A → bool) n (l : list A) :
  (∀ k x, l !! k = Some x → P ((n + k)%nat, x) = Q x) →
  List.map snd (List.filter P (Py.enumerate_from n l)) = List.filter Q l.
Proof.
  revert n. induction l as [|y l IH]; intros n HPQ; simpl; [done|].
  rewrite <- (HPQ 0%nat y eq_refl), Nat.add_0_r.
  assert (E : List.map snd (List.filter P (Py.enumerate_from (S n) l)) = List.filter Q l).
  { apply IH. intros k x Hk. rewrite <- (HPQ (S k) x Hk). f_equal. f_equal. lia. }
  destruct (P (n, y)); simpl; by rewrite E.
Qed.

Lemma filter_all {A} (P : A → bool) (l : list A) :
  (∀ x, x ∈ l → P x = true) → List.filter P l = l.
Proof.
  induction l as [|y l IH]; intros HP; simpl; [done|].
  rewrite (HP y) by (apply elem_of_cons; by left).
  f_equal. apply IH. intros x Hx. apply HP. apply elem_of_cons. by right.
Qed.

(** The filter keeps exactly the results that nothing in the list
    dominates, in their order. *)
Lemma filter_dominated_eq results :
  _filter_dominated results
  = List.filter (fun r => negb (dominated_by results r)) results.
Proof.
  unfold _filter_dominated. destruct (Nat.leb_spec (length results) 1) as [Hle|Hgt].
  - symmetry. apply filter_all. intros x Hx.
    destruct results as [|y [|z results]]; simpl in Hle; [|..].
    + by apply elem_of_nil in Hx.
    + apply list_elem_of_singleton in Hx as ->.
      unfold dominated_by; simpl. by rewrite dominates_irrefl.
    + lia.
  - unfold Py.enumerate. apply filter_enumerate_from.
    intros k x Hk. simpl. by rewrite dominated_at_own_position.
Qed.

End ParetoFacts.

Module ParetoSpec.
Import Lqa RouteResult ParetoFrontGenerator ParetoFacts.
Local Open Scope Q_scope.

(** C9. If no result of the list dominates a result at another position
    (dominance in the (time_minutes, cvar_95) plane: no worse in both and
    strictly better in one), [_filter_dominated] returns the list
    unchanged; and for every list, filtering the filtered list gives the
    filtered list again. *)
Theorem filter_dominated_idempotent (results : list RouteResult.t) :
  ((∀ i j a b, i ≠ j → results !! i = Some a → results !! j = Some b →
               ¬ spec_dominates a b)
   → _filter_dominated results = results)
  ∧ _filter_dominated (_filter_dominated results) = _filter_dominated results.
Proof.
  split.
  - intros Hnd. rewrite filter_dominated_eq. apply filter_all.
    intros r Hr. apply negb_true_iff, not_true_iff_false.
    rewrite dominated_by_true. intros (r' & Hr' & Hd).
    apply list_elem_of_lookup in Hr as [i Hi].
    apply list_elem_of_lookup in Hr' as [j Hj].
    destruct (decide (j = i)) as [->|Hne].
    + simplify_eq. by rewrite dominates_irrefl in Hd.
    + apply (Hnd j i r' r Hne Hj Hi). by apply dominates_spec.
  - rewrite (filter_dominated_eq (_filter_dominated results)).
    apply filter_all. intros r Hr.
    apply negb_true_iff, not_true_iff_false.
    rewrite dominated_by_true. intros (r' & Hr' & Hd).
    rewrite filter_dominated_eq in Hr, Hr'.
    apply list_elem_of_In, filter_In in Hr as [_ Hr].
    apply list_elem_of_In, filter_In in Hr' as [Hr' _].
    apply negb_true_iff, not_true_iff_false in Hr. apply Hr.
    apply dominated_by_true. exists r'. split; [by apply list_elem_of_In|done].
Qed.

(** Two incomparable results (one faster, one safer) and one that the
    first dominates. *)
Definition fast_route : RouteResult.t :=
  RouteResult.mk [] [0; 1; 3]%Z 18 15 (3 # 10) (1 # 2) (6 # 10) [] "pareto_1" (95 # 100).
Definition safe_route : RouteResult.t :=
  RouteResult.mk [] [0; 2; 3]%Z 25 16 (1 # 10) (2 # 10) (3 # 10) [] "pareto_2" (98 # 100).
Definition poor_route : RouteResult.t :=
  RouteResult.mk [] [0; 4; 3]%Z 30 20 (3 # 10) (1 # 2) (6 # 10) [] "pareto_3" (95 # 100).

Example filter_drops_dominated :
  _filter_dominated [fast_route; poor_route; safe_route] = [fast_route; safe_route].
Proof. reflexivity. Qed.

Lemma filter_dominated_idempotent_witness :
  _filter_dominated [fast_route; safe_route] = [fast_route; safe_route].
Proof.
  apply (proj1 (filter_dominated_idempotent [fast_route; safe_route])).
  intros i j a b Hne Hi Hj [[Ht Hr] _].
  destruct i as [|[|i]], j as [|[|j]]; simpl in Hi, Hj; try done;
    simplify_eq; simpl in Ht, Hr; try (by apply Ht); by apply Hr.
Defined.

End ParetoSpec.

(* ===================================================================== *)
(** * The attributed graph ([networkx.DiGraph]) *)
(* ===================================================================== *)

(** The object stored under an edge's ["geometry"] key, as the router
    sees it: its truth value and what [.xy] gives, as (lon, lat) pairs;
    [None] when reading [.xy] raises. *)
Record geometry := Geometry {
  geom_truthy : bool;
  geom_xy : option (list (Q * Q))
}.

(** An edge attribute value: a float, a string or a geometry object. *)
Inductive attr := Num (q : Q) | Str (s : string) | Geom (g : geometry).

(** Node attributes: [y] is the latitude, [x] the longitude. *)
Record NodeData := Node { y : Q; x : Q }.

Record DiGraph := mkDiGraph {
  nodes : gmap Z NodeData;
  edges : gmap (Z * Z) (gmap string attr)
}.

Module Nx.

Definition has_edge (G : DiGraph) (u v : Z) : bool :=
  bool_decide (is_Some (edges G !! (u, v))).

(** [G.edges[u, v]] *)
Definition edge_data (G : DiGraph) (e : Z * Z) : Res (gmap string attr) :=
  match edges G !! e with Some d => Ok d | None => Raise KeyError end.

(** [G.nodes[n]] *)
Definition node_data (G : DiGraph) (n : Z) : Res NodeData :=
  match nodes G !! n with Some d => Ok d | None => Raise KeyError end.

(** [(G.nodes[n]["y"], G.nodes[n]["x"])] *)
Definition node_coords (G : DiGraph) (n : Z) : Res (Q * Q) :=
  d ← node_data G n; mret (y d, x d).

(** [data.get(key, default)] used as a number: arithmetic on a value
    that is not a float raises [TypeError]. *)
Definition get_num (data : gmap string attr) (key : string) (default : Q) : Res Q :=
  match data !! key with
  | None => Ok default
  | Some (Num q) => Ok q
  | Some _ => Raise TypeError
  end.

(** [list(G.edges())]; the order is the map's, not the insertion order. *)
Definition edge_list (G : DiGraph) : list (Z * Z) := (map_to_list (edges G)).*1.

(** [G[u][v][key] = value], for an edge that exists. *)
Definition set_edge_attr (G : DiGraph) (e : Z * Z) (key : string) (value : attr) : DiGraph :=
  mkDiGraph (nodes G) (alter (fun d => <[key := value]> d) e (edges G)).

(** [del G[u][v][key]], for an edge that exists. *)
Definition del_edge_attr (G : DiGraph) (e : Z * Z) (key : string) : DiGraph :=
  mkDiGraph (nodes G) (alter (fun d => delete key d) e (edges G)).

(** The [weight] argument of [shortest_path]: an attribute name or a
    function of the edge. *)
Inductive weight :=
  | WAttr (key : string)
  | WFun (f : Z → Z → gmap string attr → Res Q).

End Nx.

(** A risk scenario (the dictionary built by [_generate_scenarios]). *)
Record Scenario := mkScenario {
  visibility_mult : Q;
  detection_mult : Q;
  patrol_presence : Q
}.

(** The mixed-integer program handed to the solver. Variables are
    [x[i]] for [i] in [E], [eta] and [z[s]] for [s] in [S]. *)
Module Milp.

(** [sum(x[i] for i in plus) - sum(x[i] for i in minus) == rhs] *)
Record FlowConstraint := mkFlow {
  flow_node : Z;
  flow_plus : list nat;
  flow_minus : list nat;
  flow_rhs : Z
}.

Record Model := mkModel {
  E : list (Z * Z);
  S : nat;
  flow : list FlowConstraint;
  (** [z[s] >= sum(x[i] * scenario_risk[s][i]) - eta] *)
  scenario_risk : list (list Q);
  (** objective: [weight_time * sum(x[i] * travel_time[i])
      + weight_risk * (eta + cvar_factor * sum(z) / S)] *)
  travel_time : list Q;
  cvar_factor : Q;
  weight_time : Q;
  weight_risk : Q
}.

End Milp.

(* ===================================================================== *)
(** * External libraries *)
(* ===================================================================== *)

(** [math.exp] *)
Class MathLib := { math_exp : Q → Q }.

(** [numpy.random]: the global generator state and the draws used. *)
Class NumpyRandom := {
  rng : Type;
  random_uniform : Q → Q → rng → Q * rng;
  random_choice : list Q → rng → Q * rng;
}.

(** [networkx.shortest_path(G, source, target, weight)]: a node path,
    [NetworkXNoPath], or another exception. *)
Class Networkx := {
  shortest_path : DiGraph → Z → Z → Nx.weight → Res (list Z)
}.

(** [SolverFactory(name).solve(model[, timelimit])]: the values of the
    [x] variables after the solve ([None] for a variable left without a
    value), or the exception raised. *)
Class Pyomo := {
  solver_solve : string → option Z → Milp.Model → Res (list (option Q))
}.

(* ===================================================================== *)
(** * Calls that change the graph or draw random numbers *)
(* ===================================================================== *)

(** What a method call can see and change: the router's graph (shared
    with its callers) and NumPy's global generator. *)
Record State `{NumpyRandom} := mkState {
  graph : DiGraph;
  np_random : rng
}.
Arguments mkState {_} _ _.

(** A call: from the state before to an outcome and the state after. *)
Definition M `{NumpyRandom} (A : Type) : Type := State → Res A * State.

#[global] Instance M_ret `{NumpyRandom} : MRet M := fun A a s => (Ok a, s).
#[global] Instance M_bind `{NumpyRandom} : MBind M := fun A B f m s =>
  match m s with
  | (Ok a, s') => f a s'
  | (Raise e, s') => (Raise e, s')
  end.
#[global] Typeclasses Opaque M.

Module Call.
Section Call.
Context `{NumpyRandom}.

Definition get_graph : M DiGraph := fun s => (Ok (graph s), s).
Definition put_graph (G : DiGraph) : M unit :=
  fun s => (Ok tt, mkState G (np_random s)).
Definition raise {A} (e : exn) : M A := fun s => (Raise e, s).
Definition lift {A} (r : Res A) : M A := fun s => (r, s).

(** One draw from the global generator. *)
Definition draw {A} (f : rng → A * rng) : M A :=
  fun s => let '(a, g) := f (np_random s) in (Ok a, mkState (graph s) g).

(** [try: body  except Exception: handler] *)
Definition try_except {A} (body : M A) (handler : exn → M A) : M A :=
  fun s => match body s with
           | (Ok a, s') => (Ok a, s')
           | (Raise e, s') => handler e s'
           end.

(** [for item in items: body(item)] *)
Fixpoint for_each {A} (items : list A) (body : A → M unit) : M unit :=
  match items with
  | [] => mret tt
  | item :: rest => _ ← body item; for_each rest body
  end.

End Call.
End Call.

(** The same loops for code that only raises. *)
Module Loop.

(** [acc = init; for item in items: acc = body(acc, item)] *)
Fixpoint fold {A B} (body : B → A → Res B) (init : B) (items : list A) : Res B :=
  match items with
  | [] => Ok init
  | item :: rest => acc ← body init item; fold body acc rest
  end.

(** [[f(item) for item in items]] *)
Fixpoint comprehension {A B} (f : A → Res B) (items : list A) : Res (list B) :=
  match items with
  | [] => Ok []
  | item :: rest => b ← f item; bs ← comprehension f rest; mret (b :: bs)
  end.

End Loop.

(* ===================================================================== *)
(** * The router ([decision/cvar_routing.py], class [CVaRRouter]) *)
(* ===================================================================== *)

Module CVaRRouter.

(** [utils/constants.py] *)
Definition CVAR_DEFAULT_ALPHA : Q := 95 # 100.
Definition CVAR_NUM_SCENARIOS : nat := 100.
Definition CVAR_SOLVER : string := "glpk".
Definition CVAR_TIME_LIMIT_SEC : Z := 300.
Definition CVAR_WEIGHT_TIME : Q := 1 # 2.
Definition CVAR_WEIGHT_RISK : Q := 1 # 2.

(** The fields set by [__init__]; [self.graph] lives in the state. *)
Record t := mk {
  alpha : Q;
  num_scenarios : nat
}.

Section Methods.
Context `{MathLib, NumpyRandom, Networkx, Pyomo}.
Local Open Scope Q_scope.

(** The loop of [_generate_scenarios]: [n] more scenarios, three draws each. *)
Fixpoint scenario_loop (n : nat) : M (list Scenario) :=
  match n with
  | O => mret []
  | Datatypes.S n' =>
      visibility ← Call.draw (random_uniform (7 # 10) (13 # 10));
      detection ← Call.draw (random_uniform (8 # 10) (12 # 10));
      patrol ← Call.draw (random_choice [8 # 10; 1 # 1; 12 # 10; 15 # 10]);
      rest ← scenario_loop n';
      mret (mkScenario visibility detection patrol :: rest)
  end.

Definition _generate_scenarios (self : t) : M (list Scenario) :=
  scenario_loop (num_scenarios self).

Definition _get_edge_risk (G : DiGraph) (edge : Z * Z) (scenario : Scenario)
    (cargo_value : Q) : Res Q :=
  data ← Nx.edge_data G edge;
  base_detection ← Nx.get_num data "detection_base" (3 # 10);
  visibility ← Nx.get_num data "visibility" (1 # 2);
  killzone_penalty ← Nx.get_num data "killzone_penalty" 1;
  let scenario_risk :=
    base_detection * detection_mult scenario *
    (1 + visibility * visibility_mult scenario * (1 # 2)) *
    patrol_presence scenario *
    killzone_penalty in
  let weighted_risk := scenario_risk * (cargo_value / 10) in
  mret (Py.min weighted_risk 10).

(** The walk of [_edges_to_path]: [fuel] more rounds of the [for] loop;
    [None] is the early [return []]. *)
Fixpoint walk (edge_dict : gmap Z Z) (destination : Z) (fuel : nat)
    (path : list Z) (current : Z) : option (list Z) :=
  match fuel with
  | O => Some path
  | Datatypes.S fuel' =>
      if bool_decide (current = destination) then Some path
      else match edge_dict !! current with
           | None => None
           | Some next_node =>
               walk edge_dict destination fuel' (path ++ [next_node]) next_node
           end
  end.

Definition _edges_to_path (edges : list (Z * Z)) (origin destination : Z) : list Z :=
  match edges with
  | [] => []
  | _ :: _ =>
      let edge_dict : gmap Z Z :=
        foldl (fun d '(u, v) => <[u := v]> d) ∅ edges in
      match walk edge_dict destination (length edges + 1) [origin] origin with
      | None => []
      | Some path =>
          if bool_decide (last path = Some destination) then path else []
      end
  end.

(** Consecutive pairs [(node_path[i], node_path[i + 1])]. *)
Definition steps (node_path : list Z) : list (Z * Z) :=
  zip node_path (tail node_path).

Definition truthy (a : attr) : bool :=
  match a with
  | Num q => negb (Qeq_bool q 0)
  | Str s => negb (String.eqb s "")
  | Geom g => geom_truthy g
  end.

(** [lons, lats = geom.xy; list(zip(lats, lons))]; [None] when the
    attribute access raises. *)
Definition segment_of (a : attr) : option (list (Q * Q)) :=
  match a with
  | Geom g => (fun pts => List.map (fun '(lon, lat) => (lat, lon)) pts) <$> geom_xy g
  | _ => None
  end.

(** The two [append] calls used when an edge has no usable geometry.
    Inside the [try] a [KeyError] reaches the handler, which repeats
    them and raises the same [KeyError]; the outcome is the same. *)
Definition append_endpoints (G : DiGraph) (i : nat) (u v : Z)
    (path_coords : list (Q * Q)) : Res (list (Q * Q)) :=
  path_coords ←
    (if Nat.eqb i 0 then cu ← Nx.node_coords G u; mret (path_coords ++ [cu])
     else mret path_coords);
  cv ← Nx.node_coords G v;
  mret (path_coords ++ [cv]).

Definition extend_coords (G : DiGraph) (i : nat) (u v : Z)
    (edge_data : gmap string attr) (path_coords : list (Q * Q))
  : Res (list (Q * Q)) :=
  match edge_data !! "geometry" with
  | Some geom =>
      if truthy geom then
        match segment_of geom with
        | Some [] => append_endpoints G i u v path_coords
        | Some segment =>
            if Nat.eqb i 0 then mret (path_coords ++ segment)
            else mret (path_coords ++ tail segment)
        | None => append_endpoints G i u v path_coords
        end
      else append_endpoints G i u v path_coords
  | None => append_endpoints G i u v path_coords
  end.

(** The first loop of [_build_route_result]: coordinates, time, distance. *)
Definition travel_step (G : DiGraph) (acc : list (Q * Q) * Q * Q)
    (item : nat * (Z * Z)) : Res (list (Q * Q) * Q * Q) :=
  let '(path_coords, total_time, total_distance) := acc in
  let '(i, (u, v)) := item in
  if negb (Nx.has_edge G u v) then mret acc
  else
    edge_data ← Nx.edge_data G (u, v);
    path_coords ← extend_coords G i u v edge_data path_coords;
    dt ← Nx.get_num edge_data "travel_time_hours" 0;
    dd ← Nx.get_num edge_data "distance_km" 0;
    mret (path_coords, total_time + dt, total_distance + dd).

(** The second loop: the waypoints. *)
Definition waypoint_step (G : DiGraph) (n : nat) (waypoint_interval : nat)
    (total_time : Q) (waypoints : list Waypoint.t) (item : nat * Z)
  : Res (list Waypoint.t) :=
  let '(i, node) := item in
  if Nat.eqb i 0 || Nat.eqb i (n - 1) || Nat.eqb (i mod waypoint_interval) 0 then
    '(lat, lon) ← Nx.node_coords G node;
    let name :=
      if Nat.eqb i 0 then "Origin"
      else if Nat.eqb i (n - 1) then "Destination"
      else "Waypoint " +:+ pretty (length waypoints) in
    mret (waypoints ++ [Waypoint.mk lat lon name total_time "" 0])
  else mret waypoints.

(** The third loop: the risk of the path under one scenario. *)
Definition path_risk (G : DiGraph) (node_path : list Z) (cargo_value : Q)
    (scenario : Scenario) : Res Q :=
  Loop.fold (fun risk '(u, v) =>
               if Nx.has_edge G u v then
                 r ← _get_edge_risk G (u, v) scenario cargo_value; mret (risk + r)
               else mret risk)
            0 (steps node_path).

Definition calculate_cvar (risks : list Q) (alpha : Q) : Res Q :=
  match Cvar._calculate_cvar risks alpha with
  | Some cvar => Ok cvar
  | None => Raise IndexError
  end.

Definition _calculate_survival_probability (risk_score : Q) (lambda_cal : Q) : Q :=
  math_exp (- lambda_cal * risk_score).

Definition _build_route_result (G : DiGraph) (node_path : list Z)
    (scenarios : list Scenario) (cargo_value : Q) (method : string)
  : Res RouteResult.t :=
  '(path_coords, total_time, total_distance) ←
    Loop.fold (travel_step G) ([], 0, 0) (Py.enumerate (steps node_path));
  let waypoint_interval := Nat.max 1 (length node_path / 10) in
  waypoints ←
    Loop.fold (waypoint_step G (length node_path) waypoint_interval total_time)
              [] (Py.enumerate node_path);
  scenario_risks ← Loop.comprehension (path_risk G node_path cargo_value) scenarios;
  let mean_risk := Py.mean scenario_risks in
  cvar_95 ← calculate_cvar scenario_risks (95 # 100);
  cvar_99 ← calculate_cvar scenario_risks (99 # 100);
  let survival_prob := _calculate_survival_probability cvar_95 (1 # 10) in
  mret (RouteResult.mk path_coords node_path (total_time * 60) total_distance
          mean_risk cvar_95 cvar_99 waypoints method survival_prob).

Definition _empty_result (method : string) : RouteResult.t :=
  RouteResult.mk [] [] 0 0 0 0 0 [] method 0.

(** [try: nx.shortest_path(...)  except nx.NetworkXNoPath: ...]: the
    three baselines share this shape. *)
Definition route_or_empty (self : t) (found : Res (list Z)) (cargo_value : Q)
    (method : string) : M RouteResult.t :=
  match found with
  | Raise NetworkXNoPath => mret (_empty_result method)
  | Raise e => Call.raise e
  | Ok node_path =>
      scenarios ← _generate_scenarios self;
      G ← Call.get_graph;
      Call.lift (_build_route_result G node_path scenarios cargo_value method)
  end.

Definition shortest_distance (self : t) (origin destination : Z) : M RouteResult.t :=
  G ← Call.get_graph;
  route_or_empty self
    (shortest_path G origin destination (Nx.WAttr "distance_km"))
    7 "shortest_distance".

Definition shortest_time (self : t) (origin destination : Z) : M RouteResult.t :=
  G ← Call.get_graph;
  route_or_empty self
    (shortest_path G origin destination (Nx.WAttr "travel_time_hours"))
    7 "shortest_time".

(** The body of the loop of [mean_risk] for one edge. *)
Definition assign_risk_weight (cargo_value : Q) (item : (Z * Z) * gmap string attr)
  : M unit :=
  let '(e, data) := item in
  killzone_penalty ← Call.lift (Nx.get_num data "killzone_penalty" 1);
  detection ← Call.lift (Nx.get_num data "detection_base" (3 # 10));
  let risk := detection * cargo_value / 10 * killzone_penalty in
  G ← Call.get_graph;
  Call.put_graph (Nx.set_edge_attr G e "risk_weight" (Num risk)).

(** [for u, v, data in self.graph.edges(data=True): ...] *)
Definition assign_risk_weights (cargo_value : Q) : M unit :=
  G ← Call.get_graph;
  Call.for_each (map_to_list (edges G)) (assign_risk_weight cargo_value).

Definition mean_risk (self : t) (origin destination : Z) (cargo_value : Q)
  : M RouteResult.t :=
  _ ← assign_risk_weights cargo_value;
  G ← Call.get_graph;
  route_or_empty self
    (shortest_path G origin destination (Nx.WAttr "risk_weight"))
    cargo_value "mean_risk".

(** [flow_conservation_rule(m, node)]; the sums range over the indices
    of the edges that leave and enter [node]. For a node without any
    edge both sums are the integer 0, the rule returns a Python boolean,
    and Pyomo rejects it with [ValueError]. *)
Definition flow_conservation_rule (edges : list (Z * Z)) (origin destination : Z)
    (node : Z) : Res Milp.FlowConstraint :=
  let out_edges :=
    (List.filter (fun '(_, (u, _)) => bool_decide (u = node)) (Py.enumerate edges)).*1 in
  let in_edges :=
    (List.filter (fun '(_, (_, v)) => bool_decide (v = node)) (Py.enumerate edges)).*1 in
  match out_edges, in_edges with
  | [], [] => Raise ValueError
  | _, _ =>
      if bool_decide (node = origin) then mret (Milp.mkFlow node out_edges in_edges 1)
      else if bool_decide (node = destination)
      then mret (Milp.mkFlow node in_edges out_edges 1)
      else mret (Milp.mkFlow node in_edges out_edges 0)
  end.

(** The coefficients of [cvar_scenario_rule(m, s)]. *)
Definition cvar_scenario_rule (G : DiGraph) (edges : list (Z * Z)) (cargo_value : Q)
    (scenario : Scenario) : Res (list Q) :=
  Loop.comprehension (fun e => _get_edge_risk G e scenario cargo_value) edges.

(** Building the [ConcreteModel], up to the [try] block. The last two
    tests are the float divisions [1.0 / (1.0 - self.alpha)] and
    [... / self.num_scenarios]. *)
Definition build_model (self : t) (G : DiGraph) (scenarios : list Scenario)
    (origin destination : Z) (cargo_value weight_time weight_risk : Q)
  : Res Milp.Model :=
  let edges := Nx.edge_list G in
  flow ←
    Loop.comprehension (flow_conservation_rule edges origin destination)
                       (map_to_list (nodes G)).*1;
  scenario_risk ← Loop.comprehension (cvar_scenario_rule G edges cargo_value) scenarios;
  travel_time ←
    Loop.comprehension
      (fun e => data ← Nx.edge_data G e; Nx.get_num data "travel_time_hours" 1) edges;
  if Qeq_bool (1 - alpha self) 0 then Raise ZeroDivisionError
  else if Nat.eqb (num_scenarios self) 0 then Raise ZeroDivisionError
  else
    mret (Milp.mkModel edges (num_scenarios self) flow scenario_risk travel_time
            (1 / (1 - alpha self)) weight_time weight_risk).

(** [[edges[i] for i in model.E if value(model.x[i]) > 0.5]]; [value]
    raises [ValueError] on a variable without a value. *)
Definition selected_edges (edges : list (Z * Z)) (values : list (option Q))
  : Res (list (Z * Z)) :=
  Loop.fold (fun selected '(i, e) =>
               match values !! i with
               | Some (Some v) =>
                   if Py.lt (1 # 2) v then mret (selected ++ [e]) else mret selected
               | _ => Raise ValueError
               end)
            [] (Py.enumerate edges).

(** [timelimit=CVAR_TIME_LIMIT_SEC] is passed to [cbc] and [highs] only. *)
Definition solver_timelimit (solver : string) : option Z :=
  if bool_decide (solver ∈ ["cbc"; "highs"]) then Some CVAR_TIME_LIMIT_SEC
  else None.

(** [optimize]. The test [hasattr(model, "x")] always succeeds, so its
    branch is left out. *)
Definition optimize (self : t) (origin destination : Z)
    (cargo_value weight_time weight_risk : Q) (solver : string) : M RouteResult.t :=
  scenarios ← _generate_scenarios self;
  G ← Call.get_graph;
  model ← Call.lift (build_model self G scenarios origin destination
                       cargo_value weight_time weight_risk);
  match solver_solve solver (solver_timelimit solver) model with
  | Raise _ => shortest_time self origin destination
  | Ok values =>
      selected ← Call.lift (selected_edges (Milp.E model) values);
      match _edges_to_path selected origin destination with
      | [] => shortest_time self origin destination
      | node_path =>
          G ← Call.get_graph;
          Call.lift (_build_route_result G node_path scenarios cargo_value "cvar")
      end
  end.

End Methods.
End CVaRRouter.

(* ===================================================================== *)
(** * Route randomisation ([decision/game_theory.py], class [StackelbergRouter]) *)
(* ===================================================================== *)

(** [nashpy]: [list(nash.Game(A, B).support_enumeration())], each
    equilibrium a pair of mixed strategies. *)
Class Nashpy := {
  support_enumeration : list (list Q) → list (list Q) → list (list Q * list Q)
}.

Module StackelbergRouter.
Import CVaRRouter.

(** [utils/constants.py] *)
Definition GAME_NUM_ROUTES : nat := 5.
Definition GAME_NUM_DEFENDER_CONFIGS : nat := 5.
Definition GAME_PATROL_RADIUS_KM : Q := 3.

Section Methods.
Context `{MathLib, NumpyRandom, Networkx, Pyomo, Nashpy}.
Local Open Scope Q_scope.

(** The set [penalty_edges] built from the routes found so far. *)
Definition penalty_edges (routes : list RouteResult.t) : gset (Z * Z) :=
  list_to_set (concat (List.map (fun r => steps (RouteResult.node_path r)) routes)).

(** [self.graph[u][v]["temp_penalty"] = 100.0] on the edges that exist. *)
Definition add_penalty (e : Z * Z) : M unit :=
  G ← Call.get_graph;
  if Nx.has_edge G e.1 e.2
  then Call.put_graph (Nx.set_edge_attr G e "temp_penalty" (Num 100))
  else mret tt.

(** [del self.graph[u][v]["temp_penalty"]] where the key is present. *)
Definition remove_penalty (e : Z * Z) : M unit :=
  G ← Call.get_graph;
  match edges G !! e with
  | Some data =>
      if bool_decide (is_Some (data !! "temp_penalty"))
      then Call.put_graph (Nx.del_edge_attr G e "temp_penalty")
      else mret tt
  | None => mret tt
  end.

(** [lambda u, v, d: d.get("travel_time_hours", 1.0) + d.get("temp_penalty", 0.0)] *)
Definition penalised_time : Nx.weight :=
  Nx.WFun (fun _ _ d =>
             t ← Nx.get_num d "travel_time_hours" 1;
             p ← Nx.get_num d "temp_penalty" 0;
             mret (t + p)).

(** The body of the [try] block in the [while] loop: [Some r] when a new
    route is appended, [None] at the [break]. *)
Definition diverse_attempt (self : CVaRRouter.t) (origin destination : Z)
    (cargo_value : Q) (routes : list RouteResult.t) : M (option RouteResult.t) :=
  let penalised := elements (penalty_edges routes) in
  _ ← Call.for_each penalised add_penalty;
  G ← Call.get_graph;
  diverse_path ← Call.lift (shortest_path G origin destination penalised_time);
  _ ← Call.for_each penalised remove_penalty;
  scenarios ← _generate_scenarios self;
  G ← Call.get_graph;
  diverse_result ←
    Call.lift (_build_route_result G diverse_path scenarios cargo_value
                 ("diverse_" +:+ pretty (length routes + 1)%nat));
  if bool_decide (RouteResult.node_path diverse_result
                  ∈ List.map RouteResult.node_path routes)
  then mret None
  else mret (Some diverse_result).

(** [while len(routes) < k: try: ... except Exception: break]. Every
    round that does not leave the loop appends a route, so [fuel = k]
    rounds are enough. *)
Fixpoint diverse_loop (self : CVaRRouter.t) (origin destination : Z)
    (cargo_value : Q) (k : nat) (fuel : nat) (routes : list RouteResult.t)
  : M (list RouteResult.t) :=
  match fuel with
  | O => mret routes
  | Datatypes.S fuel' =>
      if (length routes <? k)%nat then
        attempt ← Call.try_except
                    (diverse_attempt self origin destination cargo_value routes)
                    (fun _ => mret None);
        match attempt with
        | Some diverse_result =>
            diverse_loop self origin destination cargo_value k fuel'
              (routes ++ [diverse_result])
        | None => mret routes
        end
      else mret routes
  end.

(** [routes.append(r)] unless a route with the same node path is there. *)
Definition append_if_new (routes : list RouteResult.t) (r : RouteResult.t)
  : list RouteResult.t :=
  if bool_decide (RouteResult.node_path r ∈ List.map RouteResult.node_path routes)
  then routes else routes ++ [r].

Definition _generate_k_routes (self : CVaRRouter.t) (origin destination : Z)
    (cargo_value : Q) (k : nat) : M (list RouteResult.t) :=
  baseline ← optimize self origin destination cargo_value
               CVAR_WEIGHT_TIME CVAR_WEIGHT_RISK CVAR_SOLVER;
  let routes := [baseline] in
  fastest ← shortest_time self origin destination;
  let routes := append_if_new routes fastest in
  shortest ← shortest_distance self origin destination;
  let routes := append_if_new routes shortest in
  mean_risk_route ← mean_risk self origin destination cargo_value;
  let routes := append_if_new routes mean_risk_route in
  routes ← diverse_loop self origin destination cargo_value k k routes;
  mret (take k routes).

(** [_solve_zero_sum_game(payoff_matrix)], the matrix as its list of rows. *)
Definition _solve_zero_sum_game (payoff_matrix : list (list Q)) : list Q :=
  let K := length payoff_matrix in
  if Nat.eqb K 1 then [1]
  else
    let equilibria :=
      support_enumeration payoff_matrix (List.map (List.map Qopp) payoff_matrix) in
    match equilibria with
    | (attacker_strategy, _) :: _ => attacker_strategy
    | [] => replicate K (1 / inject_Z (Z.of_nat K))
    end.

End Methods.
End StackelbergRouter.

(* ===================================================================== *)
(** * Sample implementations of the external libraries

    Small executable stand-ins, used to run the model on concrete
    inputs: a linear congruential generator for [numpy.random], a
    Bellman-Ford search for [networkx.shortest_path], a solver that is
    not installed, a cubic Taylor polynomial for [math.exp], and the
    pure-strategy stage of support enumeration. *)
(* ===================================================================== *)

Module Sample.
Local Open Scope Q_scope.

#[local] Instance taylor_exp : MathLib :=
  {| math_exp q := 1 + q + q * q / 2 + q * q * q / 6 |}.

Definition lcg_next (g : Z) : Z := ((1103515245 * g + 12345) mod 2147483648)%Z.

Definition unit_interval (g : Z) : Q := Qmake g 2147483648.

#[local] Instance lcg : NumpyRandom :=
  {| rng := Z;
     random_uniform lo hi g :=
       let g' := lcg_next g in (lo + (hi - lo) * unit_interval g', g');
     random_choice l g :=
       let g' := lcg_next g in
       (default 0 (l !! Z.to_nat (g' mod Z.of_nat (length l))), g') |}.

Definition edge_weight (w : Nx.weight) (e : Z * Z) (data : gmap string attr) : Res Q :=
  match w with
  | Nx.WAttr key => Nx.get_num data key 1
  | Nx.WFun f => f e.1 e.2 data
  end.

(** One relaxation: the best known cost and path to each node. *)
Definition relax (dist : gmap Z (Q * list Z)) (item : (Z * Z) * Q)
  : gmap Z (Q * list Z) :=
  let '((u, v), w) := item in
  match dist !! u with
  | None => dist
  | Some (du, pu) =>
      match dist !! v with
      | Some (dv, _) =>
          if Py.lt (du + w) dv then <[v := (du + w, pu ++ [v])]> dist else dist
      | None => <[v := (du + w, pu ++ [v])]> dist
      end
  end.

Definition bellman_ford (G : DiGraph) (source target : Z) (w : Nx.weight)
  : Res (list Z) :=
  if bool_decide (is_Some (nodes G !! source) ∧ is_Some (nodes G !! target)) then
    weighted ←
      Loop.comprehension (fun '(e, data) => c ← edge_weight w e data; mret (e, c))
                         (map_to_list (edges G));
    let dist :=
      Nat.iter (size (nodes G)) (fun dist => foldl relax dist weighted)
               {[ source := (0, [source]) ]} in
    match dist !! target with
    | Some (_, node_path) => Ok node_path
    | None => Raise NetworkXNoPath
    end
  else Raise NodeNotFound.

#[local] Instance search : Networkx := {| shortest_path := bellman_ford |}.

(** No solver executable on the machine: every solve raises. *)
#[local] Instance no_solver : Pyomo :=
  {| solver_solve _ _ _ := Raise SolverError |}.

(** A solver that returns the given variable values. *)
Definition fixed_solver (values : list (option Q)) : Pyomo :=
  {| solver_solve _ _ _ := Ok values |}.

(** The graph of [tests/test_routing.py]. *)
Definition simple_graph : DiGraph :=
  let edge (d t p : Q) (road : string) : gmap string attr :=
    {[ "distance_km" := Num d; "travel_time_hours" := Num t;
       "detection_base" := Num p; "road_type" := Str road ]} in
  mkDiGraph
    {[ 0%Z := Node (482 # 10) (371 # 10); 1%Z := Node (4825 # 100) (3715 # 100);
       2%Z := Node (483 # 10) (372 # 10); 3%Z := Node (4835 # 100) (3725 # 100) ]}
    {[ (0, 1)%Z := edge 5 (1 # 10) (2 # 10) "primary";
       (1, 2)%Z := edge 6 (12 # 100) (5 # 10) "secondary";
       (2, 3)%Z := edge 4 (8 # 100) (3 # 10) "primary";
       (0, 2)%Z := edge 12 (25 # 100) (15 # 100) "track" ]}.

(** The same graph with node 3 cut off. *)
Definition cut_graph : DiGraph :=
  mkDiGraph (nodes simple_graph) (delete (2, 3)%Z (edges simple_graph)).

Definition router : CVaRRouter.t := CVaRRouter.mk (95 # 100) 2.

Definition start (G : DiGraph) : State := mkState G 42%Z.

End Sample.

(* ===================================================================== *)
(** * What a call may change in the graph *)
(* ===================================================================== *)

Module Frame.
Section Frame.
Context `{NumpyRandom}.

(** On every exit path, normal or exceptional, the graph after the call
    is related by [R] to the graph before it. *)
Definition keeps (R : relation DiGraph) {A} (m : M A) : Prop :=
  ∀ s, R (graph s) (graph (m s).2).

(** The graphs agree on nodes, on which edges exist, and on every edge
    attribute whose key is not listed. *)
Definition same_except (keys : list string) (G G' : DiGraph) : Prop :=
  nodes G = nodes G' ∧
  ∀ e, option_Forall2 (fun d d' : gmap string attr =>
                         ∀ k, k ∉ keys → d !! k = d' !! k)
                      (edges G !! e) (edges G' !! e).

#[global] Instance same_except_preorder keys : PreOrder (same_except keys).
Proof.
  split.
  - intros G. split; [done|]. intros e. destruct (edges G !! e); by constructor.
  - intros G1 G2 G3 [Hn12 He12] [Hn23 He23]. split; [congruence|].
    intros e. specialize (He12 e). specialize (He23 e).
    destruct He12 as [d1 d2 H12|]; inversion He23 as [d2' d3 H23|]; subst;
      constructor.
    intros k Hk. rewrite H12 by done. by apply H23.
Qed.

Lemma same_except_nil G G' : same_except [] G G' → G = G'.
Proof.
  intros [Hn He]. destruct G as [n e], G' as [n' e']; simpl in *. f_equal; [done|].
  apply map_eq. intros i. specialize (He i).
  destruct He as [d d' Hd|]; [|done]. f_equal. apply map_eq. intros k.
  apply Hd. apply not_elem_of_nil.
Qed.

Lemma same_except_set keys G e key value :
  key ∈ keys → same_except keys G (Nx.set_edge_attr G e key value).
Proof.
  intros Hk. split; [done|]. intros e'. simpl.
  destruct (decide (e = e')) as [->|Hne].
  - rewrite lookup_alter_eq. destruct (edges G !! e'); constructor.
    intros k Hk'. rewrite lookup_insert_ne; [done|]. by intros ->.
  - rewrite lookup_alter_ne by done. destruct (edges G !! e'); by constructor.
Qed.

Lemma same_except_del keys G e key :
  key ∈ keys → same_except keys G (Nx.del_edge_attr G e key).
Proof.
  intros Hk. split; [done|]. intros e'. simpl.
  destruct (decide (e = e')) as [->|Hne].
  - rewrite lookup_alter_eq. destruct (edges G !! e'); constructor.
    intros k Hk'. rewrite lookup_delete_ne; [done|]. by intros ->.
  - rewrite lookup_alter_ne by done. destruct (edges G !! e'); by constructor.
Qed.

Section Rules.
Context (R : relation DiGraph) `{!PreOrder R}.

Lemma keeps_ret {A} (a : A) : keeps R (mret a).
Proof. intros s. simpl. reflexivity. Qed.

Lemma keeps_bind {A B} (m : M A) (f : A → M B) :
  keeps R m → (∀ a, keeps R (f a)) → keeps R (m ≫= f).
Proof.
  intros Hm Hf s. unfold mbind, M_bind. specialize (Hm s).
  destruct (m s) as [[a|e] s'] eqn:E; simpl in *; [|done].
  etrans; [exact Hm|]. apply Hf.
Qed.

Lemma keeps_lift {A} (r : Res A) : keeps R (Call.lift r).
Proof. intros s. simpl. reflexivity. Qed.

Lemma keeps_raise {A} e : keeps R (Call.raise (A := A) e).
Proof. intros s. simpl. reflexivity. Qed.

Lemma keeps_get_graph : keeps R Call.get_graph.
Proof. intros s. simpl. reflexivity. Qed.

Lemma keeps_draw {A} (f : rng → A * rng) : keeps R (Call.draw f).
Proof. intros s. unfold Call.draw. destruct (f (np_random s)). simpl. reflexivity. Qed.

Lemma keeps_try_except {A} (body : M A) handler :
  keeps R body → (∀ e, keeps R (handler e)) → keeps R (Call.try_except body handler).
Proof.
  intros Hb Hh s. unfold Call.try_except. specialize (Hb s).
  destruct (body s) as [[a|e] s'] eqn:E; simpl in *; [done|].
  etrans; [exact Hb|]. apply Hh.
Qed.

Lemma keeps_for_each {A} (items : list A) body :
  (∀ item, keeps R (body item)) → keeps R (Call.for_each items body).
Proof.
  intros Hb. induction items as [|item items IH]; simpl.
  - apply keeps_ret.
  - apply keeps_bind; [apply Hb | intros _; apply IH].
Qed.

End Rules.
End Frame.

(** Decompose a call into its steps, leaving the steps that write. *)
Ltac step :=
  repeat match goal with
  | |- PreOrder _ => apply _
  | |- forall _, _ => intro
  | |- keeps _ (mret _) => apply keeps_ret
  | |- keeps _ (Call.lift _) => apply keeps_lift
  | |- keeps _ (Call.raise _) => apply keeps_raise
  | |- keeps _ Call.get_graph => apply keeps_get_graph
  | |- keeps _ (Call.draw _) => apply keeps_draw
  | |- keeps _ (_ ≫= _) => apply keeps_bind
  | |- keeps _ (Call.for_each _ _) => apply keeps_for_each
  | |- keeps _ (Call.try_except _ _) => apply keeps_try_except
  | |- keeps _ _ => progress case_match
  end.

End Frame.

(* ===================================================================== *)
(** * Path reconstruction from the selected edges *)
(* ===================================================================== *)

Module PathFacts.
Import CVaRRouter.

(** Consecutive nodes of [p] are linked by [dict]. *)
Definition chained (dict : gmap Z Z) (p : list Z) : Prop :=
  ∀ i u v, p !! i = Some u → p !! Datatypes.S i = Some v → dict !! u = Some v.

Lemma chained_snoc dict p current next_node :
  chained dict p → last p = Some current → dict !! current = Some next_node →
  chained dict (p ++ [next_node]).
Proof.
  intros Hc Hlast Hd i u v Hu Hv.
  destruct (decide (Datatypes.S i < length p)%nat) as [Hlt|Hge].
  - rewrite lookup_app_l in Hu by lia. rewrite lookup_app_l in Hv by lia. eauto.
  - assert (length p ≠ 0%nat) by (destruct p; [done|simpl; lia]).
    assert (Hi : Datatypes.S i = length p).
    { apply lookup_lt_Some in Hv. rewrite length_app in Hv. simpl in Hv. lia. }
    rewrite lookup_app_l in Hu by lia.
    rewrite lookup_app_r in Hv by lia.
    rewrite Hi, Nat.sub_diag in Hv. simpl in Hv. simplify_eq.
    rewrite last_lookup in Hlast.
    assert (i = pred (length p)) as -> by lia. congruence.
Qed.

Lemma walk_sound dict destination fuel p current res :
  walk dict destination fuel p current = Some res →
  chained dict p → last p = Some current →
  chained dict res ∧ head res = head p ∧ res ≠ [].
Proof.
  revert p current. induction fuel as [|fuel IH]; intros p current; simpl.
  - intros [= <-] Hc Hl. split_and!; [done..|]. by destruct p.
  - case_bool_decide.
    + intros [= <-] Hc Hl. split_and!; [done..|]. by destruct p.
    + destruct (dict !! current) as [next_node|] eqn:E; [|done].
      intros Hw Hc Hl.
      destruct (IH _ _ Hw) as (Hc' & Hh & Hne).
      * by eapply chained_snoc.
      * by rewrite last_snoc.
      * split_and!; [done| |done]. rewrite Hh. by destruct p.
Qed.

Lemma edge_dict_lookup (edges : list (Z * Z)) (init : gmap Z Z) u v :
  foldl (fun d '(a, b) => <[a := b]> d) init edges !! u = Some v →
  (u, v) ∈ edges ∨ init !! u = Some v.
Proof.
  revert init. induction edges as [|[a b] edges IH]; intros init; simpl.
  - by right.
  - intros Hl. apply IH in Hl as [Hin|Hl].
    + left. apply elem_of_cons. by right.
    + destruct (decide (a = u)) as [->|Hne].
      * rewrite lookup_insert_eq in Hl. simplify_eq. left. apply elem_of_cons. by left.
      * rewrite lookup_insert_ne in Hl by done. by right.
Qed.

(** A path returned by [_edges_to_path] starts at the origin, ends at
    the destination, and each of its steps is one of the given edges. *)
Lemma edges_to_path_sound edges origin destination :
  let p := _edges_to_path edges origin destination in
  p ≠ [] →
  head p = Some origin ∧ last p = Some destination ∧
  ∀ i u v, p !! i = Some u → p !! Datatypes.S i = Some v → (u, v) ∈ edges.
Proof.
  unfold _edges_to_path. destruct edges as [|e edges]; [done|].
  set (dict := foldl _ ∅ (e :: edges)).
  destruct (walk dict destination _ [origin] origin) as [p|] eqn:Hw; [|done].
  case_bool_decide as Hlast; [|done]. intros _.
  destruct (walk_sound _ _ _ _ _ _ Hw) as (Hc & Hh & _).
  - intros i u v Hu Hv. destruct i; done.
  - done.
  - split_and!; [done..|]. intros i u v Hu Hv.
    destruct (edge_dict_lookup (e :: edges) ∅ u v (Hc i u v Hu Hv)) as [?|?]; done.
Qed.

End PathFacts.

(* ===================================================================== *)
(** * Properties of the router *)
(* ===================================================================== *)

Module RouterFacts.
Import CVaRRouter Frame.

Section Facts.
Context `{MathLib, NumpyRandom, Networkx, Pyomo}.
Local Open Scope Q_scope.

(** ** Scenario generation *)

(** The loop never raises, leaves the graph alone, and what it returns
    is determined by the generator state it starts from. *)
Lemma scenario_loop_run n s :
  ∃ scenarios g,
    scenario_loop n s = (Ok scenarios, mkState (graph s) g) ∧
    length scenarios = n ∧
    ∀ G, scenario_loop n (mkState G (np_random s)) = (Ok scenarios, mkState G g).
Proof.
  revert s. induction n as [|n IH]; intros s.
  - exists [], (np_random s). destruct s; done.
  - cbn [scenario_loop]. unfold mbind, M_bind, Call.draw. cbn [graph np_random].
    destruct (random_uniform (7 # 10) (13 # 10) (np_random s)) as [v g1].
    cbn [graph np_random].
    destruct (random_uniform (8 # 10) (12 # 10) g1) as [d g2].
    cbn [graph np_random].
    destruct (random_choice [8 # 10; 1 # 1; 12 # 10; 15 # 10] g2) as [p g3].
    destruct (IH (mkState (graph s) g3)) as (rest & g & Hrun & Hlen & Hany).
    cbn [graph np_random] in *.
    exists (mkScenario v d p :: rest), g. rewrite Hrun. split; [done|].
    split; [simpl; by rewrite Hlen|].
    intros G. by rewrite Hany.
Qed.

Lemma generate_scenarios_run self s :
  ∃ scenarios g,
    _generate_scenarios self s = (Ok scenarios, mkState (graph s) g) ∧
    length scenarios = num_scenarios self ∧
    ∀ G, _generate_scenarios self (mkState G (np_random s))
         = (Ok scenarios, mkState G g).
Proof. apply scenario_loop_run. Qed.

(** ** Calls that leave the graph as it is *)

Lemma generate_scenarios_keeps self : keeps eq (_generate_scenarios self).
Proof.
  intros s. destruct (generate_scenarios_run self s) as (sc & g & -> & _). done.
Qed.

Lemma route_or_empty_keeps self found cargo_value method :
  keeps eq (route_or_empty self found cargo_value method).
Proof.
  unfold route_or_empty. step. apply generate_scenarios_keeps.
Qed.

Lemma shortest_distance_keeps self o d : keeps eq (shortest_distance self o d).
Proof. unfold shortest_distance. step. apply route_or_empty_keeps. Qed.

Lemma shortest_time_keeps self o d : keeps eq (shortest_time self o d).
Proof. unfold shortest_time. step. apply route_or_empty_keeps. Qed.

Lemma optimize_keeps self o d c wt wr solver :
  keeps eq (optimize self o d c wt wr solver).
Proof.
  unfold optimize. step;
    first [ apply generate_scenarios_keeps | apply shortest_time_keeps ].
Qed.

(** ** [mean_risk] writes [risk_weight] and nothing else *)

Lemma assign_risk_weight_keeps c item :
  keeps (same_except ["risk_weight"]) (assign_risk_weight c item).
Proof.
  destruct item as [e data]. intros s.
  unfold assign_risk_weight, mbind, M_bind, Call.lift.
  destruct (Nx.get_num data "killzone_penalty" 1); [|reflexivity].
  destruct (Nx.get_num data "detection_base" (3 # 10)); [|reflexivity].
  simpl. apply same_except_set. set_solver.
Qed.

Lemma assign_risk_weights_keeps c :
  keeps (same_except ["risk_weight"]) (assign_risk_weights c).
Proof.
  unfold assign_risk_weights. step. apply assign_risk_weight_keeps.
Qed.

Lemma keeps_weaken {A} (R R' : relation DiGraph) (m : M A) :
  (∀ G G', R G G' → R' G G') → keeps R m → keeps R' m.
Proof. intros HR Hm s. apply HR, Hm. Qed.

Lemma eq_same_except keys G G' : G = G' → same_except keys G G'.
Proof. intros ->. reflexivity. Qed.

Lemma mean_risk_keeps self o d c :
  keeps (same_except ["risk_weight"]) (mean_risk self o d c).
Proof.
  unfold mean_risk. step; [apply assign_risk_weights_keeps|].
  eapply keeps_weaken; [apply eq_same_except | apply route_or_empty_keeps].
Qed.

End Facts.
End RouterFacts.

Module RouterSpec.
Import CVaRRouter Frame PathFacts RouterFacts.

Section Spec.
Context `{MathLib, NumpyRandom, Networkx, Pyomo}.
Local Open Scope Q_scope.

Lemma build_route_result_fields G node_path scenarios cargo_value method r :
  _build_route_result G node_path scenarios cargo_value method = Ok r →
  RouteResult.method r = method ∧ RouteResult.node_path r = node_path.
Proof.
  unfold _build_route_result. intros Hr.
  apply bind_Ok in Hr as ([[pc tt] td] & _ & Hr).
  apply bind_Ok in Hr as (wps & _ & Hr).
  apply bind_Ok in Hr as (risks & _ & Hr).
  apply bind_Ok in Hr as (c95 & _ & Hr).
  apply bind_Ok in Hr as (c99 & _ & Hr).
  by injection Hr as <-.
Qed.

Lemma route_or_empty_method self found cargo_value method s r s' :
  route_or_empty self found cargo_value method s = (Ok r, s') →
  RouteResult.method r = method.
Proof.
  unfold route_or_empty. destruct found as [node_path|[]]; try done.
  - destruct (generate_scenarios_run self s) as (sc & g & Hrun & _).
    unfold mbind at 1, M_bind at 1. rewrite Hrun.
    unfold mbind, M_bind, Call.get_graph, Call.lift. intros [= Hr _].
    by apply build_route_result_fields in Hr as [? _].
  - by intros [= <- _].
Qed.




(** C7. When there is no directed path, that is, when
    [networkx.shortest_path] raises [NetworkXNoPath], each of
    [shortest_distance], [shortest_time] and [mean_risk] (the latter after
    its loop over the edges) returns [_empty_result] tagged with its own
    name; an empty result has empty node and coordinate paths, every
    numeric field zero, and the given method tag. *)
Theorem no_path_gives_empty_result self origin destination cargo_value s :
  (shortest_path (graph s) origin destination (Nx.WAttr "distance_km")
     = Raise NetworkXNoPath →
   shortest_distance self origin destination s
     = (Ok (_empty_result "shortest_distance"), s)) ∧
  (shortest_path (graph s) origin destination (Nx.WAttr "travel_time_hours")
     = Raise NetworkXNoPath →
   shortest_time self origin destination s
     = (Ok (_empty_result "shortest_time"), s)) ∧
  (∀ s', assign_risk_weights cargo_value s = (Ok tt, s') →
         shortest_path (graph s') origin destination (Nx.WAttr "risk_weight")
           = Raise NetworkXNoPath →
         mean_risk self origin destination cargo_value s
           = (Ok (_empty_result "mean_risk"), s')) ∧
  ∀ method,
    let r := _empty_result method in
    RouteResult.node_path r = [] ∧ RouteResult.path r = [] ∧
    RouteResult.waypoints r = [] ∧
    RouteResult.time_minutes r = 0 ∧ RouteResult.distance_km r = 0 ∧
    RouteResult.mean_risk r = 0 ∧ RouteResult.cvar_95 r = 0 ∧
    RouteResult.cvar_99 r = 0 ∧ RouteResult.survival_probability r = 0 ∧
    RouteResult.method r = method.
Proof.
  split_and!.
  - intros Hno. unfold shortest_distance, mbind, M_bind. cbn [Call.get_graph].
    by rewrite Hno.
  - intros Hno. unfold shortest_time, mbind, M_bind. cbn [Call.get_graph].
    by rewrite Hno.
  - intros s' Hloop Hno. unfold mean_risk, mbind, M_bind. rewrite Hloop.
    cbn [Call.get_graph]. by rewrite Hno.
  - done.
Qed.

(** C5. The seed a caller supplies ([np.random.seed]) fixes the state
    of NumPy's global generator, from which [_generate_scenarios] draws.
    Started from equal generator states, whatever the graphs, two runs
    return the same list of [num_scenarios] scenarios and leave equal
    generator states; on the same graph as well, two solves by
    [optimize] with the same parameters return the same result and
    leave the same state. *)
Theorem scenarios_determined_by_generator_state self s1 s2 :
  np_random s1 = np_random s2 →
  (_generate_scenarios self s1).1 = (_generate_scenarios self s2).1 ∧
  np_random (_generate_scenarios self s1).2
  = np_random (_generate_scenarios self s2).2 ∧
  (∃ scenarios, (_generate_scenarios self s1).1 = Ok scenarios ∧
                length scenarios = num_scenarios self) ∧
  (graph s1 = graph s2 →
   ∀ origin destination cargo_value weight_time weight_risk solver,
     optimize self origin destination cargo_value weight_time weight_risk solver s1
     = optimize self origin destination cargo_value weight_time weight_risk solver
         s2).
Proof.
  intros Hg.
  destruct (generate_scenarios_run self s1) as (sc & g & Hrun & Hlen & Hany).
  specialize (Hany (graph s2)). rewrite Hg in Hany.
  destruct s1 as [G1 g1], s2 as [G2 g2]; cbn [graph np_random] in *.
  rewrite Hrun, Hany. cbn. split_and!; [done|done|eauto|].
  intros HG. by subst.
Qed.

End Spec.
End RouterSpec.

(* ===================================================================== *)
(** * The router on concrete inputs *)
(* ===================================================================== *)

Module RouterRuns.
Import CVaRRouter Frame RouterFacts RouterSpec Sample.
#[local] Existing Instances taylor_exp lcg search no_solver.
Local Open Scope Q_scope.


Lemma no_path_gives_empty_result_witness :
  shortest_distance router 0 3 (start cut_graph)
  = (Ok (_empty_result "shortest_distance"), start cut_graph).
Proof.
  apply (proj1 (no_path_gives_empty_result router 0 3 7 (start cut_graph))).
  vm_compute. reflexivity.
Defined.

Lemma scenarios_determined_by_generator_state_witness :
  (_generate_scenarios router (start simple_graph)).1
  = (_generate_scenarios router (start cut_graph)).1.
Proof.
  apply (scenarios_determined_by_generator_state router
           (start simple_graph) (start cut_graph)).
  reflexivity.
Defined.

(** Without a new seed the second of two consecutive runs starts from
    the generator state the first one left: on the test generator the
    two scenario lists differ. *)
Example consecutive_runs_differ :
  let s := start simple_graph in
  let s' := (_generate_scenarios router s).2 in
  graph s' = graph s ∧
  (_generate_scenarios router s').1 ≠ (_generate_scenarios router s).1.
Proof. split; [reflexivity|]. vm_compute. discriminate. Qed.

(** [optimize] with a solver that returns the given values for the
    variables of the edges [(0,2); (0,1); (1,2); (2,3)]. *)
Definition optimize_with (values : list (option Q)) : Res RouteResult.t :=
  (@optimize taylor_exp lcg search (fixed_solver values) router 0 3 7
     (1 # 2) (1 # 2) "cbc" (start simple_graph)).1.

Definition method_and_path (r : Res RouteResult.t) : Res (string * list Z) :=
  r ← r; mret (RouteResult.method r, RouteResult.node_path r).

(** The selected edges form the route 0-1-2-3. *)
Example optimize_reconstructs_route :
  method_and_path (optimize_with [Some 0; Some 1; Some 1; Some 1])
  = Ok ("cvar", [0; 1; 2; 3]%Z).
Proof. vm_compute. reflexivity. Qed.

(** The selected edges (0,1) and (2,3) do not connect: the walk stops at
    node 1 and the fastest route is returned instead. *)
Example optimize_disconnected_selection :
  method_and_path (optimize_with [Some 0; Some 1; Some 0; Some 1])
  = Ok ("shortest_time", [0; 1; 2; 3]%Z).
Proof. vm_compute. reflexivity. Qed.

(** A solve that returns without values for the variables is not caught. *)
Example optimize_without_values :
  optimize_with [None; None; None; None] = Raise ValueError.
Proof. vm_compute. reflexivity. Qed.

End RouterRuns.


(* ===================================================================== *)
(** * Waypoint arrival times *)
(* ===================================================================== *)

Module WaypointEta.
Import CVaRRouter Sample.
Local Open Scope Q_scope.

(** The arrival time the specification asks for: the travel time summed
    over the edges from the origin up to position [i] of the node path. *)
Definition cumulative_eta (G : DiGraph) (node_path : list Z) (i : nat) : Res Q :=
  Loop.fold (fun t '(u, v) =>
               if Nx.has_edge G u v then
                 data ← Nx.edge_data G (u, v);
                 dt ← Nx.get_num data "travel_time_hours" 0;
                 mret (t + dt)
               else mret t)
            0 (take i (steps node_path)).

Section Eta.
Context `{MathLib}.

Lemma waypoint_step_eta G n interval total_time waypoints item waypoints' :
  Forall (fun w => Waypoint.eta_hours w = total_time) waypoints →
  waypoint_step G n interval total_time waypoints item = Ok waypoints' →
  Forall (fun w => Waypoint.eta_hours w = total_time) waypoints'.
Proof.
  intros Hall. unfold waypoint_step. destruct item as [i node].
  case_match; [|by intros [= <-]].
  intros Hw. apply bind_Ok in Hw as ([lat lon] & _ & [= <-]).
  apply Forall_app. split; [done|]. by repeat constructor.
Qed.

Lemma waypoint_loop_eta G n interval total_time items waypoints waypoints' :
  Forall (fun w => Waypoint.eta_hours w = total_time) waypoints →
  Loop.fold (waypoint_step G n interval total_time) waypoints items = Ok waypoints' →
  Forall (fun w => Waypoint.eta_hours w = total_time) waypoints'.
Proof.
  revert waypoints. induction items as [|item items IH]; intros waypoints Hall; simpl.
  - by intros [= <-].
  - intros Hf. apply bind_Ok in Hf as (acc & Hstep & Hrest).
    eapply IH; [|exact Hrest]. by eapply waypoint_step_eta.
Qed.

(** Every waypoint of a built result carries the same [eta_hours]: the
    travel time of the whole route. *)
Lemma build_route_result_eta G node_path scenarios cargo_value method r :
  _build_route_result G node_path scenarios cargo_value method = Ok r →
  Forall (fun w => (Waypoint.eta_hours w * 60 = RouteResult.time_minutes r)%Q)
         (RouteResult.waypoints r).
Proof.
  unfold _build_route_result. intros Hr.
  apply bind_Ok in Hr as ([[pc total_time] td] & _ & Hr).
  apply bind_Ok in Hr as (wps & Hw & Hr).
  apply bind_Ok in Hr as (risks & _ & Hr).
  apply bind_Ok in Hr as (c95 & _ & Hr).
  apply bind_Ok in Hr as (c99 & _ & Hr).
  injection Hr as <-. cbn [RouteResult.waypoints RouteResult.time_minutes].
  eapply Forall_impl; [eapply waypoint_loop_eta; [|exact Hw]; constructor|].
  by intros w ->.
Qed.

End Eta.

#[local] Existing Instance taylor_exp.

(** C4 on the graph of [tests/test_routing.py], route 0-1-2-3 with edge
    times 0.10 h, 0.12 h and 0.08 h. The waypoints are the four nodes,
    first and last included, but each of them carries [eta_hours] 0.30,
    the time of the whole route: the origin, reached at time 0, and the
    nodes reached after 0.10 h and 0.22 h all show 0.30 h. *)
Theorem waypoint_eta_is_route_time :
  ∃ r,
    _build_route_result simple_graph [0; 1; 2; 3]%Z [mkScenario 1 1 1] 7
      "shortest_time" = Ok r ∧
    List.map Waypoint.name (RouteResult.waypoints r)
    = ["Origin"; "Waypoint 1"; "Waypoint 2"; "Destination"] ∧
    Forall (fun w => Waypoint.eta_hours w == 3 # 10) (RouteResult.waypoints r) ∧
    Forall2 (fun i eta => ∃ t, cumulative_eta simple_graph [0; 1; 2; 3]%Z i = Ok t
                               ∧ t == eta)
            [0; 1; 2; 3]%nat [0; 1 # 10; 22 # 100; 3 # 10].
Proof.
  eexists. split; [reflexivity|]. split; [reflexivity|]. split.
  - repeat constructor.
  - repeat constructor; eexists; (split; [reflexivity|done]).
Qed.

End WaypointEta.

(* ===================================================================== *)
(** * What route generation changes in the graph *)
(* ===================================================================== *)

Module StackelbergFacts.
Import CVaRRouter StackelbergRouter Frame RouterFacts.

Section Facts.
Context `{MathLib, NumpyRandom, Networkx, Pyomo, Nashpy}.
Local Open Scope Q_scope.

(** The keys that route generation writes. *)
Definition scratch_keys : list string := ["risk_weight"; "temp_penalty"].

Lemma same_except_mono keys keys' G G' :
  keys ⊆ keys' → same_except keys G G' → same_except keys' G G'.
Proof.
  intros Hsub [Hn He]. split; [done|]. intros e. specialize (He e).
  destruct He as [d d' Hd|]; constructor.
  intros k Hk. apply Hd. intros Hin. apply Hk. by apply Hsub.
Qed.

Lemma add_penalty_keeps e : keeps (same_except scratch_keys) (add_penalty e).
Proof.
  intros s. unfold add_penalty, mbind, M_bind. cbn [Call.get_graph].
  destruct (Nx.has_edge (graph s) e.1 e.2); [|reflexivity].
  simpl. apply same_except_set. unfold scratch_keys. set_solver.
Qed.

Lemma remove_penalty_keeps e : keeps (same_except scratch_keys) (remove_penalty e).
Proof.
  intros s. unfold remove_penalty, mbind, M_bind. cbn [Call.get_graph].
  destruct (edges (graph s) !! e) as [data|]; [|reflexivity].
  case_bool_decide; [|reflexivity].
  simpl. apply same_except_del. unfold scratch_keys. set_solver.
Qed.

Lemma keeps_unchanged {A} keys (m : M A) : keeps eq m → keeps (same_except keys) m.
Proof. apply keeps_weaken. intros G G' ->. reflexivity. Qed.

Lemma diverse_attempt_keeps self o d c routes :
  keeps (same_except scratch_keys) (diverse_attempt self o d c routes).
Proof.
  unfold diverse_attempt. step;
    first [ apply add_penalty_keeps | apply remove_penalty_keeps
          | apply keeps_unchanged, generate_scenarios_keeps ].
Qed.

Lemma diverse_loop_keeps self o d c k fuel routes :
  keeps (same_except scratch_keys) (diverse_loop self o d c k fuel routes).
Proof.
  revert routes. induction fuel as [|fuel IH]; intros routes; cbn [diverse_loop].
  - apply keeps_ret; apply _.
  - destruct (length routes <? k)%nat; [|apply keeps_ret; apply _].
    apply keeps_bind; [apply _| |].
    + apply keeps_try_except; [apply _|apply diverse_attempt_keeps|].
      intros e. apply keeps_ret; apply _.
    + intros [r|]; [apply IH | apply keeps_ret; apply _].
Qed.

Lemma generate_k_routes_keeps self o d c k :
  keeps (same_except scratch_keys) (_generate_k_routes self o d c k).
Proof.
  unfold _generate_k_routes. step.
  - apply keeps_unchanged, optimize_keeps.
  - apply keeps_unchanged, shortest_time_keeps.
  - apply keeps_unchanged, shortest_distance_keeps.
  - eapply keeps_weaken; [|apply mean_risk_keeps].
    intros G G'. apply same_except_mono. intros key Hkey.
    apply list_elem_of_singleton in Hkey as ->. apply elem_of_cons. by left.
  - apply diverse_loop_keeps.
Qed.

(** ** The penalties of one round *)

Definition penalise (d : gmap string attr) : gmap string attr :=
  <["temp_penalty" := Num 100]> d.

Definition unpenalise (d : gmap string attr) : gmap string attr :=
  delete "temp_penalty" d.

Lemma add_penalties_run l s :
  ∃ G', Call.for_each l add_penalty s = (Ok tt, mkState G' (np_random s)) ∧
        nodes G' = nodes (graph s) ∧
        ∀ e, edges G' !! e
             = if bool_decide (e ∈ l) then penalise <$> edges (graph s) !! e
               else edges (graph s) !! e.
Proof.
  revert s. induction l as [|e0 l IH]; intros s.
  - exists (graph s). destruct s. split_and!; [done..|].
    intros e. rewrite bool_decide_eq_false_2; [done|apply not_elem_of_nil].
  - cbn [Call.for_each]. unfold mbind at 1, M_bind at 1.
    set (s0 := (add_penalty e0 s).2).
    assert (Hs0 : add_penalty e0 s = (Ok tt, s0) ∧ np_random s0 = np_random s ∧
                  nodes (graph s0) = nodes (graph s) ∧
                  ∀ e, edges (graph s0) !! e
                       = if bool_decide (e = e0) then penalise <$> edges (graph s) !! e
                         else edges (graph s) !! e).
    { subst s0. unfold add_penalty, mbind, M_bind, Nx.has_edge.
      cbn [Call.get_graph]. destruct e0 as [u v]. cbn [fst snd].
      case_bool_decide as Hedge; cbn.
      - split_and!; [done..|]. intros e. case_bool_decide as He.
        + subst e. by rewrite lookup_alter_eq.
        + by rewrite lookup_alter_ne.
      - split_and!; [by destruct s|done..|]. intros e. case_bool_decide as He; [|done].
        subst e. destruct (edges (graph s) !! (u, v)) eqn:E; [|done].
        exfalso. apply Hedge. by eexists. }
    destruct Hs0 as (-> & Hg & Hn & He0).
    destruct (IH s0) as (G' & -> & Hn' & He'). rewrite Hg.
    exists G'. split_and!; [done|congruence|].
    intros e. rewrite He', He0.
    destruct (decide (e = e0)) as [->|Hne].
    + rewrite (bool_decide_eq_true_2 (e0 = e0)) by done.
      rewrite (bool_decide_eq_true_2 (e0 ∈ e0 :: l)) by (apply elem_of_cons; by left).
      case_bool_decide; [|done].
      destruct (edges (graph s) !! e0); [|done]. cbn. f_equal.
      unfold penalise. by rewrite insert_insert_eq.
    + rewrite (bool_decide_eq_false_2 (e = e0)) by done.
      rewrite (bool_decide_ext (e ∈ e0 :: l) (e ∈ l)); [done|].
      rewrite elem_of_cons. split; [by intros [?|?] | by right].
Qed.

Lemma remove_penalties_run l s :
  ∃ G', Call.for_each l remove_penalty s = (Ok tt, mkState G' (np_random s)) ∧
        nodes G' = nodes (graph s) ∧
        ∀ e, edges G' !! e
             = if bool_decide (e ∈ l) then unpenalise <$> edges (graph s) !! e
               else edges (graph s) !! e.
Proof.
  revert s. induction l as [|e0 l IH]; intros s.
  - exists (graph s). destruct s. split_and!; [done..|].
    intros e. rewrite bool_decide_eq_false_2; [done|apply not_elem_of_nil].
  - cbn [Call.for_each]. unfold mbind at 1, M_bind at 1.
    set (s0 := (remove_penalty e0 s).2).
    assert (Hs0 : remove_penalty e0 s = (Ok tt, s0) ∧ np_random s0 = np_random s ∧
                  nodes (graph s0) = nodes (graph s) ∧
                  ∀ e, edges (graph s0) !! e
                       = if bool_decide (e = e0) then unpenalise <$> edges (graph s) !! e
                         else edges (graph s) !! e).
    { subst s0. unfold remove_penalty, mbind, M_bind. cbn [Call.get_graph].
      destruct (edges (graph s) !! e0) as [data|] eqn:E.
      - case_bool_decide as Hkey; cbn.
        + split_and!; [done..|]. intros e. case_bool_decide as He.
          * subst e. by rewrite lookup_alter_eq.
          * by rewrite lookup_alter_ne.
        + split_and!; [by destruct s|done..|]. intros e. case_bool_decide as He; [|done].
          subst e. rewrite E. cbn. f_equal. unfold unpenalise.
          symmetry. apply delete_id.
          destruct (data !! "temp_penalty") eqn:E'; [|done].
          exfalso. apply Hkey. by eexists.
      - cbn. split_and!; [by destruct s|done..|]. intros e.
        case_bool_decide as He; [|done]. subst e. by rewrite E. }
    destruct Hs0 as (-> & Hg & Hn & He0).
    destruct (IH s0) as (G' & -> & Hn' & He'). rewrite Hg.
    exists G'. split_and!; [done|congruence|].
    intros e. rewrite He', He0.
    destruct (decide (e = e0)) as [->|Hne].
    + rewrite (bool_decide_eq_true_2 (e0 = e0)) by done.
      rewrite (bool_decide_eq_true_2 (e0 ∈ e0 :: l)) by (apply elem_of_cons; by left).
      case_bool_decide; [|done].
      destruct (edges (graph s) !! e0); [|done]. cbn. f_equal.
      unfold unpenalise. by rewrite delete_delete_eq.
    + rewrite (bool_decide_eq_false_2 (e = e0)) by done.
      rewrite (bool_decide_ext (e ∈ e0 :: l) (e ∈ l)); [done|].
      rewrite elem_of_cons. split; [by intros [?|?] | by right].
Qed.

(** No edge carries a ["temp_penalty"] attribute. *)
Definition no_penalty (G : DiGraph) : Prop :=
  map_Forall (fun _ data => data !! "temp_penalty" = None) (edges G).

(** A round whose penalised search returns a path leaves the graph as
    it found it, whatever happens afterwards in the round. *)
Lemma diverse_attempt_restores self o d c routes s node_path :
  no_penalty (graph s) →
  shortest_path
    (graph (Call.for_each (elements (penalty_edges routes)) add_penalty s).2)
    o d penalised_time = Ok node_path →
  graph (diverse_attempt self o d c routes s).2 = graph s.
Proof.
  intros Hno Hsp. unfold diverse_attempt.
  set (l := elements (penalty_edges routes)) in *.
  destruct (add_penalties_run l s) as (G1 & Hadd & Hn1 & He1).
  rewrite Hadd in Hsp. cbn [snd graph] in Hsp.
  unfold mbind at 1, M_bind at 1. rewrite Hadd.
  unfold mbind at 1, M_bind at 1. cbn [Call.get_graph graph].
  unfold mbind at 1, M_bind at 1, Call.lift at 1. rewrite Hsp.
  destruct (remove_penalties_run l (mkState G1 (np_random s)))
    as (G2 & Hrem & Hn2 & He2).
  cbn [graph np_random] in *.
  unfold mbind at 1, M_bind at 1. rewrite Hrem.
  assert (HG : G2 = graph s).
  { destruct G2 as [n2 e2], (graph s) as [n0 e0] eqn:E0. cbn in *.
    f_equal; [congruence|]. apply map_eq. intros e.
    rewrite He2, He1. case_bool_decide; [|done].
    destruct (e0 !! e) as [data|] eqn:E; [|done]. cbn. f_equal.
    unfold unpenalise, penalise. apply delete_insert_id.
    by apply (Hno e). }
  match goal with
  | |- graph (?m ?s').2 = _ =>
      assert (keeps eq m) as Hk by (step; apply generate_scenarios_keeps);
      specialize (Hk s')
  end.
  cbn [graph] in Hk. by rewrite <- Hk.
Qed.

(** The loop never stops for lack of fuel: with at least
    [k - len(routes)] rounds allowed, allowing more changes nothing. *)
Lemma diverse_loop_fuel self o d c k fuel extra routes s :
  (k - length routes ≤ fuel)%nat →
  diverse_loop self o d c k (fuel + extra) routes s
  = diverse_loop self o d c k fuel routes s.
Proof.
  revert routes s. induction fuel as [|fuel IH]; intros routes s Hfuel.
  - destruct extra as [|extra]; [done|]. cbn [Nat.add diverse_loop].
    destruct (Nat.ltb_spec (length routes) k); [lia|done].
  - cbn [Nat.add diverse_loop].
    destruct (Nat.ltb_spec (length routes) k); [|done].
    unfold mbind, M_bind.
    destruct (Call.try_except _ _ s) as [[[r|]|e] s']; [|done..].
    apply IH. rewrite length_app. simpl. lia.
Qed.

End Facts.
End StackelbergFacts.


(* ===================================================================== *)
(** * Equilibria of a bimatrix game *)
(* ===================================================================== *)

Module Game.
Local Open Scope Q_scope.

Definition dot (x y : list Q) : Q := Py.sum (zip_with Qmult x y).

(** Column [j] of a matrix given by its rows. *)
Definition column (B : list (list Q)) (j : nat) : list Q :=
  List.map (fun row => default 0 (row !! j)) B.

(** Number of columns. *)
Definition width (A : list (list Q)) : nat := length (default [] (head A)).

(** Payoff of each pure row against the column strategy [y]. *)
Definition row_payoffs (A : list (list Q)) (y : list Q) : list Q :=
  List.map (fun row => dot row y) A.

(** Payoff of the strategy pair [(x, y)] under [A]. *)
Definition expected (A : list (list Q)) (x y : list Q) : Q :=
  dot x (row_payoffs A y).

(** A probability vector of length [n]. *)
Definition is_distribution (n : nat) (x : list Q) : bool :=
  Nat.eqb (length x) n && forallb (Qle_bool 0) x && Qeq_bool (Py.sum x) 1.

(** [(x, y)] is a Nash equilibrium of the game [(A, B)]: both are
    probability vectors, no pure row does better than [x] against [y]
    under [A], and no pure column does better than [y] against [x]
    under [B]. *)
Definition is_equilibrium (A B : list (list Q)) (e : list Q * list Q) : bool :=
  let '(x, y) := e in
  is_distribution (length A) x && is_distribution (width A) y &&
  forallb (fun v => Qle_bool v (expected A x y)) (row_payoffs A y) &&
  forallb (fun j => Qle_bool (dot x (column B j)) (expected B x y))
          (seq 0 (width A)).

(** The pure strategy [i] among [n]. *)
Definition pure (n i : nat) : list Q :=
  List.map (fun k => if Nat.eqb k i then 1 else 0) (seq 0 n).

(** The first stage of support enumeration: the pairs of pure
    strategies, rows outermost, that are equilibria. *)
Definition pure_equilibria (A B : list (list Q)) : list (list Q * list Q) :=
  List.filter (is_equilibrium A B)
    (i ← seq 0 (length A); j ← seq 0 (width A); [(pure (length A) i, pure (width A) j)]).

(** An enumeration that stops after the pure stage. *)
Definition pure_stage : Nashpy := {| support_enumeration := pure_equilibria |}.

(** An enumeration that finds nothing. *)
Definition no_equilibria : Nashpy := {| support_enumeration _ _ := [] |}.

(** [np.ones(K) / K] *)
Definition uniform (K : nat) : list Q := replicate K (1 / inject_Z (Z.of_nat K)).

(** Every entry of the matrix is the same number. *)
Definition all_equal (A : list (list Q)) : Prop :=
  ∃ c, Forall (Forall (fun a => a == c)) A.

(** Component-wise distance at most [eps]. *)
Definition within (eps : Q) (x y : list Q) : Prop :=
  Forall2 (fun a b => Qabs (a - b) <= eps) x y.

End Game.

(* ===================================================================== *)
(** * Properties of route randomisation *)
(* ===================================================================== *)

Module StackelbergSpec.
Import CVaRRouter StackelbergRouter Frame RouterFacts StackelbergFacts Game.
Local Open Scope Q_scope.

Section Spec.
Context `{MathLib, NumpyRandom, Networkx, Pyomo, Nashpy}.

(** C6, as the code has it. On every exit path, normal or exceptional:
    [shortest_distance], [shortest_time] and [optimize] leave the graph
    unchanged; [mean_risk] changes no node, no edge set and no edge
    attribute other than ["risk_weight"]; the route-portfolio generation
    changes nothing other than ["risk_weight"] and ["temp_penalty"]; and
    in a round of its loop that starts without penalties and whose
    penalised search returns a path, the penalties are removed again:
    the graph after the round is the graph before it. *)
Theorem solvers_frame self origin destination cargo_value weight_time
    weight_risk solver k s :
  graph (shortest_distance self origin destination s).2 = graph s ∧
  graph (shortest_time self origin destination s).2 = graph s ∧
  graph (optimize self origin destination cargo_value weight_time weight_risk
           solver s).2 = graph s ∧
  same_except ["risk_weight"] (graph s)
    (graph (mean_risk self origin destination cargo_value s).2) ∧
  same_except ["risk_weight"; "temp_penalty"] (graph s)
    (graph (_generate_k_routes self origin destination cargo_value k s).2) ∧
  ∀ routes node_path,
    no_penalty (graph s) →
    shortest_path
      (graph (Call.for_each (elements (penalty_edges routes)) add_penalty s).2)
      origin destination penalised_time = Ok node_path →
    graph (diverse_attempt self origin destination cargo_value routes s).2
    = graph s.
Proof.
  split_and!.
  - symmetry. apply shortest_distance_keeps.
  - symmetry. apply shortest_time_keeps.
  - symmetry. apply optimize_keeps.
  - apply mean_risk_keeps.
  - apply generate_k_routes_keeps.
  - intros routes node_path. apply diverse_attempt_restores.
Qed.

(** C8, as the code has it. With one route the strategy is [[1.0]]
    (which is the uniform distribution over one route); with several
    routes it is the uniform distribution when support enumeration lists
    no equilibrium, and otherwise the attacker strategy of the first
    equilibrium listed, whatever the payoff matrix. *)
Theorem solve_zero_sum_game_cases (payoff_matrix : list (list Q)) :
  let K := length payoff_matrix in
  let equilibria :=
    support_enumeration payoff_matrix (List.map (List.map Qopp) payoff_matrix) in
  (K = 1%nat → _solve_zero_sum_game payoff_matrix = [1] ∧
               within 0 (_solve_zero_sum_game payoff_matrix) (uniform K)) ∧
  (K ≠ 1%nat → equilibria = [] →
   _solve_zero_sum_game payoff_matrix = uniform K) ∧
  (K ≠ 1%nat → ∀ attacker defender rest,
     equilibria = (attacker, defender) :: rest →
     _solve_zero_sum_game payoff_matrix = attacker).
Proof.
  intros K equilibria. unfold _solve_zero_sum_game. fold K. fold equilibria.
  split_and!.
  - intros ->. split; [done|]. repeat constructor. done.
  - intros HK ->. destruct (Nat.eqb_spec K 1); done.
  - intros HK attacker defender rest ->. destruct (Nat.eqb_spec K 1); done.
Qed.

End Spec.

(** Whatever the enumeration does, its pure stage lists equilibria only. *)
Lemma pure_stage_sound A B e :
  e ∈ pure_equilibria A B → is_equilibrium A B e = true.
Proof.
  unfold pure_equilibria. intros He.
  by apply list_elem_of_In, filter_In in He as [_ He].
Qed.

(** C8, as stated, fails in its last part. In the game whose four
    payoffs all equal -1/2 every strategy pair is an equilibrium. An
    enumeration that lists equilibria only, and lists the pure pair of
    first rows first, makes [_solve_zero_sum_game] return [[1; 0]], at
    distance 1/2 from the uniform [[1/2; 1/2]]. *)
Lemma uniform_payoff_strategy_not_uniform :
  ¬ (∀ N : Nashpy,
       (∀ A B e, e ∈ support_enumeration A B → is_equilibrium A B e = true) →
       ∀ A, all_equal A →
            within (1 # 1000000) (_solve_zero_sum_game A) (uniform (length A))).
Proof.
  intros Hclaim.
  specialize (Hclaim pure_stage pure_stage_sound
                [[-1 # 2; -1 # 2]; [-1 # 2; -1 # 2]]).
  assert (Hall : all_equal [[-1 # 2; -1 # 2]; [-1 # 2; -1 # 2]]).
  { exists (-1 # 2). repeat constructor. }
  specialize (Hclaim Hall). vm_compute in Hclaim.
  inversion Hclaim as [|a b x y Hab _]. by apply Hab.
Qed.

End StackelbergSpec.

(* ===================================================================== *)
(** * Route randomisation on concrete inputs *)
(* ===================================================================== *)

Module StackelbergRuns.
Import CVaRRouter StackelbergRouter Frame StackelbergFacts StackelbergSpec Game Sample.
#[local] Existing Instances taylor_exp lcg search no_solver pure_stage.
Local Open Scope Q_scope.

(** The fastest route of the test graph, as found so far. *)
Definition found_route : RouteResult.t :=
  RouteResult.mk [] [0; 1; 2; 3]%Z 18 15 (3 # 10) (1 # 2) (6 # 10) []
    "shortest_time" (95 # 100).

Lemma solvers_frame_witness :
  graph (diverse_attempt router 0 3 7 [found_route] (start simple_graph)).2
  = graph (start simple_graph).
Proof.
  pose proof (solvers_frame router 0 3 7 (1 # 2) (1 # 2) "glpk" 5
                (start simple_graph)) as (_ & _ & _ & _ & _ & Hround).
  apply (Hround [found_route] [0; 2; 3]%Z).
  - unfold no_penalty. apply (bool_decide_unpack _). vm_compute. exact I.
  - vm_compute. reflexivity.
Defined.

(** With the penalties in place the search leaves the fastest route for
    the detour over the edge (0, 2), and appends it. *)
Example diverse_attempt_detour :
  match (diverse_attempt router 0 3 7 [found_route] (start simple_graph)).1 with
  | Ok (Some r) =>
      RouteResult.node_path r = [0; 2; 3]%Z ∧ RouteResult.method r = "diverse_2"
  | _ => False
  end.
Proof. vm_compute. split; reflexivity. Qed.

(** C6, as stated, fails: after [mean_risk] on the test graph the edge
    (0, 1) carries the attribute ["risk_weight"] (0.2 * 7 / 10 * 1), which
    it did not carry before the call, and nothing removes it. *)
Lemma mean_risk_writes_graph :
  let s := start simple_graph in
  let s' := (mean_risk router 0 3 7 s).2 in
  edges (graph s) !! (0, 1)%Z ≫= (.!! "risk_weight") = None ∧
  (∃ q, edges (graph s') !! (0, 1)%Z ≫= (.!! "risk_weight") = Some (Num q)
        ∧ q == 14 # 100) ∧
  graph s' ≠ graph s.
Proof.
  intros s s'.
  assert (H1 : edges (graph s) !! (0, 1)%Z ≫= (.!! "risk_weight") = None)
    by (vm_compute; reflexivity).
  assert (H2 : ∃ q, edges (graph s') !! (0, 1)%Z ≫= (.!! "risk_weight")
                    = Some (Num q) ∧ q == 14 # 100)
    by (eexists; split; [vm_compute; reflexivity|reflexivity]).
  split; [done|]. split; [done|].
  intros Heq. destruct H2 as (q & H2 & _). rewrite Heq in H2. congruence.
Qed.

Lemma solve_zero_sum_game_cases_witness :
  _solve_zero_sum_game [[-1 # 2; -3 # 10; -1 # 1]] = [1].
Proof.
  pose proof (solve_zero_sum_game_cases [[-1 # 2; -3 # 10; -1 # 1]])
    as [Hone _].
  apply Hone. reflexivity.
Defined.

(** Matching pennies has no pure equilibrium: the pure stage lists
    nothing and the strategy is the uniform default. *)
Example no_equilibrium_gives_uniform :
  _solve_zero_sum_game [[1; -1 # 1]; [-1 # 1; 1]] = uniform 2.
Proof. reflexivity. Qed.

End StackelbergRuns.

(* ===================================================================== *)
(** * Kill-zone penalty ([decision/graph_builder.py]) *)
(* ===================================================================== *)

Module GraphBuilder.
Local Open Scope R_scope.

(** A kill zone dictionary, with the two keys the penalty reads. *)
Record KillZone := mkKillZone {
  center : R * R;
  radius_km : R
}.

(** [max(a, b)]: the first argument unless the second is greater. *)
Definition py_max (a b : R) : R := if Rlt_dec a b then b else a.

(** The body of the loop: the penalty of one zone at distance
    [distance_km] from its centre. *)
Definition zone_penalty (distance_km radius_km : R) : R :=
  if Rlt_dec distance_km radius_km then 1000
  else if Rlt_dec distance_km (radius_km * (3 / 2)) then
    let proximity := 1 - (distance_km - radius_km) / (radius_km * (1 / 2)) in
    50 * exp (3 * proximity)
  else if Rlt_dec distance_km (radius_km * 2) then 10
  else 1.

Section Penalty.
(** [utils/geo.haversine_distance], which returns geopy's geodesic
    distance in kilometres. *)
Variable haversine_distance : R → R → R → R → R.

Definition penalty_at (lat lon : R) (kz : KillZone) : R :=
  let '(center_lat, center_lon) := center kz in
  zone_penalty (haversine_distance lat lon center_lat center_lon) (radius_km kz).

Definition _compute_killzone_penalty (lat lon : R)
    (kill_zones : option (list KillZone)) : R :=
  match kill_zones with
  | None | Some [] => 1
  | Some zones =>
      fold_left (fun min_penalty kz => py_max min_penalty (penalty_at lat lon kz))
                zones 1
  end.

End Penalty.
End GraphBuilder.

Module KillzoneFacts.
Import Lra GraphBuilder.
Local Open Scope R_scope.

Lemma py_max_cases a b : (py_max a b = a ∧ b <= a) ∨ (py_max a b = b ∧ a < b).
Proof. unfold py_max. destruct (Rlt_dec a b); [right|left]; split; lra. Qed.

(** The running maximum of the loop: it is the start value or one of the
    penalties seen, and bounds both. *)
Lemma running_max (f : KillZone → R) zones acc :
  let m := fold_left (fun p kz => py_max p (f kz)) zones acc in
  (m = acc ∨ m ∈ List.map f zones) ∧ acc <= m ∧
  Forall (fun q => q <= m) (List.map f zones).
Proof.
  revert acc. induction zones as [|kz zones IH]; intros acc; simpl.
  - split; [by left|]. split; [lra|constructor].
  - destruct (IH (py_max acc (f kz))) as (Hin & Hge & Hall).
    destruct (py_max_cases acc (f kz)) as [[E Hle]|[E Hlt]]; rewrite E in *.
    + split; [|split; [done|constructor; [lra|done]]].
      destruct Hin as [->|Hin]; [by left|right]. apply elem_of_cons. by right.
    + split; [|split; [lra|constructor; [lra|done]]].
      right. apply elem_of_cons. destruct Hin as [->|Hin]; [by left|by right].
Qed.

Lemma band_inside d r : d < r → zone_penalty d r = 1000.
Proof. intros Hd. unfold zone_penalty. destruct (Rlt_dec d r); [done|lra]. Qed.

Lemma band_near d r :
  r <= d → d < r * (3 / 2) →
  zone_penalty d r = 50 * exp (3 * (1 - (d - r) / (r * (1 / 2)))).
Proof.
  intros H1 H2. unfold zone_penalty.
  destruct (Rlt_dec d r); [lra|]. destruct (Rlt_dec d (r * (3 / 2))); [done|lra].
Qed.

Lemma band_buffer d r : r * (3 / 2) <= d → d < r * 2 → zone_penalty d r = 10.
Proof.
  intros H1 H2. unfold zone_penalty.
  destruct (Rlt_dec d r); [lra|]. destruct (Rlt_dec d (r * (3 / 2))); [lra|].
  destruct (Rlt_dec d (r * 2)); [done|lra].
Qed.

Lemma band_far d r : r <= d → r * 2 <= d → zone_penalty d r = 1.
Proof.
  intros H0 H1. unfold zone_penalty.
  destruct (Rlt_dec d r); [lra|]. destruct (Rlt_dec d (r * (3 / 2))); [lra|].
  destruct (Rlt_dec d (r * 2)); [lra|done].
Qed.

(** Within the near band the scaled excess distance is below 1. *)
Lemma near_excess d r :
  r <= d → d < r * (3 / 2) → 0 < r ∧ (d - r) / (r * (1 / 2)) < 1.
Proof.
  intros H1 H2. assert (Hr : 0 < r) by lra. split; [done|].
  apply (Rmult_lt_reg_r (r * (1 / 2))); [lra|].
  unfold Rdiv at 1. rewrite Rmult_assoc, Rinv_l by lra. lra.
Qed.

Lemma near_decreasing d d' r :
  r <= d → d < d' → d' < r * (3 / 2) → zone_penalty d' r < zone_penalty d r.
Proof.
  intros H1 H2 H3. rewrite !band_near by lra.
  assert (Hr : 0 < r) by lra.
  apply Rmult_lt_compat_l; [lra|]. apply exp_increasing.
  apply Rmult_lt_compat_l; [lra|].
  apply Rplus_lt_compat_l, Ropp_lt_contravar.
  unfold Rdiv. apply Rmult_lt_compat_r; [|lra].
  apply Rinv_0_lt_compat. lra.
Qed.

Lemma zone_penalty_ge_1 d r : 1 <= zone_penalty d r.
Proof.
  unfold zone_penalty.
  destruct (Rlt_dec d r); [lra|]. destruct (Rlt_dec d (r * (3 / 2))).
  - destruct (near_excess d r) as [Hr Hx]; [lra..|].
    assert (exp 0 < exp (3 * (1 - (d - r) / (r * (1 / 2)))))
      by (apply exp_increasing; lra).
    rewrite exp_0 in *. lra.
  - destruct (Rlt_dec d (r * 2)); lra.
Qed.

End KillzoneFacts.

Module KillzoneSpec.
Import Lra GraphBuilder KillzoneFacts.
Local Open Scope R_scope.

(** C2, as the code has it. For a non-empty kill-zone list the penalty
    is the greatest of the per-zone penalties (it is one of them and
    bounds them all) and is at least 1. The per-zone penalty at distance
    [d] from a centre of radius [r] is 1000 for [d < r],
    [50 * exp (3 * (1 - (d - r) / (0.5 * r)))] for [r <= d < 1.5 r], 10 for
    [1.5 r <= d < 2 r] and 1 for [d >= 2 r]; it is at least 1 everywhere,
    strictly decreasing in [d] on the band [r <= d < 1.5 r], and constant
    on each of the other three bands. *)
Theorem killzone_penalty_piecewise_max
    (haversine_distance : R → R → R → R → R) (lat lon : R) (zones : list KillZone) :
  zones ≠ [] →
  let penalties := List.map (penalty_at haversine_distance lat lon) zones in
  let penalty := _compute_killzone_penalty haversine_distance lat lon (Some zones) in
  (penalty ∈ penalties ∧ Forall (fun q => q <= penalty) penalties ∧ 1 <= penalty) ∧
  ∀ d r,
    (d < r → zone_penalty d r = 1000) ∧
    (r <= d → d < r * (3 / 2) →
     zone_penalty d r = 50 * exp (3 * (1 - (d - r) / (r * (1 / 2))))) ∧
    (r * (3 / 2) <= d → d < r * 2 → zone_penalty d r = 10) ∧
    (r <= d → r * 2 <= d → zone_penalty d r = 1) ∧
    1 <= zone_penalty d r ∧
    (∀ d', r <= d → d < d' → d' < r * (3 / 2) →
           zone_penalty d' r < zone_penalty d r).
Proof.
  intros Hne penalties penalty. split.
  - destruct zones as [|kz zones]; [done|].
    unfold penalty, _compute_killzone_penalty.
    destruct (running_max (penalty_at haversine_distance lat lon) (kz :: zones) 1)
      as (Hin & Hge & Hall).
    fold penalties in Hin, Hall.
    set (m := fold_left _ _ _) in *.
    split; [|split; [done|lra]].
    destruct Hin as [E|Hin]; [|done].
    apply elem_of_cons. left.
    inversion Hall as [|q qs Hq _]; subst.
    pose proof (zone_penalty_ge_1
                  (let '(a, b) := center kz in haversine_distance lat lon a b)
                  (radius_km kz)) as H1.
    unfold penalty_at in *. destruct (center kz). lra.
  - intros d r. split_and!.
    + apply band_inside.
    + apply band_near.
    + apply band_buffer.
    + apply band_far.
    + apply zone_penalty_ge_1.
    + intros d'. apply near_decreasing.
Qed.

(** A flat-earth stand-in for the geodesic distance, 111 km per degree. *)
Definition flat_distance (lat1 lon1 lat2 lon2 : R) : R :=
  111 * sqrt ((lat1 - lat2) * (lat1 - lat2) + (lon1 - lon2) * (lon1 - lon2)).

Lemma killzone_penalty_piecewise_max_witness :
  1 <= _compute_killzone_penalty flat_distance 48 37
         (Some [mkKillZone (48, 37) 5; mkKillZone (49, 38) 2]).
Proof.
  apply (killzone_penalty_piecewise_max flat_distance 48 37
           [mkKillZone (48, 37) 5; mkKillZone (49, 38) 2]).
  discriminate.
Defined.

(** C2, as stated, fails: inside the zone the penalty is constant, not
    strictly decreasing; at distances 0 and 1/2 from a centre of radius
    1, both in the band [d < r], the penalty is 1000. *)
Lemma zone_penalty_flat_inside :
  0 < 1 / 2 ∧ 1 / 2 < 1 ∧ ¬ (zone_penalty (1 / 2) 1 < zone_penalty 0 1).
Proof.
  split; [lra|]. split; [lra|].
  rewrite !band_inside by lra. lra.
Qed.

End KillzoneSpec.

(* ===================================================================== *)
(** * Further properties of path reconstruction *)
(* ===================================================================== *)

Module PathMore.
Import CVaRRouter PathFacts.

(** X1. A non-empty path returned by [_edges_to_path] starts at the
    origin, ends at the destination, and each pair of consecutive nodes
    is one of the selected edges. *)
Theorem reconstructed_path_valid (edges : list (Z * Z)) (origin destination : Z) :
  _edges_to_path edges origin destination ≠ [] →
  head (_edges_to_path edges origin destination) = Some origin ∧
  last (_edges_to_path edges origin destination) = Some destination ∧
  ∀ i u v, _edges_to_path edges origin destination !! i = Some u →
           _edges_to_path edges origin destination !! Datatypes.S i = Some v →
           (u, v) ∈ edges.
Proof. apply edges_to_path_sound. Qed.

Lemma reconstructed_path_valid_witness :
  head (_edges_to_path [(2, 3); (0, 1); (1, 2); (7, 8)]%Z 0 3) = Some 0%Z.
Proof.
  apply (reconstructed_path_valid [(2, 3); (0, 1); (1, 2); (7, 8)]%Z 0 3).
  discriminate.
Defined.

(** Keys that are not inserted keep their value. *)
Lemma edge_dict_other (edges : list (Z * Z)) (init : gmap Z Z) u :
  u ∉ edges.*1 →
  foldl (fun d '(a, b) => <[a := b]> d) init edges !! u = init !! u.
Proof.
  revert init. induction edges as [|[a b] edges IH]; intros init Hu; simpl; [done|].
  rewrite fmap_cons, not_elem_of_cons in Hu. destruct Hu as [Hne Hu].
  rewrite IH by done. by rewrite lookup_insert_ne.
Qed.

(** With pairwise distinct sources every edge is found under its source. *)
Lemma edge_dict_found (edges : list (Z * Z)) (init : gmap Z Z) u v :
  NoDup edges.*1 → (u, v) ∈ edges →
  foldl (fun d '(a, b) => <[a := b]> d) init edges !! u = Some v.
Proof.
  revert init. induction edges as [|[a b] edges IH]; intros init Hnd Hin; simpl.
  - by apply elem_of_nil in Hin.
  - rewrite fmap_cons in Hnd. apply NoDup_cons in Hnd as [Ha Hnd].
    apply elem_of_cons in Hin as [[= -> ->]|Hin].
    + rewrite edge_dict_other by done. by rewrite lookup_insert_eq.
    + by apply IH.
Qed.

Lemma steps_cons a b l : steps (a :: b :: l) = (a, b) :: steps (b :: l).
Proof. reflexivity. Qed.

Lemma steps_sources p : (steps p).*1 `sublist_of` p.
Proof.
  induction p as [|a [|b p] IH]; [done| |].
  - by apply sublist_nil_l.
  - rewrite steps_cons, fmap_cons. cbn [fst]. by apply sublist_skip.
Qed.

Lemma steps_middle pre a b rest : (a, b) ∈ steps (pre ++ a :: b :: rest).
Proof.
  induction pre as [|x [|y pre] IH]; cbn [app].
  - rewrite steps_cons. apply elem_of_cons. by left.
  - rewrite steps_cons. apply elem_of_cons. right. exact IH.
  - rewrite steps_cons. apply elem_of_cons. right. exact IH.
Qed.

Lemma steps_length p : length (steps p) = pred (length p).
Proof.
  induction p as [|a [|b p] IH]; [done..|].
  rewrite steps_cons. cbn [length] in *. by rewrite IH.
Qed.

(** Following the links of a path without repeated nodes. *)
Lemma walk_chain dict destination fuel pre current rest :
  NoDup (pre ++ current :: rest) →
  last (current :: rest) = Some destination →
  (∀ a b, (a, b) ∈ steps (pre ++ current :: rest) → dict !! a = Some b) →
  (length rest ≤ fuel)%nat →
  walk dict destination fuel (pre ++ [current]) current
  = Some (pre ++ current :: rest).
Proof.
  revert fuel pre current.
  induction rest as [|next_node rest IH]; intros fuel pre current Hnd Hlast Hd Hfuel.
  - cbn in Hlast. simplify_eq. destruct fuel; cbn; [done|].
    by rewrite bool_decide_eq_true_2.
  - destruct fuel as [|fuel]; [cbn in Hfuel; lia|]. cbn [walk].
    rewrite bool_decide_eq_false_2.
    + rewrite (Hd current next_node) by apply steps_middle.
      assert (E : pre ++ current :: next_node :: rest
                  = (pre ++ [current]) ++ next_node :: rest)
        by (by rewrite <- app_assoc).
      rewrite E in *. apply IH; [done| |done|cbn in Hfuel; lia].
      by rewrite last_cons_cons in Hlast.
    + intros ->. apply NoDup_app in Hnd as (_ & _ & Hnd).
      apply NoDup_cons in Hnd as [Hnot _]. apply Hnot.
      rewrite last_cons_cons in Hlast.
      apply last_Some in Hlast as [l' ->]. apply elem_of_app. right.
      by apply list_elem_of_singleton.
Qed.

(** X2. Round trip: for a node path without repeated nodes and with at
    least two nodes, rebuilding the path from its own list of steps
    gives the path back. *)
Theorem edges_to_path_of_steps (node_path : list Z) (origin destination : Z) :
  NoDup node_path → (2 ≤ length node_path)%nat →
  head node_path = Some origin → last node_path = Some destination →
  _edges_to_path (steps node_path) origin destination = node_path.
Proof.
  intros Hnd Hlen Hhead Hlast.
  destruct node_path as [|a [|b rest]]; [cbn in Hlen; lia..|].
  cbn in Hhead. simplify_eq.
  unfold _edges_to_path. rewrite steps_cons. rewrite <- steps_cons.
  set (p := origin :: b :: rest) in *.
  assert (Hw : walk (foldl (fun d '(u, v) => <[u := v]> d) ∅ (steps p))
                 destination (length (steps p) + 1) [origin] origin = Some p).
  { apply (walk_chain _ destination _ [] origin (b :: rest)); [done..| |].
    - intros u v Huv. apply edge_dict_found; [|done].
      eapply sublist_NoDup; [exact Hnd|apply steps_sources].
    - rewrite steps_length. subst p. cbn [length]. lia. }
  revert Hw. destruct (steps p) as [|e l] eqn:E; [done|]. intros ->.
  by rewrite bool_decide_eq_true_2.
Qed.

Lemma edges_to_path_of_steps_witness :
  _edges_to_path (steps [5; 2; 9; 4]%Z) 5 4 = [5; 2; 9; 4]%Z.
Proof.
  apply edges_to_path_of_steps; [|cbn; lia|reflexivity|reflexivity].
  apply (bool_decide_unpack _). vm_compute. exact I.
Defined.

End PathMore.

(* ===================================================================== *)
(** * Further properties of the router *)
(* ===================================================================== *)

Module LoopFacts.

Lemma fold_app {A B} (body : B → A → Res B) init (l1 l2 : list A) :
  Loop.fold body init (l1 ++ l2)
  = Loop.fold body init l1 ≫= fun acc => Loop.fold body acc l2.
Proof.
  revert init. induction l1 as [|x l1 IH]; intros init; cbn; [done|].
  destruct (body init x) as [acc|e]; cbn; [apply IH|done].
Qed.

(** What a comprehension returns, element by element. *)
Lemma comprehension_Ok {A B} (f : A → Res B) (items : list A) bs :
  Loop.comprehension f items = Ok bs → Forall2 (fun a b => f a = Ok b) items bs.
Proof.
  revert bs. induction items as [|a items IH]; intros bs; cbn.
  - intros [= <-]. constructor.
  - intros Hc. apply bind_Ok in Hc as (b & Hb & Hc).
    apply bind_Ok in Hc as (bs' & Hbs & [= <-]). constructor; [done|by apply IH].
Qed.

(** A property kept by every round holds after the loop. *)
Lemma fold_invariant {A B} (P : B → Prop) (body : B → A → Res B) init items acc :
  P init → (∀ b a b', P b → body b a = Ok b' → P b') →
  Loop.fold body init items = Ok acc → P acc.
Proof.
  intros Hinit Hstep. revert init Hinit.
  induction items as [|a items IH]; intros init Hinit; cbn.
  - by intros [= <-].
  - intros Hf. apply bind_Ok in Hf as (b & Hb & Hf). eapply IH; [|done]. eauto.
Qed.

Lemma M_bind_Ok `{NumpyRandom} {A B} (m : M A) (f : A → M B) s b s' :
  (m ≫= f) s = (Ok b, s') → ∃ a s1, m s = (Ok a, s1) ∧ f a s1 = (Ok b, s').
Proof.
  unfold mbind, M_bind. destruct (m s) as [[a|e] s1]; [|done]. eauto.
Qed.

End LoopFacts.

Module RiskFacts.
Import Lqa Cvar PyFacts CvarFacts CVaRRouter LoopFacts.
Local Open Scope Q_scope.

Lemma min_le_r a b : Py.min a b <= b.
Proof.
  unfold Py.min, Py.lt. destruct (Qle_bool a b) eqn:E; cbn.
  - by apply Qle_bool_iff.
  - lra.
Qed.

(** The cap of [_get_edge_risk]. *)
Lemma get_edge_risk_le_10 G e scenario cargo_value r :
  _get_edge_risk G e scenario cargo_value = Ok r → r <= 10.
Proof.
  unfold _get_edge_risk. intros Hr.
  apply bind_Ok in Hr as (data & _ & Hr).
  apply bind_Ok in Hr as (bd & _ & Hr).
  apply bind_Ok in Hr as (vis & _ & Hr).
  apply bind_Ok in Hr as (kz & _ & [= <-]).
  apply min_le_r.
Qed.

Lemma path_risk_fold_bound G cargo_value scenario l acc r :
  Loop.fold (fun risk '(u, v) =>
               if Nx.has_edge G u v then
                 r ← _get_edge_risk G (u, v) scenario cargo_value; mret (risk + r)
               else mret risk) acc l = Ok r →
  r <= acc + 10 * inject_Z (Py.len l).
Proof.
  revert acc. induction l as [|[u v] l IH]; intros acc; cbn [Loop.fold].
  - intros [= <-]. change (inject_Z (Py.len (@nil (Z * Z)))) with 0. lra.
  - intros Hf. apply bind_Ok in Hf as (acc' & Hstep & Hf).
    rewrite len_cons. pose proof (len_nonneg l).
    destruct (Nx.has_edge G u v).
    + apply bind_Ok in Hstep as (x & Hx & [= <-]).
      apply get_edge_risk_le_10 in Hx. specialize (IH _ Hf). lra.
    + injection Hstep as <-. specialize (IH _ Hf). lra.
Qed.

Lemma path_risk_bound G node_path cargo_value scenario r :
  path_risk G node_path cargo_value scenario = Ok r →
  r <= 10 * inject_Z (Py.len (steps node_path)).
Proof.
  intros Hr. apply path_risk_fold_bound in Hr. lra.
Qed.

(** The mean of a non-empty list lies below any bound of its elements. *)
Lemma mean_le_bound l B :
  l ≠ [] → Forall (fun r => r <= B) l → Py.mean l <= B.
Proof.
  intros Hne Hall. unfold Py.mean.
  apply Qle_shift_div_r; [by apply len_pos|].
  clear Hne. induction Hall as [|x l Hx Hall IH].
  - change (0 <= B * 0). lra.
  - rewrite len_cons, sum_cons. lra.
Qed.

Lemma tail_risks_bound l v B :
  Forall (fun r => r <= B) l → Forall (fun r => r <= B) (tail_risks l v).
Proof.
  intros Hall. unfold tail_risks. apply Forall_forall. intros r Hr.
  apply list_elem_of_In, filter_In in Hr as [Hr _].
  rewrite Forall_forall in Hall. by apply Hall, list_elem_of_In.
Qed.

(** The three risk figures of a list of scenario risks: the mean is at
    most the CVaR at the lower level, which is at most the CVaR at the
    higher level, which is at most any bound of the risks. *)
Lemma cvar_order risks a1 a2 B :
  risks ≠ [] → 0 < a1 → a1 <= a2 → a2 < 1 → Forall (fun r => r <= B) risks →
  ∃ c1 c2, _calculate_cvar risks a1 = Some c1 ∧ _calculate_cvar risks a2 = Some c2 ∧
           Py.mean risks <= c1 ∧ c1 <= c2 ∧ c2 <= B.
Proof.
  intros Hne H0 H12 H1 HB.
  destruct (cvar_value risks a1) as (v1 & Hv1 & Hin1 & Hc1); [done|done|lra|].
  destruct (cvar_value risks a2) as (v2 & Hv2 & Hin2 & Hc2); [done|lra|done|].
  eexists _, _. split; [exact Hc1|]. split; [exact Hc2|].
  assert (Hv12 : v1 <= v2).
  { eapply (sorted_lookup_le (Py.sorted risks)); [apply sorted_sorted| |done..].
    pose proof (var_index_range risks a1 Hne H0 ltac:(lra)).
    pose proof (var_index_range risks a2 Hne ltac:(lra) H1).
    apply Z2Nat.inj_le; [lia..|].
    unfold var_index. apply int_scaled_mono; [done..|].
    rewrite sorted_len. unfold Py.len. destruct risks; [done|simpl; lia]. }
  assert (Hne1 : tail_risks (Py.sorted risks) v1 ≠ [])
    by (intros E; rewrite E in Hin1; by apply elem_of_nil in Hin1).
  assert (Hne2 : tail_risks (Py.sorted risks) v2 ≠ [])
    by (intros E; rewrite E in Hin2; by apply elem_of_nil in Hin2).
  split_and!.
  - rewrite <- (mean_perm _ _ (sorted_perm risks)). by apply tail_mean_ge.
  - rewrite <- (tail_tail _ v1 v2 Hv12).
    apply tail_mean_ge. by rewrite tail_tail.
  - apply mean_le_bound; [done|]. apply tail_risks_bound.
    apply Forall_forall. intros r Hr. rewrite Forall_forall in HB.
    apply HB. by apply sorted_elem.
Qed.

Section Risk.
Context `{MathLib}.

(** X3. In every route result that [_build_route_result] returns, the
    mean risk is at most [cvar_95], which is at most [cvar_99], which is
    at most 10 for each edge of the node path. *)
Theorem route_risk_ordered G node_path scenarios cargo_value method r :
  _build_route_result G node_path scenarios cargo_value method = Ok r →
  RouteResult.mean_risk r <= RouteResult.cvar_95 r ∧
  RouteResult.cvar_95 r <= RouteResult.cvar_99 r ∧
  RouteResult.cvar_99 r <= 10 * inject_Z (Z.of_nat (length node_path - 1)).
Proof.
  unfold _build_route_result. intros Hr.
  apply bind_Ok in Hr as ([[pc total_time] td] & _ & Hr).
  apply bind_Ok in Hr as (wps & _ & Hr).
  apply bind_Ok in Hr as (risks & Hrisks & Hr).
  apply bind_Ok in Hr as (c95 & H95 & Hr).
  apply bind_Ok in Hr as (c99 & H99 & Hr).
  injection Hr as <-. cbn.
  assert (HB : Forall (fun x => x <= 10 * inject_Z (Z.of_nat (length node_path - 1)))
                      risks).
  { apply comprehension_Ok in Hrisks. apply Forall_forall. intros x Hx.
    apply list_elem_of_lookup in Hx as [i Hi].
    destruct (Forall2_lookup_r _ _ _ _ _ Hrisks Hi) as (sc & _ & Hx).
    apply path_risk_bound in Hx. unfold Py.len in Hx.
    rewrite PathMore.steps_length in Hx. by rewrite Nat.sub_1_r. }
  assert (Hne : risks ≠ []).
  { intros ->. unfold calculate_cvar in H95. by vm_compute in H95. }
  destruct (cvar_order risks (95 # 100) (99 # 100) _ Hne eq_refl
              ltac:(discriminate) eq_refl HB) as (c1 & c2 & E1 & E2 & ? & ? & ?).
  unfold calculate_cvar in H95, H99. rewrite E1 in H95. rewrite E2 in H99.
  by simplify_eq.
Qed.

(** With an empty scenario list no route result is built. *)
Lemma build_route_result_no_scenarios G node_path cargo_value method r :
  _build_route_result G node_path [] cargo_value method ≠ Ok r.
Proof.
  unfold _build_route_result. intros Hr.
  apply bind_Ok in Hr as ([[pc total_time] td] & _ & Hr).
  apply bind_Ok in Hr as (wps & _ & Hr).
  apply bind_Ok in Hr as (risks & Hrisks & Hr).
  injection Hrisks as <-.
  by apply bind_Ok in Hr as (c95 & H95 & _).
Qed.

End Risk.
End RiskFacts.
Module RouterMore.
Import Lqa CVaRRouter Frame RouterFacts LoopFacts RiskFacts PathFacts.

Section More.
Context `{MathLib, NumpyRandom, Networkx, Pyomo}.
Local Open Scope Q_scope.

Lemma route_or_empty_no_scenarios self node_path cargo_value method s :
  num_scenarios self = 0%nat →
  ∃ e s', route_or_empty self (Ok node_path) cargo_value method s = (Raise e, s').
Proof.
  intros Hzero. unfold route_or_empty, _generate_scenarios. rewrite Hzero.
  cbn [scenario_loop]. unfold mbind, M_bind, mret, M_ret, Call.get_graph, Call.lift.
  destruct (_build_route_result (graph s) node_path [] cargo_value method)
    as [r|e] eqn:E; [|eauto].
  by apply build_route_result_no_scenarios in E.
Qed.

(** X4. A router set up with [num_scenarios = 0] never returns a route:
    [shortest_distance] and [shortest_time] raise as soon as networkx
    finds a path, and [optimize] raises on every input. *)
Theorem zero_scenarios_raise self origin destination cargo_value weight_time
    weight_risk solver s :
  num_scenarios self = 0%nat →
  (∀ node_path,
     shortest_path (graph s) origin destination (Nx.WAttr "distance_km")
       = Ok node_path →
     ∃ e s', shortest_distance self origin destination s = (Raise e, s')) ∧
  (∀ node_path,
     shortest_path (graph s) origin destination (Nx.WAttr "travel_time_hours")
       = Ok node_path →
     ∃ e s', shortest_time self origin destination s = (Raise e, s')) ∧
  ∃ e s', optimize self origin destination cargo_value weight_time weight_risk
            solver s = (Raise e, s').
Proof.
  intros Hzero. split_and!.
  - intros node_path Hp. unfold shortest_distance, mbind, M_bind.
    cbn [Call.get_graph]. rewrite Hp. by apply route_or_empty_no_scenarios.
  - intros node_path Hp. unfold shortest_time, mbind, M_bind.
    cbn [Call.get_graph]. rewrite Hp. by apply route_or_empty_no_scenarios.
  - unfold optimize, _generate_scenarios. rewrite Hzero. cbn [scenario_loop].
    unfold mbind at 1, M_bind at 1, mret, M_ret.
    unfold mbind at 1, M_bind at 1. cbn [Call.get_graph].
    unfold mbind at 1, M_bind at 1, Call.lift at 1.
    destruct (build_model self (graph s) [] origin destination cargo_value
                weight_time weight_risk) as [model|e] eqn:E; [|eauto].
    exfalso. unfold build_model in E.
    apply bind_Ok in E as (flow & _ & E).
    apply bind_Ok in E as (risk & _ & E).
    apply bind_Ok in E as (times & _ & E).
    rewrite Hzero in E. cbn in E. by destruct (Qeq_bool _ _).
Qed.

(** ** The route that [optimize] returns *)

Lemma selected_edges_subset edges values selected :
  selected_edges edges values = Ok selected → selected ⊆ edges.
Proof.
  unfold selected_edges, Py.enumerate. generalize 0%nat.
  intros n.
  assert (∀ (rest : list (Z * Z)) n acc,
            Loop.fold (fun selected '(i, e) =>
               match values !! i with
               | Some (Some v) =>
                   if Py.lt (1 # 2) v then mret (selected ++ [e]) else mret selected
               | _ => Raise ValueError
               end) acc (Py.enumerate_from n rest) = Ok selected →
            selected ⊆ acc ++ rest) as Hgen.
  { induction rest as [|e rest IH]; intros k acc; cbn.
    - intros [= <-]. by rewrite app_nil_r.
    - intros Hf. apply bind_Ok in Hf as (acc' & Hstep & Hf).
      apply IH in Hf. destruct (values !! k) as [[v|]|]; [|done..].
      destruct (Py.lt (1 # 2) v); injection Hstep as <-.
      + by rewrite <- app_assoc in Hf.
      + intros x Hx. apply Hf in Hx. apply elem_of_app in Hx as [Hx|Hx];
          apply elem_of_app; [by left|right; apply elem_of_cons; by right]. }
  intros Hf. apply Hgen in Hf. by rewrite app_nil_l in Hf.
Qed.

Lemma build_model_edges self G scenarios o d c wt wr model :
  build_model self G scenarios o d c wt wr = Ok model →
  Milp.E model = Nx.edge_list G.
Proof.
  unfold build_model. intros E.
  apply bind_Ok in E as (flow & _ & E).
  apply bind_Ok in E as (risk & _ & E).
  apply bind_Ok in E as (times & _ & E).
  destruct (Qeq_bool _ _); [done|]. destruct (Nat.eqb _ _); [done|].
  by injection E as <-.
Qed.

Lemma edge_list_has_edge G u v : (u, v) ∈ Nx.edge_list G → Nx.has_edge G u v = true.
Proof.
  unfold Nx.edge_list, Nx.has_edge. intros Hin.
  apply list_elem_of_fmap in Hin as ([e data] & [= <-] & Hin).
  apply elem_of_map_to_list in Hin. apply bool_decide_eq_true_2. by eexists.
Qed.

(** X7. A result returned by [optimize] is either the fallback, tagged
    ["shortest_time"], or tagged ["cvar"]; the node path of a ["cvar"]
    result starts at the origin, ends at the destination, and every pair
    of consecutive nodes is an edge of the graph. *)
Theorem optimize_result_shape self origin destination cargo_value weight_time
    weight_risk solver s r s' :
  optimize self origin destination cargo_value weight_time weight_risk solver s
  = (Ok r, s') →
  RouteResult.method r = "shortest_time" ∨
  (RouteResult.method r = "cvar" ∧
   head (RouteResult.node_path r) = Some origin ∧
   last (RouteResult.node_path r) = Some destination ∧
   ∀ i u v, RouteResult.node_path r !! i = Some u →
            RouteResult.node_path r !! Datatypes.S i = Some v →
            Nx.has_edge (graph s) u v = true).
Proof.
  unfold optimize. intros Hopt.
  apply M_bind_Ok in Hopt as (scenarios & s1 & Hgen & Hopt).
  assert (Hg : graph s1 = graph s).
  { pose proof (generate_scenarios_keeps self s) as Hk. by rewrite Hgen in Hk. }
  apply M_bind_Ok in Hopt as (G & s2 & [= <- <-] & Hopt).
  apply M_bind_Ok in Hopt as (model & s3 & Hmodel & Hopt).
  unfold Call.lift in Hmodel. injection Hmodel as Hmodel <-.
  assert (Hfallback : ∀ s0, shortest_time self origin destination s0 = (Ok r, s') →
                            RouteResult.method r = "shortest_time").
  { intros s0. unfold shortest_time, mbind, M_bind. cbn [Call.get_graph].
    apply RouterSpec.route_or_empty_method. }
  destruct (solver_solve solver (solver_timelimit solver) model) as [values|e];
    [|left; by eapply Hfallback].
  apply M_bind_Ok in Hopt as (selected & s4 & Hsel & Hopt).
  unfold Call.lift in Hsel. injection Hsel as Hsel <-.
  destruct (_edges_to_path selected origin destination) as [|n0 rest] eqn:Hpath;
    [left; by eapply Hfallback|].
  apply M_bind_Ok in Hopt as (G & s5 & [= <- <-] & Hopt).
  unfold Call.lift in Hopt. injection Hopt as Hopt _.
  apply RouterSpec.build_route_result_fields in Hopt as [Hm Hp].
  right. rewrite Hm, Hp, <- Hpath. split; [done|].
  destruct (edges_to_path_sound selected origin destination) as (Hh & Hl & Hsteps);
    [by rewrite Hpath|].
  split_and!; [done..|].
  intros i u v Hu Hv. rewrite <- Hg. apply edge_list_has_edge.
  rewrite <- (build_model_edges _ _ _ _ _ _ _ _ _ Hmodel).
  eapply selected_edges_subset; [done|]. by eapply Hsteps.
Qed.

(** ** The waypoints of a route *)

Lemma enumerate_from_app {A} n (l1 l2 : list A) :
  Py.enumerate_from n (l1 ++ l2)
  = Py.enumerate_from n l1 ++ Py.enumerate_from (n + length l1) l2.
Proof.
  revert n. induction l1 as [|x l1 IH]; intros n; cbn.
  - by rewrite Nat.add_0_r.
  - rewrite IH. do 3 f_equal. lia.
Qed.

Lemma enumerate_from_length {A} n (l : list A) :
  length (Py.enumerate_from n l) = length l.
Proof. revert n. induction l as [|x l IH]; intros n; cbn; [done|]. by rewrite IH. Qed.

(** A round of the waypoint loop appends at most one waypoint. *)
Lemma waypoint_step_extends G n interval total_time acc item acc' :
  waypoint_step G n interval total_time acc item = Ok acc' →
  ∃ ext, acc' = acc ++ ext ∧ (length ext ≤ 1)%nat.
Proof.
  unfold waypoint_step. destruct item as [i node]. case_match.
  - intros Hw. apply bind_Ok in Hw as ([lat lon] & _ & [= <-]).
    eexists. split; [done|cbn; lia].
  - intros [= <-]. exists []. rewrite app_nil_r. split; [done|cbn; lia].
Qed.

Lemma waypoint_loop_extends G n interval total_time items acc acc' :
  Loop.fold (waypoint_step G n interval total_time) acc items = Ok acc' →
  ∃ ext, acc' = acc ++ ext ∧ (length ext ≤ length items)%nat.
Proof.
  revert acc. induction items as [|item items IH]; intros acc; cbn.
  - intros [= <-]. exists []. rewrite app_nil_r. split; [done|cbn; lia].
  - intros Hf. apply bind_Ok in Hf as (acc1 & Hstep & Hf).
    apply waypoint_step_extends in Hstep as (e1 & -> & Hl1).
    apply IH in Hf as (e2 & -> & Hl2).
    exists (e1 ++ e2). rewrite app_assoc. split; [done|].
    rewrite length_app. cbn. lia.
Qed.

(** X5. The waypoints of a route result built from a node path of at
    least two nodes begin with a waypoint named ["Origin"] at the
    coordinates of the first node and end with one named
    ["Destination"] at the coordinates of the last node; there are at
    least two and at most as many as nodes. *)
Theorem waypoints_first_last G node_path scenarios cargo_value method r
    origin destination :
  _build_route_result G node_path scenarios cargo_value method = Ok r →
  (2 ≤ length node_path)%nat →
  head node_path = Some origin → last node_path = Some destination →
  ∃ w0 wl,
    head (RouteResult.waypoints r) = Some w0 ∧
    last (RouteResult.waypoints r) = Some wl ∧
    Waypoint.name w0 = "Origin" ∧
    Nx.node_coords G origin = Ok (Waypoint.latitude w0, Waypoint.longitude w0) ∧
    Waypoint.name wl = "Destination" ∧
    Nx.node_coords G destination
      = Ok (Waypoint.latitude wl, Waypoint.longitude wl) ∧
    (2 ≤ length (RouteResult.waypoints r) ≤ length node_path)%nat.
Proof.
  unfold _build_route_result. intros Hr Hlen Hhead Hlast.
  apply bind_Ok in Hr as ([[pc total_time] td] & _ & Hr).
  apply bind_Ok in Hr as (wps & Hw & Hr).
  apply bind_Ok in Hr as (risks & _ & Hr).
  apply bind_Ok in Hr as (c95 & _ & Hr).
  apply bind_Ok in Hr as (c99 & _ & Hr).
  injection Hr as <-. cbn [RouteResult.waypoints].
  destruct node_path as [|o rest]; [done|]. cbn in Hhead. simplify_eq.
  apply last_Some in Hlast as [pre Hpre].
  destruct pre as [|o' mid]; [destruct rest; cbn in *; [lia|done]|].
  injection Hpre as <- ->.
  revert Hw. generalize (Nat.max 1 (length (origin :: mid ++ [destination]) / 10)).
  intros interval. unfold Py.enumerate.
  change (origin :: mid ++ [destination]) with ([origin] ++ mid ++ [destination]).
  rewrite !enumerate_from_app, !fold_app. cbn [Py.enumerate_from length Nat.add].
  rewrite !length_app. cbn [length].
  intros Hw.
  apply bind_Ok in Hw as (acc1 & Hfirst & Hw).
  rewrite fold_app in Hw.
  apply bind_Ok in Hw as (acc2 & Hmid & Hw).
  cbn [Loop.fold waypoint_step Nat.eqb orb] in Hfirst.
  apply bind_Ok in Hfirst as (acc1' & Hfirst & [= <-]).
  apply bind_Ok in Hfirst as ([lat0 lon0] & Hc0 & [= <-]).
  apply waypoint_loop_extends in Hmid as (ext & -> & Hext).
  cbn [Loop.fold waypoint_step] in Hw.
  apply bind_Ok in Hw as (acc3 & Hend & [= <-]).
  replace (1 + (length mid + 1) - 1)%nat with (Datatypes.S (length mid)) in Hend by lia.
  rewrite Nat.eqb_refl in Hend. cbn [Nat.eqb orb] in Hend.
  apply bind_Ok in Hend as ([latd lond] & Hcd & [= <-]).
  eexists _, _. split_and!.
  - reflexivity.
  - exact (last_snoc _ (_ :: ext)).
  - reflexivity.
  - exact Hc0.
  - reflexivity.
  - exact Hcd.
  - cbn [length]. rewrite ?length_app. cbn [length]. lia.
  - cbn [length]. rewrite ?length_app. cbn [length]. clear -Hext.
    rewrite enumerate_from_length in Hext. lia.
Qed.

(** ** The weights that [mean_risk] writes *)

Lemma assign_risk_weight_run c e data s s' :
  assign_risk_weight c (e, data) s = (Ok tt, s') →
  ∃ kz det,
    Nx.get_num data "killzone_penalty" 1 = Ok kz ∧
    Nx.get_num data "detection_base" (3 # 10) = Ok det ∧
    s' = mkState (Nx.set_edge_attr (graph s) e "risk_weight"
                    (Num (det * c / 10 * kz))) (np_random s).
Proof.
  unfold assign_risk_weight, mbind, M_bind, Call.lift.
  destruct (Nx.get_num data "killzone_penalty" 1) as [kz|]; [|done].
  destruct (Nx.get_num data "detection_base" (3 # 10)) as [det|]; [|done].
  cbn. intros [= <-]. by eexists _, _.
Qed.

Lemma assign_loop_run c (l : list ((Z * Z) * gmap string attr)) s s' :
  NoDup l.*1 →
  (∀ e data, (e, data) ∈ l → edges (graph s) !! e = Some data) →
  Call.for_each l (assign_risk_weight c) s = (Ok tt, s') →
  np_random s' = np_random s ∧ nodes (graph s') = nodes (graph s) ∧
  (∀ e data, (e, data) ∈ l →
     ∃ kz det,
       Nx.get_num data "killzone_penalty" 1 = Ok kz ∧
       Nx.get_num data "detection_base" (3 # 10) = Ok det ∧
       edges (graph s') !! e
       = Some (<["risk_weight" := Num (det * c / 10 * kz)]> data)) ∧
  (∀ e, e ∉ l.*1 → edges (graph s') !! e = edges (graph s) !! e).
Proof.
  revert s. induction l as [|[e0 d0] l IH]; intros s Hnd Hpre; cbn [Call.for_each].
  - intros [= <-]. split_and!; [done..| |done].
    intros e data Hin. by apply elem_of_nil in Hin.
  - intros Hrun. apply M_bind_Ok in Hrun as ([] & s1 & Hstep & Hrun).
    apply assign_risk_weight_run in Hstep as (kz0 & det0 & Hkz0 & Hdet0 & ->).
    rewrite fmap_cons in Hnd. apply NoDup_cons in Hnd as [Hfresh Hnd].
    cbn [fst] in Hfresh.
    assert (Hother : ∀ e, e ≠ e0 →
              edges (Nx.set_edge_attr (graph s) e0 "risk_weight"
                       (Num (det0 * c / 10 * kz0))) !! e = edges (graph s) !! e).
    { intros e Hne. cbn. by rewrite lookup_alter_ne. }
    apply IH in Hrun as (Hg & Hn & Hset & Hrest); [|done|].
    + cbn [graph np_random] in *. split_and!; [done|done| |].
      * intros e data Hin. apply elem_of_cons in Hin as [[= -> ->]|Hin].
        -- exists kz0, det0. split_and!; [done..|].
           rewrite Hrest by done. cbn.
           rewrite lookup_alter_eq, (Hpre e0 d0); [done|]. apply elem_of_cons. by left.
        -- by apply Hset.
      * intros e He. rewrite fmap_cons, not_elem_of_cons in He.
        destruct He as [Hne He]. rewrite Hrest by done. by apply Hother.
    + intros e data Hin. cbn [graph]. rewrite Hother.
      * apply Hpre. apply elem_of_cons. by right.
      * intros ->. apply Hfresh. apply list_elem_of_fmap. by exists (e0, data).
Qed.

(** X6. When the loop of [mean_risk] over the edges completes, the
    nodes, the set of edges and the generator are as before, and every
    edge carries, besides its former attributes, ["risk_weight"] equal to
    [detection_base * cargo_value / 10 * killzone_penalty] (with the
    defaults 0.3 and 1.0 for a missing attribute). *)
Theorem risk_weights_assigned cargo_value s s' :
  assign_risk_weights cargo_value s = (Ok tt, s') →
  np_random s' = np_random s ∧ nodes (graph s') = nodes (graph s) ∧
  (∀ e, edges (graph s) !! e = None → edges (graph s') !! e = None) ∧
  ∀ e data, edges (graph s) !! e = Some data →
    ∃ kz det,
      Nx.get_num data "killzone_penalty" 1 = Ok kz ∧
      Nx.get_num data "detection_base" (3 # 10) = Ok det ∧
      edges (graph s') !! e
      = Some (<["risk_weight" := Num (det * cargo_value / 10 * kz)]> data).
Proof.
  unfold assign_risk_weights. intros Hrun.
  apply M_bind_Ok in Hrun as (G & s1 & [= <- <-] & Hrun).
  apply assign_loop_run in Hrun as (Hg & Hn & Hset & Hrest).
  - split_and!; [done..| |].
    + intros e He. rewrite Hrest; [done|].
      intros Hin. apply list_elem_of_fmap in Hin as ([e' data] & -> & Hin).
      apply elem_of_map_to_list in Hin. cbn in He. congruence.
    + intros e data He. apply Hset. by apply elem_of_map_to_list.
  - apply NoDup_fst_map_to_list.
  - intros e data Hin. by apply elem_of_map_to_list.
Qed.

End More.
End RouterMore.
(* ===================================================================== *)
(** * Route results on concrete inputs *)
(* ===================================================================== *)

Module RouterMoreRuns.
Import CVaRRouter Sample.
#[local] Existing Instances taylor_exp lcg search no_solver.
Local Open Scope Q_scope.

(** Two scenarios drawn from the generator state of [start]. *)
Definition two_scenarios : list Scenario :=
  Eval vm_compute in
    match (_generate_scenarios router (start simple_graph)).1 with
    | Ok scenarios => scenarios
    | Raise _ => []
    end.

(** The route 0-1-2-3 of [simple_graph] under these scenarios. *)
Definition sample_route : RouteResult.t :=
  Eval vm_compute in
    match _build_route_result simple_graph [0; 1; 2; 3]%Z two_scenarios 7 "cvar" with
    | Ok r => r
    | Raise _ => _empty_result "cvar"
    end.

Lemma route_risk_ordered_witness :
  RouteResult.mean_risk sample_route <= RouteResult.cvar_95 sample_route ∧
  RouteResult.cvar_95 sample_route <= RouteResult.cvar_99 sample_route ∧
  RouteResult.cvar_99 sample_route <= 10 * inject_Z (Z.of_nat (4 - 1)).
Proof.
  apply (RiskFacts.route_risk_ordered simple_graph [0; 1; 2; 3]%Z two_scenarios 7
           "cvar" sample_route).
  vm_compute. reflexivity.
Defined.

(** A router that draws no scenarios. *)
Definition no_scenarios : CVaRRouter.t := CVaRRouter.mk (95 # 100) 0.

Lemma zero_scenarios_raise_witness :
  ∃ e s', optimize no_scenarios 0 3 7 (1 # 2) (1 # 2) "glpk" (start simple_graph)
          = (Raise e, s').
Proof.
  assert (Hzero : num_scenarios no_scenarios = 0%nat) by reflexivity.
  exact (proj2 (proj2 (RouterMore.zero_scenarios_raise no_scenarios 0 3 7
                         (1 # 2) (1 # 2) "glpk" (start simple_graph) Hzero))).
Defined.

Lemma waypoints_first_last_witness :
  ∃ w0 wl,
    head (RouteResult.waypoints sample_route) = Some w0 ∧
    last (RouteResult.waypoints sample_route) = Some wl ∧
    Waypoint.name w0 = "Origin" ∧
    Nx.node_coords simple_graph 0 = Ok (Waypoint.latitude w0, Waypoint.longitude w0) ∧
    Waypoint.name wl = "Destination" ∧
    Nx.node_coords simple_graph 3
      = Ok (Waypoint.latitude wl, Waypoint.longitude wl) ∧
    (2 ≤ length (RouteResult.waypoints sample_route) ≤ 4)%nat.
Proof.
  apply (RouterMore.waypoints_first_last simple_graph [0; 1; 2; 3]%Z two_scenarios 7
           "cvar" sample_route 0%Z 3%Z).
  - vm_compute. reflexivity.
  - cbn. lia.
  - reflexivity.
  - reflexivity.
Defined.

(** The state that the loop of [mean_risk] leaves on [simple_graph]. *)
Definition weighted_state : State :=
  (assign_risk_weights 7 (start simple_graph)).2.

Lemma risk_weights_assigned_witness :
  np_random weighted_state = np_random (start simple_graph) ∧
  nodes (graph weighted_state) = nodes (graph (start simple_graph)) ∧
  (∀ e, edges (graph (start simple_graph)) !! e = None →
        edges (graph weighted_state) !! e = None) ∧
  ∀ e data, edges (graph (start simple_graph)) !! e = Some data →
    ∃ kz det,
      Nx.get_num data "killzone_penalty" 1 = Ok kz ∧
      Nx.get_num data "detection_base" (3 # 10) = Ok det ∧
      edges (graph weighted_state) !! e
      = Some (<["risk_weight" := Num (det * 7 / 10 * kz)]> data).
Proof.
  apply (RouterMore.risk_weights_assigned 7 (start simple_graph) weighted_state).
  reflexivity.
Defined.

(** [optimize] when the solver selects the edges of the route 0-1-2-3. *)
Definition solved_run : Res RouteResult.t * State :=
  @optimize taylor_exp lcg search (fixed_solver [Some 0; Some 1; Some 1; Some 1])
    router 0 3 7 (1 # 2) (1 # 2) "cbc" (start simple_graph).

Definition solved : RouteResult.t :=
  Eval vm_compute in
    match solved_run.1 with
    | Ok r => r
    | Raise _ => _empty_result "cvar"
    end.

Lemma optimize_result_shape_witness :
  RouteResult.method solved = "shortest_time" ∨
  (RouteResult.method solved = "cvar" ∧
   head (RouteResult.node_path solved) = Some 0%Z ∧
   last (RouteResult.node_path solved) = Some 3%Z ∧
   ∀ i u v, RouteResult.node_path solved !! i = Some u →
            RouteResult.node_path solved !! Datatypes.S i = Some v →
            Nx.has_edge (graph (start simple_graph)) u v = true).
Proof.
  apply (@RouterMore.optimize_result_shape taylor_exp lcg search
           (fixed_solver [Some 0; Some 1; Some 1; Some 1]) router 0 3 7
           (1 # 2) (1 # 2) "cbc" (start simple_graph) solved solved_run.2).
  reflexivity.
Defined.

End RouterMoreRuns.

(* ===================================================================== *)
(** * The alternative routes of [_generate_k_routes] *)
(* ===================================================================== *)

Module RoutesMore.
Import CVaRRouter StackelbergRouter LoopFacts.

Section More.
Context `{MathLib, NumpyRandom, Networkx, Pyomo, Nashpy}.

Definition node_paths (routes : list RouteResult.t) : list (list Z) :=
  List.map RouteResult.node_path routes.

Lemma node_paths_app l1 l2 : node_paths (l1 ++ l2) = node_paths l1 ++ node_paths l2.
Proof. apply List.map_app. Qed.

Lemma node_paths_snoc_NoDup routes r :
  NoDup (node_paths routes) → RouteResult.node_path r ∉ node_paths routes →
  NoDup (node_paths (routes ++ [r])).
Proof.
  intros Hnd Hnew. rewrite node_paths_app. apply NoDup_app. split_and!; [done| |].
  - intros p Hp Hin. apply list_elem_of_singleton in Hin. by subst.
  - apply NoDup_singleton.
Qed.

Lemma append_if_new_NoDup routes r :
  NoDup (node_paths routes) → NoDup (node_paths (append_if_new routes r)).
Proof.
  intros Hnd. unfold append_if_new. case_bool_decide; [done|].
  by apply node_paths_snoc_NoDup.
Qed.

Lemma append_if_new_extends routes r : ∃ ext, append_if_new routes r = routes ++ ext.
Proof.
  unfold append_if_new. case_bool_decide; [|by eexists].
  exists []. by rewrite app_nil_r.
Qed.

Lemma diverse_attempt_new self o d c routes s r s' :
  diverse_attempt self o d c routes s = (Ok (Some r), s') →
  RouteResult.node_path r ∉ node_paths routes.
Proof.
  unfold diverse_attempt. intros Hrun.
  apply M_bind_Ok in Hrun as ([] & s1 & _ & Hrun).
  apply M_bind_Ok in Hrun as (G & s2 & _ & Hrun).
  apply M_bind_Ok in Hrun as (p & s3 & _ & Hrun).
  apply M_bind_Ok in Hrun as ([] & s4 & _ & Hrun).
  apply M_bind_Ok in Hrun as (scenarios & s5 & _ & Hrun).
  apply M_bind_Ok in Hrun as (G' & s6 & _ & Hrun).
  apply M_bind_Ok in Hrun as (result & s7 & _ & Hrun).
  case_bool_decide as Hnew; [done|]. by injection Hrun as <- _.
Qed.

Lemma diverse_loop_extends self o d c k fuel routes s out s' :
  diverse_loop self o d c k fuel routes s = (Ok out, s') →
  NoDup (node_paths routes) →
  NoDup (node_paths out) ∧ ∃ ext, out = routes ++ ext.
Proof.
  revert routes s. induction fuel as [|fuel IH]; intros routes s; cbn [diverse_loop].
  - intros [= <- _] Hnd. split; [done|]. exists []. by rewrite app_nil_r.
  - destruct (length routes <? k)%nat.
    + intros Hrun Hnd. apply M_bind_Ok in Hrun as (attempt & s1 & Htry & Hrun).
      destruct attempt as [r|].
      * apply IH in Hrun as [Hout [ext ->]].
        -- split; [done|]. exists ([r] ++ ext). by rewrite app_assoc.
        -- apply node_paths_snoc_NoDup; [done|].
           unfold Call.try_except in Htry.
           destruct (diverse_attempt self o d c routes s) as [[a|e] s0] eqn:E.
           ++ injection Htry as -> ->. by eapply diverse_attempt_new.
           ++ by injection Htry.
      * injection Hrun as <- _. split; [done|]. exists []. by rewrite app_nil_r.
    + intros [= <- _] Hnd. split; [done|]. exists []. by rewrite app_nil_r.
Qed.

(** X8. The list that [_generate_k_routes] returns has at most [k]
    routes, no two of them with the same node path; for [k ≥ 1] it is
    not empty and begins with the result of [optimize] on the state of
    the call. *)
Theorem k_routes_distinct self origin destination cargo_value k s routes s' :
  _generate_k_routes self origin destination cargo_value k s = (Ok routes, s') →
  (length routes ≤ k)%nat ∧
  NoDup (List.map RouteResult.node_path routes) ∧
  ((1 ≤ k)%nat →
   ∃ baseline s1,
     head routes = Some baseline ∧
     optimize self origin destination cargo_value CVAR_WEIGHT_TIME
       CVAR_WEIGHT_RISK CVAR_SOLVER s = (Ok baseline, s1)).
Proof.
  unfold _generate_k_routes. intros Hrun.
  apply M_bind_Ok in Hrun as (baseline & s1 & Hopt & Hrun).
  apply M_bind_Ok in Hrun as (fastest & s2 & _ & Hrun).
  apply M_bind_Ok in Hrun as (shortest & s3 & _ & Hrun).
  apply M_bind_Ok in Hrun as (mean_risk_route & s4 & _ & Hrun).
  apply M_bind_Ok in Hrun as (out & s5 & Hloop & Hrun).
  injection Hrun as <- _.
  apply diverse_loop_extends in Hloop as [Hnd [ext3 ->]].
  - split_and!.
    + rewrite length_take. lia.
    + fold (node_paths (take k (append_if_new (append_if_new (append_if_new
             [baseline] fastest) shortest) mean_risk_route ++ ext3))).
      unfold node_paths in *. rewrite <- firstn_map.
      eapply sublist_NoDup; [exact Hnd|]. apply sublist_take.
    + intros Hk. exists baseline, s1. split; [|done].
      destruct (append_if_new_extends [baseline] fastest) as [e0 ->].
      destruct (append_if_new_extends ([baseline] ++ e0) shortest) as [e1 ->].
      destruct (append_if_new_extends (([baseline] ++ e0) ++ e1) mean_risk_route)
        as [e2 ->].
      destruct k; [lia|done].
  - do 3 apply append_if_new_NoDup. apply NoDup_singleton.
Qed.

End More.
End RoutesMore.
Module RoutesMoreRuns.
Import CVaRRouter StackelbergRouter Sample.
#[local] Existing Instances taylor_exp lcg search no_solver.
Local Open Scope Q_scope.

(** Three alternative routes from node 0 to node 3 of [simple_graph]. *)
Definition k_routes_run : Res (list RouteResult.t) * State :=
  _generate_k_routes router 0 3 7 3 (start simple_graph).

Definition k_routes : list RouteResult.t :=
  Eval vm_compute in
    match k_routes_run.1 with
    | Ok routes => routes
    | Raise _ => []
    end.

Lemma k_routes_distinct_witness :
  (length k_routes ≤ 3)%nat ∧
  NoDup (List.map RouteResult.node_path k_routes) ∧
  ((1 ≤ 3)%nat →
   ∃ baseline s1,
     head k_routes = Some baseline ∧
     optimize router 0 3 7 CVAR_WEIGHT_TIME CVAR_WEIGHT_RISK CVAR_SOLVER
       (start simple_graph) = (Ok baseline, s1)).
Proof.
  apply (RoutesMore.k_routes_distinct router 0 3 7 3 (start simple_graph)
           k_routes k_routes_run.2).
  reflexivity.
Defined.

Example k_routes_paths :
  List.map RouteResult.node_path k_routes = [[0; 1; 2; 3]; [0; 2; 3]]%Z.
Proof. reflexivity. Qed.

End RoutesMoreRuns.

(* ===================================================================== *)
(** * The Pareto front ([decision/pareto.py], the other methods) *)
(* ===================================================================== *)

Module FrontFacts.
Import Lqa RouteResult ParetoFrontGenerator ParetoFacts.
Local Open Scope Q_scope.

Lemma spec_dominates_trans a b c :
  spec_dominates a b → spec_dominates b c → spec_dominates a c.
Proof. unfold spec_dominates. intros [[? ?] [?|?]] [[? ?] [?|?]]; split; (split || idtac); lra. Qed.

Lemma spec_dominates_irrefl a : ¬ spec_dominates a a.
Proof. unfold spec_dominates. intros [_ [?|?]]; lra. Qed.

(** Below every result stands one that nothing of the list dominates. *)
Lemma minimal_dominator (candidates : list RouteResult.t) x :
  ∃ m, (m = x ∨ (m ∈ candidates ∧ spec_dominates m x)) ∧
       ∀ y, y ∈ candidates → ¬ spec_dominates y m.
Proof.
  revert x. induction candidates as [|a candidates IH]; intros x.
  - exists x. split; [by left|]. intros y Hy. by apply elem_of_nil in Hy.
  - destruct (IH x) as (m & Hm & Hmin).
    destruct (_dominates a m) eqn:Ea.
    + apply dominates_spec in Ea.
      assert (Hax : spec_dominates a x).
      { destruct Hm as [->|[_ Hm]]; [done|]. by eapply spec_dominates_trans. }
      destruct (IH a) as (m' & Hm' & Hmin'). exists m'. split.
      * right. destruct Hm' as [->|[Hin Hm']].
        -- split; [apply elem_of_cons; by left|done].
        -- split; [apply elem_of_cons; by right|]. by eapply spec_dominates_trans.
      * intros y Hy. apply elem_of_cons in Hy as [->|Hy]; [|by apply Hmin'].
        destruct Hm' as [->|[_ Hm']]; [apply spec_dominates_irrefl|].
        intros Hd. eapply spec_dominates_irrefl, spec_dominates_trans; done.
    + exists m. split.
      * destruct Hm as [->|[Hin Hm]]; [by left|right].
        split; [apply elem_of_cons; by right|done].
      * intros y Hy. apply elem_of_cons in Hy as [->|Hy]; [|by apply Hmin].
        rewrite <- dominates_spec. congruence.
Qed.

Lemma elem_of_filter_dominated results r :
  r ∈ _filter_dominated results ↔
  r ∈ results ∧ ∀ r', r' ∈ results → ¬ spec_dominates r' r.
Proof.
  rewrite filter_dominated_eq, list_elem_of_In, filter_In, <- list_elem_of_In.
  rewrite negb_true_iff, <- not_true_iff_false, dominated_by_true.
  split; intros [Hin Hnd]; (split; [done|]).
  - intros r' Hr' Hd. apply Hnd. exists r'. by rewrite dominates_spec.
  - intros (r' & Hr' & Hd). apply (Hnd r' Hr'). by apply dominates_spec.
Qed.

Lemma list_filter_sublist {A} (P : A → bool) (l : list A) : List.filter P l `sublist_of` l.
Proof.
  induction l as [|x l IH]; cbn; [done|].
  destruct (P x); [by apply sublist_skip|by apply sublist_cons].
Qed.

End FrontFacts.

Module FrontSpec.
Import Lqa RouteResult ParetoFrontGenerator ParetoFacts FrontFacts.
Local Open Scope Q_scope.

(** X9. [_filter_dominated] returns the Pareto front of its argument:
    the results that no result of the list dominates, in their order;
    every result of the list is in the front or dominated by a result of
    the front; a list that is not empty has a front that is not empty. *)
Theorem filter_dominated_front (results : list RouteResult.t) :
  (∀ r, r ∈ _filter_dominated results ↔
        r ∈ results ∧ ∀ r', r' ∈ results → ¬ spec_dominates r' r) ∧
  _filter_dominated results `sublist_of` results ∧
  (∀ r, r ∈ results →
        ∃ r', r' ∈ _filter_dominated results ∧ (r' = r ∨ spec_dominates r' r)) ∧
  (results ≠ [] → _filter_dominated results ≠ []).
Proof.
  assert (Hcover : ∀ r, r ∈ results →
            ∃ r', r' ∈ _filter_dominated results ∧ (r' = r ∨ spec_dominates r' r)).
  { intros r Hr. destruct (minimal_dominator results r) as (m & Hm & Hmin).
    exists m. split.
    - apply elem_of_filter_dominated. split; [|done].
      by destruct Hm as [->|[Hin _]].
    - destruct Hm as [->|[_ Hm]]; [by left|by right]. }
  split_and!.
  - apply elem_of_filter_dominated.
  - rewrite filter_dominated_eq. apply list_filter_sublist.
  - exact Hcover.
  - destruct results as [|r results]; [done|]. intros _ Hnil.
    destruct (Hcover r) as (r' & Hin & _); [apply elem_of_cons; by left|].
    rewrite Hnil in Hin. by apply elem_of_nil in Hin.
Qed.

(** A quick route and one that is slower and riskier. *)
Definition quick : RouteResult.t :=
  RouteResult.mk [] [0; 1; 3]%Z 18 15 (3 # 10) (1 # 2) (6 # 10) [] "pareto_1" (95 # 100).
Definition slow : RouteResult.t :=
  RouteResult.mk [] [0; 4; 3]%Z 30 20 (3 # 10) (7 # 10) (8 # 10) [] "pareto_2" (93 # 100).

Lemma filter_dominated_front_witness : _filter_dominated [quick; slow] ≠ [].
Proof.
  apply (proj2 (proj2 (proj2 (filter_dominated_front [quick; slow])))).
  discriminate.
Defined.

End FrontSpec.
(** ** [_generate_weights], [recommend_solution] and [generate] *)

Module ParetoMethods.
Import RouteResult CVaRRouter ParetoFrontGenerator.
Local Open Scope Q_scope.

(** [utils/constants.py] *)
Definition PARETO_NUM_POINTS : Z := 5.
Definition PARETO_WEIGHTS : list (Q * Q) :=
  [(1, 0); (3 # 4, 1 # 4); (1 # 2, 1 # 2); (1 # 4, 3 # 4); (0, 1)].

(** [range(n)]: empty for [n <= 0]. *)
Definition range (n : Z) : list Z := seqZ 0 n.

(** [l[:n]]: a negative [n] counts from the end. *)
Definition slice_to {A} (l : list A) (n : Z) : list A :=
  if (0 <=? n)%Z then take (Z.to_nat n) l
  else take (Z.to_nat (Py.len l + n)) l.

(** [min(l)] and [max(l)]: [ValueError] on an empty list. *)
Definition min_list (l : list Q) : Res Q :=
  match l with
  | [] => Raise ValueError
  | first :: rest => Ok (foldl Py.min first rest)
  end.

Definition max_list (l : list Q) : Res Q :=
  match l with
  | [] => Raise ValueError
  | first :: rest => Ok (foldl Py.max first rest)
  end.

(** [_generate_weights(num_points)] *)
Definition _generate_weights (num_points : Z) : list (Q * Q) :=
  List.map (fun i =>
              let ratio :=
                if (1 <? num_points)%Z
                then inject_Z i / inject_Z (num_points - 1) else 1 # 2 in
              let weight_time := 1 - ratio in
              let weight_risk := ratio in
              (weight_time, weight_risk))
           (range num_points).

(** The score of one result in the loop of [recommend_solution]. *)
Definition score (urgency risk_aversion time_min time_range risk_min risk_range : Q)
    (result : RouteResult.t) : Q :=
  let time_norm := (time_minutes result - time_min) / time_range in
  let risk_norm := (cvar_95 result - risk_min) / risk_range in
  urgency * time_norm + risk_aversion * risk_norm.

(** One round of that loop; the score [None] is [float("inf")]. *)
Definition best_step (score_of : RouteResult.t → Q)
    (best : option RouteResult.t * option Q) (result : RouteResult.t)
  : option RouteResult.t * option Q :=
  let '(best_result, best_score) := best in
  let score := score_of result in
  let better :=
    match best_score with
    | None => true
    | Some b => Py.lt score b
    end in
  if better then (Some result, Some score) else (best_result, best_score).

(** [recommend_solution(pareto_front, urgency, risk_aversion)]; the
    result [None] is Python's [None]. *)
Definition recommend_solution (pareto_front : list RouteResult.t)
    (urgency risk_aversion : Q) : Res (option RouteResult.t) :=
  match pareto_front with
  | [] => Raise ValueError
  | [only] => Ok (Some only)
  | _ =>
      let time_values := List.map time_minutes pareto_front in
      let risk_values := List.map cvar_95 pareto_front in
      time_min ← min_list time_values;
      time_max ← max_list time_values;
      risk_min ← min_list risk_values;
      risk_max ← max_list risk_values;
      let time_range := if Py.lt time_min time_max then time_max - time_min else 1 in
      let risk_range := if Py.lt risk_min risk_max then risk_max - risk_min else 1 in
      let best :=
        foldl (best_step (score urgency risk_aversion time_min time_range
                            risk_min risk_range))
              (None, None) pareto_front in
      Ok best.1
  end.

Section Generate.
Context `{MathLib, NumpyRandom, Networkx, Pyomo}.

(** [f"{x:.2f}"] *)
Variable format_2f : Q → string.

(** [result.method = ...] *)
Definition set_method (r : RouteResult.t) (method : string) : RouteResult.t :=
  RouteResult.mk (RouteResult.path r) (RouteResult.node_path r)
    (RouteResult.time_minutes r) (RouteResult.distance_km r)
    (RouteResult.mean_risk r) (RouteResult.cvar_95 r) (RouteResult.cvar_99 r)
    (RouteResult.waypoints r) method (RouteResult.survival_probability r).

(** [f"pareto_{i+1} (t={weight_time:.2f}, r={weight_risk:.2f})"] *)
Definition point_label (i : nat) (weight_time weight_risk : Q) : string :=
  "pareto_" +:+ pretty (i + 1)%nat +:+ " (t=" +:+ format_2f weight_time
  +:+ ", r=" +:+ format_2f weight_risk +:+ ")".

(** The body of the loop of [generate]: a point that cannot be computed
    is skipped. *)
Definition pareto_point (self : CVaRRouter.t) (origin destination : Z)
    (cargo_value : Q) (results : list RouteResult.t) (item : nat * (Q * Q))
  : M (list RouteResult.t) :=
  let '(i, (weight_time, weight_risk)) := item in
  Call.try_except
    (result ← optimize self origin destination cargo_value weight_time weight_risk
                CVAR_SOLVER;
     mret (results ++ [set_method result (point_label i weight_time weight_risk)]))
    (fun _ => mret results).

Fixpoint pareto_loop (self : CVaRRouter.t) (origin destination : Z)
    (cargo_value : Q) (results : list RouteResult.t) (items : list (nat * (Q * Q)))
  : M (list RouteResult.t) :=
  match items with
  | [] => mret results
  | item :: items' =>
      results' ← pareto_point self origin destination cargo_value results item;
      pareto_loop self origin destination cargo_value results' items'
  end.

(** [generate(origin, destination, cargo_value, num_points)] *)
Definition generate (self : CVaRRouter.t) (origin destination : Z)
    (cargo_value : Q) (num_points : Z) : M (list RouteResult.t) :=
  let weights :=
    if (num_points <=? Py.len PARETO_WEIGHTS)%Z then PARETO_WEIGHTS
    else _generate_weights num_points in
  results ← pareto_loop self origin destination cargo_value []
              (Py.enumerate (slice_to weights num_points));
  mret (_filter_dominated results).

End Generate.
End ParetoMethods.
Module ParetoMethodsFacts.
Import Lqa ParetoFrontGenerator ParetoFacts FrontFacts ParetoMethods.
Local Open Scope Q_scope.

Lemma lookup_map {A B} (f : A → B) (l : list A) i : List.map f l !! i = f <$> l !! i.
Proof. revert i. induction l as [|x l IH]; intros [|i]; cbn; auto. Qed.

Lemma lt_bool_false a b : Py.lt a b = false ↔ b <= a.
Proof.
  unfold Py.lt. rewrite negb_false_iff. apply Qle_bool_iff.
Qed.

(** ** The weights *)

Lemma ratio_bounds i d : (0 ≤ i ≤ d)%Z → (0 < d)%Z →
  0 <= inject_Z i / inject_Z d ∧ inject_Z i / inject_Z d <= 1.
Proof.
  intros Hi Hd.
  assert (0 < inject_Z d) as Hpos by (change 0 with (inject_Z 0); by rewrite <- Zlt_Qlt).
  assert (0 <= inject_Z i) by (change 0 with (inject_Z 0); rewrite <- Zle_Qle; lia).
  assert (inject_Z i <= inject_Z d) by (rewrite <- Zle_Qle; lia).
  split.
  - apply Qle_shift_div_l; [done|]. lra.
  - apply Qle_shift_div_r; [done|]. lra.
Qed.

Lemma ratio_increasing i j d : (i < j)%Z → (0 < d)%Z →
  inject_Z i / inject_Z d < inject_Z j / inject_Z d.
Proof.
  intros Hij Hd.
  assert (0 < inject_Z d) as Hpos by (change 0 with (inject_Z 0); by rewrite <- Zlt_Qlt).
  assert (inject_Z i < inject_Z j) by (by rewrite <- Zlt_Qlt).
  unfold Qdiv. apply Qmult_lt_compat_r; [|done]. by apply Qinv_lt_0_compat.
Qed.

Lemma generate_weights_lookup num_points i w :
  _generate_weights num_points !! i = Some w ↔
  (Z.of_nat i < num_points)%Z ∧
  w = (let ratio := if (1 <? num_points)%Z
                    then inject_Z (Z.of_nat i) / inject_Z (num_points - 1)
                    else 1 # 2 in
       (1 - ratio, ratio)).
Proof.
  unfold _generate_weights, range. rewrite lookup_map. split.
  - intros Hw. apply fmap_Some in Hw as (k & Hk & ->).
    apply lookup_seqZ in Hk as [-> Hlt]. rewrite Z.add_0_l. done.
  - intros [Hlt ->]. apply fmap_Some. exists (Z.of_nat i). split; [|done].
    apply lookup_seqZ. split; [lia|done].
Qed.

(** ** The recommended result *)

Section Best.
Variable score_of : RouteResult.t → Q.

(** [best] is the first result of [seen] with the least score. *)
Definition least (seen : list RouteResult.t)
    (best : option RouteResult.t * option Q) : Prop :=
  ∃ r, best = (Some r, Some (score_of r)) ∧ r ∈ seen ∧
       ∀ r', r' ∈ seen → score_of r <= score_of r'.

Lemma best_step_least seen best result :
  (seen = [] ∧ best = (None, None)) ∨ least seen best →
  least (seen ++ [result]) (best_step score_of best result).
Proof.
  intros [[-> ->]|(r & -> & Hin & Hmin)]; cbn.
  - exists result. split_and!; [done|apply elem_of_cons; by left|].
    intros r' Hr'. apply list_elem_of_singleton in Hr' as ->. lra.
  - destruct (Py.lt (score_of result) (score_of r)) eqn:E.
    + apply lt_bool_iff in E. exists result. split_and!; [done| |].
      * apply elem_of_app. right. apply elem_of_cons. by left.
      * intros r' Hr'. apply elem_of_app in Hr' as [Hr'|Hr'].
        -- specialize (Hmin r' Hr'). lra.
        -- apply list_elem_of_singleton in Hr' as ->. lra.
    + apply lt_bool_false in E. exists r. split_and!; [done| |].
      * apply elem_of_app. by left.
      * intros r' Hr'. apply elem_of_app in Hr' as [Hr'|Hr'].
        -- by apply Hmin.
        -- by apply list_elem_of_singleton in Hr' as ->.
Qed.

Lemma best_fold_least rest seen best :
  (seen = [] ∧ best = (None, None)) ∨ least seen best →
  seen ++ rest ≠ [] →
  least (seen ++ rest) (foldl (best_step score_of) best rest).
Proof.
  revert seen best. induction rest as [|result rest IH]; intros seen best Hb Hne.
  - rewrite app_nil_r in *. cbn. destruct Hb as [[-> _]|Hb]; done.
  - cbn [foldl]. replace (seen ++ result :: rest) with ((seen ++ [result]) ++ rest)
      by (by rewrite <- app_assoc).
    apply IH.
    + right. by apply best_step_least.
    + destruct seen; done.
Qed.

End Best.

Lemma range_positive (lo hi : Q) : 0 < (if Py.lt lo hi then hi - lo else 1).
Proof.
  destruct (Py.lt lo hi) eqn:E; [|lra]. apply lt_bool_iff in E. lra.
Qed.

(** [hi - lo if hi > lo else 1.0] *)
Definition range_of (lo hi : Q) : Q := if Py.lt lo hi then hi - lo else 1.

(** [m] is a value of the list and no value is below it, or above it. *)
Definition least_of (m : Q) (values : list Q) : Prop :=
  m ∈ values ∧ ∀ x, x ∈ values → m <= x.

Definition greatest_of (m : Q) (values : list Q) : Prop :=
  m ∈ values ∧ ∀ x, x ∈ values → x <= m.

Lemma min_cases a b : (Py.min a b = a ∧ a <= b) ∨ (Py.min a b = b ∧ b < a).
Proof.
  unfold Py.min. destruct (Py.lt b a) eqn:E.
  - right. by apply lt_bool_iff in E.
  - left. by apply lt_bool_false in E.
Qed.

Lemma max_cases a b : (Py.max a b = a ∧ b <= a) ∨ (Py.max a b = b ∧ a < b).
Proof.
  unfold Py.max. destruct (Py.lt a b) eqn:E.
  - right. by apply lt_bool_iff in E.
  - left. by apply lt_bool_false in E.
Qed.

Lemma min_list_least first rest :
  least_of (foldl Py.min first rest) (first :: rest).
Proof.
  revert first. induction rest as [|x rest IH]; intros first; cbn [foldl].
  - split; [apply elem_of_cons; by left|].
    intros y Hy. apply list_elem_of_singleton in Hy as ->. lra.
  - destruct (IH (Py.min first x)) as [Hin Hle].
    assert (Hm : foldl Py.min (Py.min first x) rest <= Py.min first x)
      by (apply Hle, elem_of_cons; by left).
    destruct (min_cases first x) as [[E Hfx]|[E Hxf]]; rewrite E in *.
    + split.
      * apply elem_of_cons in Hin as [->|Hin]; [apply elem_of_cons; by left|].
        do 2 (apply elem_of_cons; right). done.
      * intros y Hy. apply elem_of_cons in Hy as [->|Hy]; [done|].
        apply elem_of_cons in Hy as [->|Hy]; [lra|].
        apply Hle. apply elem_of_cons. by right.
    + split.
      * apply elem_of_cons. right. done.
      * intros y Hy. apply elem_of_cons in Hy as [->|Hy]; [lra|].
        by apply Hle.
Qed.

Lemma max_list_greatest first rest :
  greatest_of (foldl Py.max first rest) (first :: rest).
Proof.
  revert first. induction rest as [|x rest IH]; intros first; cbn [foldl].
  - split; [apply elem_of_cons; by left|].
    intros y Hy. apply list_elem_of_singleton in Hy as ->. lra.
  - destruct (IH (Py.max first x)) as [Hin Hle].
    assert (Hm : Py.max first x <= foldl Py.max (Py.max first x) rest)
      by (apply Hle, elem_of_cons; by left).
    destruct (max_cases first x) as [[E Hfx]|[E Hxf]]; rewrite E in *.
    + split.
      * apply elem_of_cons in Hin as [->|Hin]; [apply elem_of_cons; by left|].
        do 2 (apply elem_of_cons; right). done.
      * intros y Hy. apply elem_of_cons in Hy as [->|Hy]; [done|].
        apply elem_of_cons in Hy as [->|Hy]; [lra|].
        apply Hle. apply elem_of_cons. by right.
    + split.
      * apply elem_of_cons. right. done.
      * intros y Hy. apply elem_of_cons in Hy as [->|Hy]; [lra|].
        by apply Hle.
Qed.

(** The run of [recommend_solution] on a front that is not empty: the
    minima, the maxima and the ranges are those of the front. *)
Lemma recommend_solution_run pareto_front urgency risk_aversion :
  pareto_front ≠ [] →
  ∃ r time_min time_max risk_min risk_max,
    recommend_solution pareto_front urgency risk_aversion = Ok (Some r) ∧
    r ∈ pareto_front ∧
    least_of time_min (List.map RouteResult.time_minutes pareto_front) ∧
    greatest_of time_max (List.map RouteResult.time_minutes pareto_front) ∧
    least_of risk_min (List.map RouteResult.cvar_95 pareto_front) ∧
    greatest_of risk_max (List.map RouteResult.cvar_95 pareto_front) ∧
    0 < range_of time_min time_max ∧ 0 < range_of risk_min risk_max ∧
    ∀ r', r' ∈ pareto_front →
      score urgency risk_aversion time_min (range_of time_min time_max)
        risk_min (range_of risk_min risk_max) r
      <= score urgency risk_aversion time_min (range_of time_min time_max)
           risk_min (range_of risk_min risk_max) r'.
Proof.
  intros Hne. destruct pareto_front as [|r0 [|r1 rest]]; [done|..].
  - exists r0, (RouteResult.time_minutes r0), (RouteResult.time_minutes r0),
      (RouteResult.cvar_95 r0), (RouteResult.cvar_95 r0).
    split; [done|]. split; [apply elem_of_cons; by left|].
    split; [apply (min_list_least _ [])|]. split; [apply (max_list_greatest _ [])|].
    split; [apply (min_list_least _ [])|]. split; [apply (max_list_greatest _ [])|].
    split; [apply range_positive|]. split; [apply range_positive|].
    intros r' Hr'. apply list_elem_of_singleton in Hr' as ->. lra.
  - cbn [recommend_solution List.map min_list max_list mbind Res_bind].
    match goal with
    | |- context [foldl (best_step ?f) _ ?l] =>
        destruct (best_fold_least f l [] (None, None)) as (r & Hbest & Hin & Hmin);
          [by left|done|]
    end.
    rewrite app_nil_l in *. eexists r, _, _, _, _. rewrite Hbest.
    split; [done|]. split; [done|].
    split; [apply min_list_least|]. split; [apply max_list_greatest|].
    split; [apply min_list_least|]. split; [apply max_list_greatest|].
    split; [apply range_positive|]. split; [apply range_positive|].
    exact Hmin.
Qed.

End ParetoMethodsFacts.

Module ParetoMethodsSpec.
Import Lqa ParetoFrontGenerator ParetoFacts FrontFacts ParetoMethods ParetoMethodsFacts.
Local Open Scope Q_scope.

(** X10. [_generate_weights(n)] returns [n] pairs (none for [n <= 0]);
    in exact arithmetic every pair is a convex combination (both weights
    in the unit interval, summing to 1), the risk weight increases
    strictly along the list, and for [n >= 2] the list runs from (1, 0)
    to (0, 1). *)
Theorem generate_weights_convex (num_points : Z) :
  length (_generate_weights num_points) = Z.to_nat num_points ∧
  (∀ weight_time weight_risk,
     (weight_time, weight_risk) ∈ _generate_weights num_points →
     weight_time + weight_risk == 1 ∧ 0 <= weight_risk <= 1 ∧ 0 <= weight_time <= 1) ∧
  (∀ i j wi wj, (i < j)%nat →
     _generate_weights num_points !! i = Some wi →
     _generate_weights num_points !! j = Some wj → wi.2 < wj.2) ∧
  ((2 ≤ num_points)%Z →
   ∃ first final,
     head (_generate_weights num_points) = Some first ∧
     last (_generate_weights num_points) = Some final ∧
     first.1 == 1 ∧ first.2 == 0 ∧ final.1 == 0 ∧ final.2 == 1).
Proof.
  split_and!.
  - unfold _generate_weights, range. by rewrite length_map, length_seqZ.
  - intros wt wr Hin. apply list_elem_of_lookup in Hin as [i Hi].
    apply generate_weights_lookup in Hi as [Hlt [= -> ->]].
    destruct (Z.ltb_spec 1 num_points) as [Hn|Hn].
    + destruct (ratio_bounds (Z.of_nat i) (num_points - 1)) as [Hlo Hhi]; [lia..|].
      split_and!; lra.
    + split_and!; lra.
  - intros i j wi wj Hij Hi Hj.
    apply generate_weights_lookup in Hi as [Hlti ->].
    apply generate_weights_lookup in Hj as [Hltj ->]. cbn [snd].
    destruct (Z.ltb_spec 1 num_points) as [Hn|Hn]; [|lia].
    apply ratio_increasing; lia.
  - intros Hn.
    assert (Hfirst : _generate_weights num_points !! 0%nat
                     = Some (1 - inject_Z 0 / inject_Z (num_points - 1),
                             inject_Z 0 / inject_Z (num_points - 1))).
    { apply generate_weights_lookup. split; [lia|].
      destruct (Z.ltb_spec 1 num_points); [done|lia]. }
    assert (Hfinal : _generate_weights num_points !! Z.to_nat (num_points - 1)
                     = Some (1 - inject_Z (num_points - 1) / inject_Z (num_points - 1),
                             inject_Z (num_points - 1) / inject_Z (num_points - 1))).
    { apply generate_weights_lookup. split; [lia|].
      rewrite Z2Nat.id by lia. destruct (Z.ltb_spec 1 num_points); [done|lia]. }
    assert (Hone : inject_Z (num_points - 1) / inject_Z (num_points - 1) == 1).
    { apply Qmult_inv_r. change 0 with (inject_Z 0). rewrite inject_Z_injective. lia. }
    eexists _, _. split_and!.
    + rewrite head_lookup. exact Hfirst.
    + rewrite last_lookup.
      replace (Init.Nat.pred (length (_generate_weights num_points)))
        with (Z.to_nat (num_points - 1)); [exact Hfinal|].
      unfold _generate_weights, range. rewrite length_map, length_seqZ. lia.
    + cbn [fst]. unfold Qdiv. change (inject_Z 0) with 0. ring.
    + cbn [snd]. unfold Qdiv. change (inject_Z 0) with 0. ring.
    + cbn [fst]. rewrite Hone. ring.
    + cbn [snd]. exact Hone.
Qed.

Lemma generate_weights_convex_witness :
  ∃ first final,
    head (_generate_weights 6) = Some first ∧
    last (_generate_weights 6) = Some final ∧
    first.1 == 1 ∧ first.2 == 0 ∧ final.1 == 0 ∧ final.2 == 1.
Proof.
  apply (proj2 (proj2 (proj2 (generate_weights_convex 6)))). lia.
Defined.

(** X11. [recommend_solution] raises [ValueError] on an empty front; on
    any other front it returns a result of the front, never [None], and
    that result has the least score
    [urgency * (time - time_min) / time_range
     + risk_aversion * (risk - risk_min) / risk_range]
    among the results of the front, where [time_min] and [time_max] are
    the least and the greatest [time_minutes] of the front, [risk_min]
    and [risk_max] the least and the greatest [cvar_95], and a range is
    the maximum less the minimum, or 1 when they coincide; the ranges
    are positive. *)
Theorem recommend_solution_minimises pareto_front urgency risk_aversion :
  recommend_solution [] urgency risk_aversion = Raise ValueError ∧
  (pareto_front ≠ [] →
   ∃ r time_min time_max risk_min risk_max,
     recommend_solution pareto_front urgency risk_aversion = Ok (Some r) ∧
     r ∈ pareto_front ∧
     least_of time_min (List.map RouteResult.time_minutes pareto_front) ∧
     greatest_of time_max (List.map RouteResult.time_minutes pareto_front) ∧
     least_of risk_min (List.map RouteResult.cvar_95 pareto_front) ∧
     greatest_of risk_max (List.map RouteResult.cvar_95 pareto_front) ∧
     0 < range_of time_min time_max ∧ 0 < range_of risk_min risk_max ∧
     ∀ r', r' ∈ pareto_front →
       score urgency risk_aversion time_min (range_of time_min time_max)
         risk_min (range_of risk_min risk_max) r
       <= score urgency risk_aversion time_min (range_of time_min time_max)
            risk_min (range_of risk_min risk_max) r').
Proof. split; [done|]. apply recommend_solution_run. Qed.

Lemma recommend_solution_minimises_witness :
  ∃ r time_min time_max risk_min risk_max,
    recommend_solution [FrontSpec.quick; FrontSpec.slow] (1 # 2) (1 # 2) = Ok (Some r) ∧
    r ∈ [FrontSpec.quick; FrontSpec.slow] ∧
    least_of time_min
      (List.map RouteResult.time_minutes [FrontSpec.quick; FrontSpec.slow]) ∧
    greatest_of time_max
      (List.map RouteResult.time_minutes [FrontSpec.quick; FrontSpec.slow]) ∧
    least_of risk_min (List.map RouteResult.cvar_95 [FrontSpec.quick; FrontSpec.slow]) ∧
    greatest_of risk_max
      (List.map RouteResult.cvar_95 [FrontSpec.quick; FrontSpec.slow]) ∧
    0 < range_of time_min time_max ∧ 0 < range_of risk_min risk_max ∧
    ∀ r', r' ∈ [FrontSpec.quick; FrontSpec.slow] →
      score (1 # 2) (1 # 2) time_min (range_of time_min time_max)
        risk_min (range_of risk_min risk_max) r
      <= score (1 # 2) (1 # 2) time_min (range_of time_min time_max)
           risk_min (range_of risk_min risk_max) r'.
Proof.
  apply (proj2 (recommend_solution_minimises [FrontSpec.quick; FrontSpec.slow]
                  (1 # 2) (1 # 2))).
  discriminate.
Defined.

(** On the two sample routes the minima are those of the quick route,
    the ranges 12 minutes and 0.2, and the quick route is recommended. *)
Example recommend_quick :
  recommend_solution [FrontSpec.quick; FrontSpec.slow] (1 # 2) (1 # 2)
  = Ok (Some FrontSpec.quick).
Proof. reflexivity. Qed.

(** X12. With a positive urgency and no risk aversion the recommended
    result is a fastest result of the front; with a positive risk
    aversion and no urgency it is one of least CVaR-95. *)
Theorem recommend_solution_extremes pareto_front urgency risk_aversion r :
  recommend_solution pareto_front urgency risk_aversion = Ok (Some r) →
  (0 < urgency → risk_aversion == 0 →
   ∀ r', r' ∈ pareto_front →
         RouteResult.time_minutes r <= RouteResult.time_minutes r') ∧
  (urgency == 0 → 0 < risk_aversion →
   ∀ r', r' ∈ pareto_front → RouteResult.cvar_95 r <= RouteResult.cvar_95 r').
Proof.
  intros Hrun.
  assert (Hne : pareto_front ≠ []) by (by intros ->).
  destruct (recommend_solution_run pareto_front urgency risk_aversion Hne)
    as (r0 & tmin & tmax & rmin & rmax & Hr0 & _ & _ & _ & _ & _ & Htr & Hrr & Hmin).
  rewrite Hrun in Hr0. injection Hr0 as <-.
  set (tr := range_of tmin tmax) in *. set (rr := range_of rmin rmax) in *.
  assert (Hitr : 0 < / tr) by (by apply Qinv_lt_0_compat).
  assert (Hirr : 0 < / rr) by (by apply Qinv_lt_0_compat).
  split.
  - intros Hu Ha r' Hr'. specialize (Hmin r' Hr'). unfold score, Qdiv in Hmin.
    rewrite Ha, !Qmult_0_l, !Qplus_0_r in Hmin.
    apply Qmult_le_l in Hmin; [|done]. apply Qmult_le_r in Hmin; [|done]. lra.
  - intros Hu Ha r' Hr'. specialize (Hmin r' Hr'). unfold score, Qdiv in Hmin.
    rewrite Hu, !Qmult_0_l, !Qplus_0_l in Hmin.
    apply Qmult_le_l in Hmin; [|done]. apply Qmult_le_r in Hmin; [|done]. lra.
Qed.

Lemma recommend_solution_extremes_witness :
  RouteResult.time_minutes FrontSpec.quick <= RouteResult.time_minutes FrontSpec.slow.
Proof.
  apply (proj1 (recommend_solution_extremes [FrontSpec.slow; FrontSpec.quick]
                  1 0 FrontSpec.quick eq_refl)).
  - reflexivity.
  - reflexivity.
  - apply elem_of_cons. by left.
Defined.

End ParetoMethodsSpec.
Module GenerateSpec.
Import Lqa CVaRRouter ParetoFrontGenerator ParetoFacts FrontFacts ParetoMethods.
Import Frame RouterFacts.

Section Generate.
Context `{MathLib, NumpyRandom, Networkx, Pyomo}.
Variable format_2f : Q → string.

(** A point of the front is computed or skipped; neither raises nor
    touches the graph. *)
Lemma pareto_point_run self o d c results item s :
  ∃ out s',
    pareto_point format_2f self o d c results item s = (Ok out, s') ∧
    graph s' = graph s ∧ (length out ≤ length results + 1)%nat.
Proof.
  destruct item as [i [weight_time weight_risk]].
  unfold pareto_point, Call.try_except, mbind, M_bind.
  pose proof (optimize_keeps self o d c weight_time weight_risk CVAR_SOLVER s) as Hk.
  destruct (optimize self o d c weight_time weight_risk CVAR_SOLVER s)
    as [[r|e] s1]; cbn in *.
  - eexists _, _. split_and!; [done..|]. rewrite length_app. cbn. lia.
  - eexists _, _. split_and!; [done..|]. lia.
Qed.

Lemma pareto_loop_run self o d c items results s :
  ∃ out s',
    pareto_loop format_2f self o d c results items s = (Ok out, s') ∧
    graph s' = graph s ∧ (length out ≤ length results + length items)%nat.
Proof.
  revert results s. induction items as [|item items IH]; intros results s.
  - exists results, s. split_and!; [done..|]. lia.
  - cbn [pareto_loop]. unfold mbind at 1, M_bind at 1.
    destruct (pareto_point_run self o d c results item s)
      as (out1 & s1 & -> & Hg1 & Hl1).
    destruct (IH out1 s1) as (out & s' & -> & Hg & Hl).
    exists out, s'. split_and!; [done|congruence|]. cbn [length]. lia.
Qed.

Lemma slice_to_length (num_points : Z) :
  let weights :=
    if (num_points <=? Py.len PARETO_WEIGHTS)%Z then PARETO_WEIGHTS
    else _generate_weights num_points in
  (length (slice_to weights num_points)
   ≤ Z.to_nat (if (num_points <? 0)%Z then 5 + num_points else num_points))%nat.
Proof.
  cbn zeta. unfold slice_to.
  destruct (Z.ltb_spec num_points 0) as [Hneg|Hpos].
  - destruct (Z.leb_spec 0 num_points); [lia|].
    change (Py.len PARETO_WEIGHTS) with 5%Z.
    destruct (Z.leb_spec num_points 5) as [_|Hgt]; [|lia].
    change (Py.len PARETO_WEIGHTS) with 5%Z. rewrite length_take. lia.
  - destruct (Z.leb_spec 0 num_points); [|lia]. rewrite length_take. lia.
Qed.

(** X13. [generate] never raises, whatever the router and the solver
    do, and leaves the graph as it was; the front it returns has at most
    [num_points] results (at most [5 + num_points] for a negative
    [num_points], which slices the default weights from the end), and no
    result of the front dominates another one. *)
Theorem generate_front self origin destination cargo_value (num_points : Z) s :
  ∃ front s',
    generate format_2f self origin destination cargo_value num_points s
    = (Ok front, s') ∧
    graph s' = graph s ∧
    (length front
     ≤ Z.to_nat (if (num_points <? 0)%Z then 5 + num_points else num_points))%nat ∧
    ∀ a b, a ∈ front → b ∈ front → ¬ spec_dominates a b.
Proof.
  unfold generate, mbind, M_bind.
  match goal with
  | |- context [pareto_loop _ _ _ _ _ _ ?items s] =>
      destruct (pareto_loop_run self origin destination cargo_value items [] s)
        as (results & s' & -> & Hg & Hl)
  end.
  exists (_filter_dominated results), s'. split_and!; [done|done| |].
  - etrans; [apply sublist_length; rewrite filter_dominated_eq;
             apply list_filter_sublist|].
    etrans; [exact Hl|]. cbn [length Nat.add]. unfold Py.enumerate.
    rewrite RouterMore.enumerate_from_length. apply slice_to_length.
  - intros a b Ha Hb. apply elem_of_filter_dominated in Hb as [_ Hb].
    apply Hb. by apply elem_of_filter_dominated in Ha as [Ha _].
Qed.

End Generate.
End GenerateSpec.

Module GenerateRuns.
Import CVaRRouter ParetoFacts ParetoMethods Sample.
#[local] Existing Instances taylor_exp lcg search no_solver.
Local Open Scope Q_scope.

(** A stand-in for the two-decimal format: the number of hundredths. *)
Definition hundredths (q : Q) : string := pretty (Qfloor (q * 100)).

Lemma generate_front_witness :
  ∃ front s',
    generate hundredths router 0 3 7 5 (start simple_graph) = (Ok front, s') ∧
    graph s' = graph (start simple_graph) ∧
    (length front ≤ Z.to_nat (if (5 <? 0)%Z then 5 + 5 else 5))%nat ∧
    ∀ a b, a ∈ front → b ∈ front → ¬ spec_dominates a b.
Proof.
  apply (GenerateSpec.generate_front hundredths router 0 3 7 5 (start simple_graph)).
Defined.

(** Without a solver every point falls back to the fastest route; the
    five results differ in the risk under their own scenario draws, and
    the one of least CVaR-95 is the whole front. *)
Example generate_without_solver :
  List.map RouteResult.node_path
    match (generate hundredths router 0 3 7 5 (start simple_graph)).1 with
    | Ok front => front
    | Raise _ => []
    end
  = [[0; 1; 2; 3]%Z].
Proof. vm_compute. reflexivity. Qed.

End GenerateRuns.

(* ===================================================================== *)
(** * Defender configurations and payoffs ([decision/game_theory.py]) *)
(* ===================================================================== *)

(** [np.random.randint(low, high)] on the generator of [NumpyRandom]. *)
Class NumpyRandint `{NumpyRandom} := {
  random_randint : Z → Z → rng → Z * rng
}.

(** A defender configuration: the dictionary with the keys ["patrols"]
    and ["effectiveness"]. *)
Module Defender.
Record config := mk {
  patrols : list (Q * Q);
  effectiveness : Q
}.
End Defender.

Module StackelbergMethods.
Import CVaRRouter StackelbergRouter.
Local Open Scope Q_scope.

(** [l[::3]] *)
Definition every_third {A} (l : list A) : list A :=
  List.map snd (List.filter (fun '(i, _) => Nat.eqb (i mod 3) 0) (Py.enumerate l)).

(** The positions collected from the routes. *)
Definition all_positions (routes : list RouteResult.t) : list (Q * Q) :=
  concat (List.map (fun route => every_third (RouteResult.path route)) routes).

Section Configs.
Context `{NumpyRandint}.

(** [for _ in range(num_patrols): if all_positions: ...] *)
Fixpoint patrol_loop (all_positions : list (Q * Q)) (n : nat) : M (list (Q * Q)) :=
  match n with
  | O => mret []
  | Datatypes.S n' =>
      match all_positions with
      | [] => patrol_loop all_positions n'
      | _ :: _ =>
          i ← Call.draw (random_randint 0 (Py.len all_positions));
          pos ← Call.lift (match Py.index all_positions i with
                           | Some pos => Ok pos
                           | None => Raise IndexError
                           end);
          rest ← patrol_loop all_positions n';
          mret (pos :: rest)
      end
  end.

(** One round of the loop over [range(m)]. *)
Definition defender_config (all_positions : list (Q * Q)) : M Defender.config :=
  num_patrols ← Call.draw (random_randint 2 6);
  patrol_positions ← patrol_loop all_positions (Z.to_nat num_patrols);
  effectiveness ← Call.draw (random_uniform (7 # 10) 1);
  mret (Defender.mk patrol_positions effectiveness).

Fixpoint configs_loop (all_positions : list (Q * Q)) (n : nat)
  : M (list Defender.config) :=
  match n with
  | O => mret []
  | Datatypes.S n' =>
      config ← defender_config all_positions;
      rest ← configs_loop all_positions n';
      mret (config :: rest)
  end.

(** [_generate_defender_configs(routes, m)] *)
Definition _generate_defender_configs (routes : list RouteResult.t) (m : Z)
  : M (list Defender.config) :=
  configs_loop (all_positions routes) (Z.to_nat m).

End Configs.

Section Payoff.
(** [utils.geo.haversine_distance], in kilometres. *)
Variable haversine_distance : Q → Q → Q → Q → Q.

(** The inner loop of [_calculate_interception_prob]; [None] is
    [float("inf")]. *)
Definition closer (patrol : Q * Q) (min_distance : option Q) (point : Q * Q)
  : option Q :=
  let '(route_lat, route_lon) := point in
  let distance := haversine_distance route_lat route_lon patrol.1 patrol.2 in
  Some (match min_distance with
        | None => distance
        | Some m => Py.min m distance
        end).

Definition closest (route_path : list (Q * Q)) (patrol : Q * Q) : option Q :=
  foldl (closer patrol) None route_path.

(** The body of its outer loop. *)
Definition patrol_exposure (route_path : list (Q * Q)) (effectiveness : Q)
    (patrol_factor : Q) (patrol : Q * Q) : Q :=
  match closest route_path patrol with
  | Some min_distance =>
      if Qle_bool min_distance GAME_PATROL_RADIUS_KM then
        let exposure := 1 - min_distance / GAME_PATROL_RADIUS_KM in
        patrol_factor + exposure * effectiveness
      else patrol_factor
  | None => patrol_factor
  end.

(** [_calculate_interception_prob(route, defender_config, cargo_value)] *)
Definition _calculate_interception_prob (route : RouteResult.t)
    (defender_config : Defender.config) (cargo_value : Q) : Q :=
  let base_risk := RouteResult.mean_risk route in
  let patrol_factor :=
    foldl (patrol_exposure (RouteResult.path route)
             (Defender.effectiveness defender_config))
          0 (Defender.patrols defender_config) in
  let total_prob := base_risk + patrol_factor * (3 # 10) in
  Py.min total_prob 1.

(** [_build_payoff_matrix(routes, defender_configs, cargo_value)], by rows. *)
Definition _build_payoff_matrix (routes : list RouteResult.t)
    (defender_configs : list Defender.config) (cargo_value : Q) : list (list Q) :=
  List.map (fun route =>
              List.map (fun config =>
                          - _calculate_interception_prob route config cargo_value)
                       defender_configs)
           routes.

End Payoff.
End StackelbergMethods.

Module PayoffFacts.
Import Lqa CVaRRouter StackelbergRouter StackelbergMethods ParetoFacts.
Import ParetoMethodsFacts.
Local Open Scope Q_scope.

Lemma min_le_l a b : Py.min a b <= a.
Proof.
  unfold Py.min. destruct (Py.lt b a) eqn:E; [|lra].
  apply lt_bool_iff in E. lra.
Qed.

Lemma min_mono a a' b : a <= a' → Py.min a b <= Py.min a' b.
Proof.
  intros Hle. unfold Py.min.
  destruct (Py.lt b a) eqn:E, (Py.lt b a') eqn:E';
    try apply lt_bool_iff in E; try apply lt_bool_iff in E';
    try apply lt_bool_false in E; try apply lt_bool_false in E'; lra.
Qed.

Lemma interception_prob_le_1 haversine_distance route defender_config cargo_value :
  _calculate_interception_prob haversine_distance route defender_config cargo_value
  <= 1.
Proof.
  unfold _calculate_interception_prob, Py.min.
  destruct (Py.lt 1 _) eqn:E; [lra|]. by apply lt_bool_false in E.
Qed.

Lemma sum_replicate n c : Py.sum (replicate n c) == inject_Z (Z.of_nat n) * c.
Proof.
  induction n as [|n IH]; [cbn; ring|].
  cbn [replicate Py.sum foldr]. fold (Py.sum (replicate n c)). rewrite IH.
  rewrite Nat2Z.inj_succ, <- Z.add_1_r, inject_Z_plus. ring.
Qed.

Lemma uniform_distribution K :
  (0 < K)%nat → Game.is_distribution K (Game.uniform K) = true.
Proof.
  intros HK. unfold Game.is_distribution, Game.uniform.
  assert (Hpos : 0 < inject_Z (Z.of_nat K)).
  { change 0 with (inject_Z 0). rewrite <- Zlt_Qlt. lia. }
  rewrite length_replicate, Nat.eqb_refl. cbn [andb].
  apply andb_true_intro. split.
  - apply forallb_forall. intros a Ha.
    apply list_elem_of_In, elem_of_replicate in Ha as [-> _].
    apply Qle_bool_iff, Qle_shift_div_l; [done|]. lra.
  - apply Qeq_bool_iff. rewrite sum_replicate. field. lra.
Qed.

Section Payoff.
Variable haversine_distance : Q → Q → Q → Q → Q.
Hypothesis distance_nonneg : ∀ lat1 lon1 lat2 lon2,
  0 <= haversine_distance lat1 lon1 lat2 lon2.

Lemma closest_nonneg route_path patrol d :
  closest haversine_distance route_path patrol = Some d → 0 <= d.
Proof.
  unfold closest.
  assert (∀ acc, match acc with None => True | Some m => 0 <= m end →
            match foldl (closer haversine_distance patrol) acc route_path
            with None => True | Some m => 0 <= m end) as Hgen.
  { induction route_path as [|[lat lon] rest IH]; intros acc Hacc; cbn [foldl]; [done|].
    apply IH. cbn. destruct acc as [m|]; [|apply distance_nonneg].
    unfold Py.min. destruct (Py.lt _ m); [apply distance_nonneg|done]. }
  intros Hd. specialize (Hgen None I). by rewrite Hd in Hgen.
Qed.

Lemma patrol_exposure_grows route_path effectiveness patrol_factor patrol :
  0 <= effectiveness →
  patrol_factor
  <= patrol_exposure haversine_distance route_path effectiveness patrol_factor patrol.
Proof.
  intros Heff. unfold patrol_exposure.
  destruct (closest haversine_distance route_path patrol) as [d|] eqn:E; [|lra].
  apply closest_nonneg in E.
  destruct (Qle_bool d GAME_PATROL_RADIUS_KM) eqn:Hd; [|lra].
  apply Qle_bool_iff in Hd. unfold GAME_PATROL_RADIUS_KM in *.
  assert (d / 3 <= 1) by (apply Qle_shift_div_r; lra).
  assert (0 <= (1 - d / 3) * effectiveness) by (apply Qmult_le_0_compat; lra).
  lra.
Qed.

Lemma patrol_factor_grows route_path effectiveness patrols patrol_factor :
  0 <= effectiveness →
  patrol_factor
  <= foldl (patrol_exposure haversine_distance route_path effectiveness)
           patrol_factor patrols.
Proof.
  intros Heff. revert patrol_factor.
  induction patrols as [|patrol patrols IH]; intros patrol_factor; cbn [foldl]; [lra|].
  eapply Qle_trans; [|apply IH]. by apply patrol_exposure_grows.
Qed.

End Payoff.
End PayoffFacts.

Module PayoffSpec.
Import Lqa CVaRRouter StackelbergRouter StackelbergMethods PayoffFacts.
Local Open Scope Q_scope.

Section Payoff.
Variable haversine_distance : Q → Q → Q → Q → Q.

(** X14. The interception probability is at most 1. If distances and
    the effectiveness of the configuration are not negative, patrols
    never lower it: it is at least the mean risk of the route capped at
    1, so it is in the unit interval whenever the mean risk is not
    negative. *)
Theorem interception_prob_bounds route defender_config cargo_value :
  let interception_prob :=
    _calculate_interception_prob haversine_distance route defender_config
      cargo_value in
  interception_prob <= 1 ∧
  ((∀ lat1 lon1 lat2 lon2, 0 <= haversine_distance lat1 lon1 lat2 lon2) →
   0 <= Defender.effectiveness defender_config →
   Py.min (RouteResult.mean_risk route) 1 <= interception_prob ∧
   (0 <= RouteResult.mean_risk route → 0 <= interception_prob)).
Proof.
  cbn zeta. split; [apply interception_prob_le_1|].
  unfold _calculate_interception_prob. intros Hdist Heff.
  pose proof (patrol_factor_grows haversine_distance Hdist (RouteResult.path route)
                (Defender.effectiveness defender_config)
                (Defender.patrols defender_config) 0 Heff) as Hgrow.
  assert (Hlow : Py.min (RouteResult.mean_risk route) 1
                 <= Py.min (RouteResult.mean_risk route
                            + foldl (patrol_exposure haversine_distance
                                       (RouteResult.path route)
                                       (Defender.effectiveness defender_config))
                                    0 (Defender.patrols defender_config) * (3 # 10)) 1).
  { apply min_mono. lra. }
  split; [done|]. intros Hbase. eapply Qle_trans; [|exact Hlow].
  unfold Py.min. destruct (Py.lt 1 _); lra.
Qed.

Context `{Nashpy}.

(** X15. The payoff matrix has a row for every route and a column for
    every configuration, and no entry is below -1. For at least one
    route, the strategy computed from it when there is a single route or
    nashpy lists no equilibrium is a probability vector over the routes. *)
Theorem payoff_matrix_game routes defender_configs cargo_value :
  let payoff_matrix :=
    _build_payoff_matrix haversine_distance routes defender_configs cargo_value in
  length payoff_matrix = length routes ∧
  Forall (fun row => length row = length defender_configs ∧
                     Forall (fun a => -1 <= a) row) payoff_matrix ∧
  (routes ≠ [] →
   length routes = 1%nat ∨
   support_enumeration payoff_matrix (List.map (List.map Qopp) payoff_matrix) = [] →
   Game.is_distribution (length routes) (_solve_zero_sum_game payoff_matrix) = true).
Proof.
  cbn zeta. unfold _build_payoff_matrix. split_and!.
  - by rewrite length_map.
  - apply Forall_forall. intros row Hrow.
    apply list_elem_of_In, in_map_iff in Hrow as (route & <- & _).
    split; [by rewrite length_map|].
    apply Forall_forall. intros a Ha.
    apply list_elem_of_In, in_map_iff in Ha as (config & <- & _).
    pose proof (interception_prob_le_1 haversine_distance route config cargo_value)
      as Hle.
    lra.
  - intros Hne Hcase. unfold _solve_zero_sum_game. rewrite length_map.
    destruct (Nat.eqb_spec (length routes) 1) as [->|Hk]; [done|].
    destruct Hcase as [? | ->]; [done|].
    apply uniform_distribution. destruct routes; [done|cbn; lia].
Qed.

End Payoff.
End PayoffSpec.
Module ConfigSpec.
Import Lqa CVaRRouter StackelbergMethods LoopFacts.
Local Open Scope Q_scope.

Section Configs.
Context `{NumpyRandint}.

(** What NumPy documents of the two draws: [randint(low, high)] is in
    [[low, high)], [uniform(low, high)] between its bounds. *)
Hypothesis randint_range : ∀ low high g,
  (low < high)%Z → (low ≤ (random_randint low high g).1 < high)%Z.
Hypothesis uniform_range : ∀ low high g,
  low <= high → low <= (random_uniform low high g).1 <= high.

Lemma draw_run {A} (f : rng → A * rng) s :
  Call.draw f s = (Ok (f (np_random s)).1, mkState (graph s) (f (np_random s)).2).
Proof. unfold Call.draw. by destruct (f (np_random s)). Qed.

Lemma patrol_loop_run positions n s :
  ∃ patrol_positions s',
    patrol_loop positions n s = (Ok patrol_positions, s') ∧
    graph s' = graph s ∧
    patrol_positions ⊆ positions ∧
    length patrol_positions = (if decide (positions = []) then 0 else n)%nat.
Proof.
  revert s. induction n as [|n IH]; intros s; cbn [patrol_loop].
  - exists [], s. split_and!; [done..| |by case_decide].
    intros p Hp. by apply elem_of_nil in Hp.
  - destruct positions as [|p0 positions'] eqn:Epos; [apply IH|]. rewrite <- Epos in *.
    assert (Hlen : (0 < Py.len positions)%Z) by (subst; unfold Py.len; cbn; lia).
    unfold mbind at 1, M_bind at 1. rewrite draw_run.
    set (g1 := random_randint 0 (Py.len positions) (np_random s)).
    destruct (randint_range 0 (Py.len positions) (np_random s) Hlen) as [Hlo Hhi].
    fold g1 in Hlo, Hhi.
    unfold mbind at 1, M_bind at 1, Call.lift at 1.
    unfold Py.index. destruct (Z.leb_spec 0 g1.1) as [_|?]; [|lia].
    destruct (positions !! Z.to_nat g1.1) as [pos|] eqn:Epick.
    + unfold mbind at 1, M_bind at 1.
      destruct (IH (mkState (graph s) g1.2)) as (rest & s' & -> & Hg & Hsub & Hl).
      exists (pos :: rest), s'. split_and!; [done|done| |].
      * intros p Hp. apply elem_of_cons in Hp as [->|Hp]; [|by apply Hsub].
        by eapply list_elem_of_lookup_2.
      * cbn [length]. rewrite Hl. case_decide; [by subst|done].
    + apply lookup_ge_None in Epick. unfold Py.len in Hhi. lia.
Qed.

Lemma defender_config_run positions s :
  ∃ config s',
    defender_config positions s = (Ok config, s') ∧
    graph s' = graph s ∧
    Defender.patrols config ⊆ positions ∧
    (positions = [] → Defender.patrols config = []) ∧
    (positions ≠ [] → (2 ≤ length (Defender.patrols config) ≤ 5)%nat) ∧
    7 # 10 <= Defender.effectiveness config <= 1.
Proof.
  unfold defender_config. unfold mbind at 1, M_bind at 1. rewrite draw_run.
  set (g1 := random_randint 2 6 (np_random s)).
  destruct (randint_range 2 6 (np_random s)) as [Hlo Hhi]; [lia|].
  fold g1 in Hlo, Hhi.
  unfold mbind at 1, M_bind at 1.
  destruct (patrol_loop_run positions (Z.to_nat g1.1) (mkState (graph s) g1.2))
    as (patrol_positions & s1 & -> & Hg & Hsub & Hl).
  unfold mbind at 1, M_bind at 1. rewrite draw_run.
  eexists _, _. split; [done|]. cbn [graph Defender.patrols Defender.effectiveness].
  split; [done|]. split; [done|]. split; [|split].
  - intros ->. apply nil_length_inv. rewrite Hl. by case_decide.
  - intros Hne. rewrite Hl. case_decide; [done|]. lia.
  - apply uniform_range. lra.
Qed.

(** X16. With draws in the ranges that NumPy documents,
    [_generate_defender_configs] never raises (no index is out of range)
    and does not touch the graph. It returns [m] configurations (none
    for [m <= 0]); the patrols of each are positions of the routes, two
    to five of them, or none when the routes have no position; each
    effectiveness is between 0.7 and 1. *)
Theorem defender_configs_shape routes (m : Z) s :
  ∃ configs s',
    _generate_defender_configs routes m s = (Ok configs, s') ∧
    graph s' = graph s ∧ length configs = Z.to_nat m ∧
    Forall (fun config =>
              Defender.patrols config ⊆ all_positions routes ∧
              (all_positions routes = [] → Defender.patrols config = []) ∧
              (all_positions routes ≠ [] →
               (2 ≤ length (Defender.patrols config) ≤ 5)%nat) ∧
              7 # 10 <= Defender.effectiveness config <= 1) configs.
Proof.
  unfold _generate_defender_configs.
  generalize (all_positions routes) (Z.to_nat m). intros positions n.
  revert s. induction n as [|n IH]; intros s; cbn [configs_loop].
  - by exists [], s.
  - unfold mbind at 1, M_bind at 1.
    destruct (defender_config_run positions s) as (config & s1 & -> & Hg1 & Hconfig).
    unfold mbind at 1, M_bind at 1.
    destruct (IH s1) as (rest & s' & -> & Hg & Hl & Hrest).
    exists (config :: rest), s'.
    split; [done|]. split; [congruence|]. split; [cbn; lia|]. by constructor.
Qed.

End Configs.
End ConfigSpec.
Module PayoffRuns.
Import Lqa CVaRRouter StackelbergRouter StackelbergMethods Sample.
#[local] Existing Instances taylor_exp lcg search no_solver.
Local Open Scope Q_scope.

(** A stand-in for [numpy.random.randint] on the generator of [Sample]. *)
#[local] Instance lcg_randint : NumpyRandint :=
  {| random_randint low high g :=
       let g' := lcg_next g in ((low + g' mod (high - low))%Z, g') |}.

Lemma lcg_randint_range low high g :
  (low < high)%Z → (low ≤ (random_randint low high g).1 < high)%Z.
Proof.
  intros Hlt. cbn. pose proof (Z.mod_pos_bound (lcg_next g) (high - low)). lia.
Qed.

Lemma unit_interval_range g : 0 <= unit_interval (lcg_next g) <= 1.
Proof.
  unfold unit_interval, lcg_next.
  pose proof (Z.mod_pos_bound (1103515245 * g + 12345) 2147483648 eq_refl) as Hm.
  unfold Qle. cbn [Qnum Qden]. lia.
Qed.

Lemma lcg_uniform_range low high g :
  low <= high → low <= (random_uniform low high g).1 <= high.
Proof.
  intros Hle. cbn. pose proof (unit_interval_range g) as [Hlo Hhi]. nra.
Qed.

(** A stand-in for the geodesic distance: 111 km for a degree, along
    the axes. *)
Definition grid_distance (lat1 lon1 lat2 lon2 : Q) : Q :=
  111 * (Qabs (lat1 - lat2) + Qabs (lon1 - lon2)).

Lemma grid_distance_nonneg lat1 lon1 lat2 lon2 :
  0 <= grid_distance lat1 lon1 lat2 lon2.
Proof.
  unfold grid_distance.
  pose proof (Qabs_nonneg (lat1 - lat2)). pose proof (Qabs_nonneg (lon1 - lon2)). lra.
Qed.

(** The route 0-1-2-3 of [simple_graph] and the detour 0-2-3. *)
Definition direct : RouteResult.t := RouterMoreRuns.sample_route.

Definition detour : RouteResult.t :=
  Eval vm_compute in
    match _build_route_result simple_graph [0; 2; 3]%Z RouterMoreRuns.two_scenarios
            7 "diverse_2" with
    | Ok r => r
    | Raise _ => _empty_result "diverse_2"
    end.

(** One patrol at node 2, on both routes. *)
Definition patrol_at_2 : Defender.config := Defender.mk [(483 # 10, 372 # 10)] (8 # 10).

Lemma interception_prob_bounds_witness :
  Py.min (RouteResult.mean_risk direct) 1
  <= _calculate_interception_prob grid_distance direct patrol_at_2 7 ∧
  (0 <= RouteResult.mean_risk direct →
   0 <= _calculate_interception_prob grid_distance direct patrol_at_2 7).
Proof.
  apply (proj2 (PayoffSpec.interception_prob_bounds grid_distance direct patrol_at_2 7)).
  - apply grid_distance_nonneg.
  - cbn. lra.
Defined.

Lemma payoff_matrix_game_witness :
  Game.is_distribution 2
    (@_solve_zero_sum_game Game.no_equilibria
       (_build_payoff_matrix grid_distance [direct; detour] [patrol_at_2] 7))
  = true.
Proof.
  apply (proj2 (proj2 (@PayoffSpec.payoff_matrix_game grid_distance Game.no_equilibria
                         [direct; detour] [patrol_at_2] 7))).
  - discriminate.
  - right. reflexivity.
Defined.

Lemma defender_configs_shape_witness :
  ∃ configs s',
    _generate_defender_configs [direct; detour] 3 (start simple_graph)
    = (Ok configs, s') ∧
    graph s' = graph (start simple_graph) ∧ length configs = Z.to_nat 3 ∧
    Forall (fun config =>
              Defender.patrols config ⊆ all_positions [direct; detour] ∧
              (all_positions [direct; detour] = [] → Defender.patrols config = []) ∧
              (all_positions [direct; detour] ≠ [] →
               (2 ≤ length (Defender.patrols config) ≤ 5)%nat) ∧
              7 # 10 <= Defender.effectiveness config <= 1) configs.
Proof.
  apply (ConfigSpec.defender_configs_shape lcg_randint_range lcg_uniform_range
           [direct; detour] 3 (start simple_graph)).
Defined.

(** The patrol at node 2 raises the interception probability of the
    direct route above its mean risk. *)
Example patrol_raises_probability :
  RouteResult.mean_risk direct
  < _calculate_interception_prob grid_distance direct patrol_at_2 7.
Proof. vm_compute. reflexivity. Qed.

End PayoffRuns.

(* ===================================================================== *)
(** * The range of the kill-zone penalty *)
(* ===================================================================== *)

Module KillzoneMore.
Import Lra GraphBuilder KillzoneFacts.
Local Open Scope R_scope.

(** [exp 3] is above 20: eleven squarings of [1 + 3/2048 < exp (3/2048)]. *)
Lemma exp_3_lower : 20 < exp 3.
Proof.
  assert (Hdouble : ∀ x b b', b < exp x → 0 < b → b' <= b * b → b' < exp (x + x)).
  { intros x b b' Hb Hpos Hsq. rewrite exp_plus. nra. }
  assert (B0 : 1 + 3 / 2048 < exp (3 / 2048)) by (apply exp_ineq1; lra).
  assert (B1 : 5014659 / 5000000 < exp (3 / 1024)).
  { replace (3 / 1024) with (3 / 2048 + 3 / 2048) by lra.
    apply (Hdouble _ (1 + 3 / 2048)); [exact B0|lra|lra]. }
  assert (B2 : 10058721 / 10000000 < exp (3 / 512)).
  { replace (3 / 512) with (3 / 1024 + 3 / 1024) by lra.
    apply (Hdouble _ (5014659 / 5000000)); [exact B1|lra|lra]. }
  assert (B3 : 5058893 / 5000000 < exp (3 / 256)).
  { replace (3 / 256) with (3 / 512 + 3 / 512) by lra.
    apply (Hdouble _ (10058721 / 10000000)); [exact B2|lra|lra]. }
  assert (B4 : 10236959 / 10000000 < exp (3 / 128)).
  { replace (3 / 128) with (3 / 256 + 3 / 256) by lra.
    apply (Hdouble _ (5058893 / 5000000)); [exact B3|lra|lra]. }
  assert (B5 : 2619883 / 2500000 < exp (3 / 64)).
  { replace (3 / 64) with (3 / 128 + 3 / 128) by lra.
    apply (Hdouble _ (10236959 / 10000000)); [exact B4|lra|lra]. }
  assert (B6 : 10982059 / 10000000 < exp (3 / 32)).
  { replace (3 / 32) with (3 / 64 + 3 / 64) by lra.
    apply (Hdouble _ (2619883 / 2500000)); [exact B5|lra|lra]. }
  assert (B7 : 12060561 / 10000000 < exp (3 / 16)).
  { replace (3 / 16) with (3 / 32 + 3 / 32) by lra.
    apply (Hdouble _ (10982059 / 10000000)); [exact B6|lra|lra]. }
  assert (B8 : 14545713 / 10000000 < exp (3 / 8)).
  { replace (3 / 8) with (3 / 16 + 3 / 16) by lra.
    apply (Hdouble _ (12060561 / 10000000)); [exact B7|lra|lra]. }
  assert (B9 : 1322361 / 625000 < exp (3 / 4)).
  { replace (3 / 4) with (3 / 8 + 3 / 8) by lra.
    apply (Hdouble _ (14545713 / 10000000)); [exact B8|lra|lra]. }
  assert (B10 : 11191287 / 2500000 < exp (3 / 2)).
  { replace (3 / 2) with (3 / 4 + 3 / 4) by lra.
    apply (Hdouble _ (1322361 / 625000)); [exact B9|lra|lra]. }
  assert (B11 : 200391847 / 10000000 < exp 3).
  { replace 3 with (3 / 2 + 3 / 2) by lra.
    apply (Hdouble _ (11191287 / 2500000)); [exact B10|lra|lra]. }
  lra.
Qed.

Lemma zone_penalty_le_peak d r : zone_penalty d r <= 50 * exp 3.
Proof.
  pose proof exp_3_lower as Hexp. unfold zone_penalty.
  destruct (Rlt_dec d r); [lra|]. destruct (Rlt_dec d (r * (3 / 2))).
  - destruct (near_excess d r) as [Hr Hx]; [lra..|].
    assert (0 <= (d - r) / (r * (1 / 2))).
    { unfold Rdiv. apply Rmult_le_pos; [lra|].
      apply Rlt_le, Rinv_0_lt_compat. lra. }
    apply Rmult_le_compat_l; [lra|].
    assert (Hle : 3 * (1 - (d - r) / (r * (1 / 2))) <= 3) by lra.
    destruct Hle as [Hlt|Heq]; [|rewrite Heq; lra].
    apply Rlt_le. by apply exp_increasing.
  - destruct (Rlt_dec d (r * 2)); lra.
Qed.

Lemma zone_penalty_at_radius r : 0 < r → zone_penalty r r = 50 * exp 3.
Proof.
  intros Hr. rewrite band_near by lra. do 2 f_equal.
  replace (r - r) with 0 by lra. unfold Rdiv. rewrite Rmult_0_l. lra.
Qed.

(** X17. The kill-zone penalty is 1 without kill zones and always
    between 1 and [50 * exp 3]. That bound is reached at the edge of a
    zone, where the penalty (about 1004) is above the 1000 charged
    inside the zone: the penalty is not monotone in the distance. *)
Theorem killzone_penalty_range
    (haversine_distance : R → R → R → R → R) (lat lon : R)
    (kill_zones : option (list KillZone)) :
  let penalty := _compute_killzone_penalty haversine_distance lat lon kill_zones in
  (kill_zones = None ∨ kill_zones = Some [] → penalty = 1) ∧
  1 <= penalty <= 50 * exp 3 ∧
  ∀ d r, 0 < r → d < r →
         zone_penalty r r = 50 * exp 3 ∧ zone_penalty d r < zone_penalty r r.
Proof.
  cbn zeta. pose proof exp_3_lower as Hexp. split_and!.
  - intros [Hk|Hk]; by rewrite Hk.
  - destruct kill_zones as [[|kz zones]|]; cbn [_compute_killzone_penalty]; [lra| |lra].
    destruct (running_max (penalty_at haversine_distance lat lon) (kz :: zones) 1)
      as (_ & Hge & _). exact Hge.
  - destruct kill_zones as [[|kz zones]|]; cbn [_compute_killzone_penalty]; [lra| |lra].
    destruct (running_max (penalty_at haversine_distance lat lon) (kz :: zones) 1)
      as ([Hm|Hin] & _ & _); [rewrite Hm; lra|].
    apply list_elem_of_In, in_map_iff in Hin as (kz' & <- & _).
    unfold penalty_at. destruct (center kz'). apply zone_penalty_le_peak.
  - intros d r Hr Hd. rewrite zone_penalty_at_radius by done.
    split; [done|]. rewrite band_inside by done. lra.
Qed.

(** A stand-in for the geodesic distance: 111 km for a degree, along
    the axes. *)
Definition axis_distance (lat1 lon1 lat2 lon2 : R) : R :=
  111 * (Rabs (lat1 - lat2) + Rabs (lon1 - lon2)).

Lemma killzone_penalty_range_witness :
  zone_penalty 5 5 = 50 * exp 3 ∧ zone_penalty 4 5 < zone_penalty 5 5.
Proof.
  apply (proj2 (proj2 (killzone_penalty_range axis_distance 48 37
                         (Some [mkKillZone (48, 37) 5])))).
  - lra.
  - lra.
Defined.

End KillzoneMore.
(* ===================================================================== *)
(** * The nearest node ([GraphBuilder._find_nearest_original_node]) *)
(* ===================================================================== *)

Module NearestNode.
Local Open Scope Q_scope.

Section Nearest.
(** [utils.geo.haversine_distance], in kilometres. *)
Variable haversine_distance : Q → Q → Q → Q → Q.

(** The distance of a node with the given data from [(lat, lon)]. *)
Definition distance_to (lat lon : Q) (data : NodeData) : Q :=
  let node_lat := y data in
  let node_lon := x data in
  haversine_distance lat lon node_lat node_lon.

(** One round of the loop; the distance [None] is [float("inf")]. *)
Definition nearer (G : DiGraph) (lat lon : Q) (best : option Z * option Q) (node : Z)
  : Res (option Z * option Q) :=
  let '(nearest_node, min_distance) := best in
  data ← Nx.node_data G node;
  let distance := distance_to lat lon data in
  let closer :=
    match min_distance with
    | None => true
    | Some m => Py.lt distance m
    end in
  if closer then mret (Some node, Some distance)
  else mret (nearest_node, min_distance).

(** [_find_nearest_original_node(lat, lon, original_nodes)] on the graph
    [self.simplified_graph]; the result [None] is Python's [None]. *)
Definition _find_nearest_original_node (G : DiGraph) (lat lon : Q)
    (original_nodes : list Z) : Res (option Z) :=
  best ← Loop.fold (nearer G lat lon) (None, None) original_nodes;
  mret best.1.

End Nearest.
End NearestNode.

Module NearestFacts.
Import Lqa NearestNode ParetoFacts ParetoMethodsFacts.
Local Open Scope Q_scope.

Section Nearest.
Variable haversine_distance : Q → Q → Q → Q → Q.
Variable G : DiGraph.
Variables lat lon : Q.

(** [best] holds a node of [seen] that is nearest among them. *)
Definition nearest_of (seen : list Z) (best : option Z * option Q) : Prop :=
  ∃ n data,
    best = (Some n, Some (distance_to haversine_distance lat lon data)) ∧
    n ∈ seen ∧ nodes G !! n = Some data ∧
    ∀ n' data', n' ∈ seen → nodes G !! n' = Some data' →
      distance_to haversine_distance lat lon data
      <= distance_to haversine_distance lat lon data'.

Lemma nearer_step seen best node data :
  (seen = [] ∧ best = (None, None)) ∨ nearest_of seen best →
  nodes G !! node = Some data →
  ∃ best', nearer haversine_distance G lat lon best node = Ok best' ∧
           nearest_of (seen ++ [node]) best'.
Proof.
  intros Hbest Hnode. unfold nearer, Nx.node_data.
  destruct Hbest as [[-> ->]|(n & d & -> & Hin & Hn & Hmin)]; rewrite Hnode; cbn.
  - eexists. split; [done|]. exists node, data. split_and!; [done| |done|].
    + apply elem_of_cons. by left.
    + intros n' data' Hn' Hd'. apply list_elem_of_singleton in Hn' as ->.
      simplify_eq. lra.
  - destruct (Py.lt _ _) eqn:E.
    + apply lt_bool_iff in E. eexists. split; [done|].
      exists node, data. split_and!; [done| |done|].
      * apply elem_of_app. right. apply elem_of_cons. by left.
      * intros n' data' Hn' Hd'. apply elem_of_app in Hn' as [Hn'|Hn'].
        -- specialize (Hmin n' data' Hn' Hd'). lra.
        -- apply list_elem_of_singleton in Hn' as ->. simplify_eq. lra.
    + apply lt_bool_false in E. eexists. split; [done|].
      exists n, d. split_and!; [done| |done|].
      * apply elem_of_app. by left.
      * intros n' data' Hn' Hd'. apply elem_of_app in Hn' as [Hn'|Hn'].
        -- by eapply Hmin.
        -- apply list_elem_of_singleton in Hn' as ->. by simplify_eq.
Qed.

Lemma nearer_fold rest seen best :
  (seen = [] ∧ best = (None, None)) ∨ nearest_of seen best →
  (∀ n, n ∈ rest → is_Some (nodes G !! n)) →
  seen ++ rest ≠ [] →
  ∃ best', Loop.fold (nearer haversine_distance G lat lon) best rest = Ok best' ∧
           nearest_of (seen ++ rest) best'.
Proof.
  revert seen best. induction rest as [|node rest IH]; intros seen best Hbest Hall Hne.
  - rewrite app_nil_r in *. exists best. split; [done|].
    destruct Hbest as [[-> _]|Hbest]; done.
  - destruct (Hall node) as [data Hdata]; [apply elem_of_cons; by left|].
    destruct (nearer_step seen best node data Hbest Hdata) as (best1 & Hstep & Hnear).
    cbn [Loop.fold]. rewrite Hstep. cbn.
    replace (seen ++ node :: rest) with ((seen ++ [node]) ++ rest)
      by (by rewrite <- app_assoc).
    apply IH; [by right| |by destruct seen].
    intros n Hn. apply Hall. apply elem_of_cons. by right.
Qed.

Lemma nearer_fold_missing rest best n :
  n ∈ rest → nodes G !! n = None →
  Loop.fold (nearer haversine_distance G lat lon) best rest = Raise KeyError.
Proof.
  revert best. induction rest as [|node rest IH]; intros best Hin Hn.
  - by apply elem_of_nil in Hin.
  - cbn [Loop.fold].
    destruct (nearer haversine_distance G lat lon best node) as [best1|e] eqn:Estep;
      cbn; unfold nearer, Nx.node_data in Estep; destruct best as [b m].
    + apply elem_of_cons in Hin as [->|Hin]; [|by apply IH].
      by rewrite Hn in Estep.
    + destruct (nodes G !! node); cbn in Estep; [|congruence].
      repeat case_match; simplify_eq.
Qed.

End Nearest.
End NearestFacts.

Module NearestSpec.
Import Lqa NearestNode NearestFacts.
Local Open Scope Q_scope.

(** X18. [_find_nearest_original_node] returns [None] for an empty list
    of nodes and raises [KeyError] if a listed node is not in the graph.
    Otherwise it returns a listed node whose distance from the given
    point is the least among the listed nodes. *)
Theorem nearest_original_node
    (haversine_distance : Q → Q → Q → Q → Q) (G : DiGraph) (lat lon : Q)
    (original_nodes : list Z) :
  let nearest :=
    _find_nearest_original_node haversine_distance G lat lon original_nodes in
  (original_nodes = [] → nearest = Ok None) ∧
  ((∃ n, n ∈ original_nodes ∧ nodes G !! n = None) → nearest = Raise KeyError) ∧
  (original_nodes ≠ [] →
   (∀ n, n ∈ original_nodes → is_Some (nodes G !! n)) →
   ∃ n data,
     nearest = Ok (Some n) ∧ n ∈ original_nodes ∧ nodes G !! n = Some data ∧
     ∀ n' data', n' ∈ original_nodes → nodes G !! n' = Some data' →
       distance_to haversine_distance lat lon data
       <= distance_to haversine_distance lat lon data').
Proof.
  cbn zeta. unfold _find_nearest_original_node. split_and!.
  - by intros ->.
  - intros (n & Hin & Hn).
    by rewrite (nearer_fold_missing haversine_distance G lat lon _ _ n Hin Hn).
  - intros Hne Hall.
    destruct (nearer_fold haversine_distance G lat lon original_nodes [] (None, None))
      as (best & -> & n & data & -> & Hin & Hn & Hmin); [by left|done|done|].
    by exists n, data.
Qed.

End NearestSpec.
(* ===================================================================== *)
(** * Scenario ranges and the sign of the risk figures *)
(* ===================================================================== *)

Module ScenarioSpec.
Import Lqa Cvar PyFacts CvarFacts CVaRRouter LoopFacts RiskFacts.
Local Open Scope Q_scope.

(** A scenario whose three multipliers are not negative. *)
Definition nonneg_scenario (scenario : Scenario) : Prop :=
  0 <= visibility_mult scenario ∧ 0 <= detection_mult scenario ∧
  0 <= patrol_presence scenario.

(** The attribute [key] of an edge is absent or a number that is not
    negative. *)
Definition nonneg_attr (data : gmap string attr) (key : string) : bool :=
  match data !! key with
  | Some (Num q) => Qle_bool 0 q
  | _ => true
  end.

(** No edge of the graph has a negative detection probability,
    visibility or kill-zone penalty. *)
Definition nonneg_attrs (G : DiGraph) : Prop :=
  map_Forall (fun _ data =>
                nonneg_attr data "detection_base" && nonneg_attr data "visibility"
                && nonneg_attr data "killzone_penalty" = true) (edges G).

Lemma get_num_nonneg data key default q :
  nonneg_attr data key = true → 0 <= default →
  Nx.get_num data key default = Ok q → 0 <= q.
Proof.
  unfold nonneg_attr, Nx.get_num. intros Hattr Hdefault.
  destruct (data !! key) as [[q'| |]|]; intros [= <-]; [|done].
  by apply Qle_bool_iff.
Qed.

Lemma min_nonneg a b : 0 <= a → 0 <= b → 0 <= Py.min a b.
Proof. intros Ha Hb. unfold Py.min. by destruct (Py.lt b a). Qed.

Lemma get_edge_risk_nonneg G e scenario cargo_value r :
  nonneg_attrs G → nonneg_scenario scenario → 0 <= cargo_value →
  _get_edge_risk G e scenario cargo_value = Ok r → 0 <= r.
Proof.
  intros HG (Hv & Hd & Hp) Hc. unfold _get_edge_risk, Nx.edge_data. intros Hr.
  apply bind_Ok in Hr as (data & Hdata & Hr).
  destruct (edges G !! e) as [data'|] eqn:He; [|done]. injection Hdata as ->.
  apply HG in He. apply andb_prop in He as [He Hkz]. apply andb_prop in He as [Hbd Hvis].
  apply bind_Ok in Hr as (bd & Ebd & Hr). apply get_num_nonneg in Ebd; [|done|lra].
  apply bind_Ok in Hr as (vis & Evis & Hr). apply get_num_nonneg in Evis; [|done|lra].
  apply bind_Ok in Hr as (kz & Ekz & [= <-]). apply get_num_nonneg in Ekz; [|done|lra].
  apply min_nonneg; [|lra].
  assert (0 <= cargo_value / 10) by (apply Qle_shift_div_l; lra).
  assert (0 <= vis * visibility_mult scenario) by (by apply Qmult_le_0_compat).
  repeat apply Qmult_le_0_compat; try done; lra.
Qed.

Lemma path_risk_fold_nonneg G cargo_value scenario l acc r :
  nonneg_attrs G → nonneg_scenario scenario → 0 <= cargo_value → 0 <= acc →
  Loop.fold (fun risk '(u, v) =>
               if Nx.has_edge G u v then
                 r ← _get_edge_risk G (u, v) scenario cargo_value; mret (risk + r)
               else mret risk) acc l = Ok r →
  0 <= r.
Proof.
  intros HG Hsc Hc. revert acc. induction l as [|[u v] l IH]; intros acc Hacc;
    cbn [Loop.fold].
  - by intros [= <-].
  - intros Hf. apply bind_Ok in Hf as (acc' & Hstep & Hf).
    apply (IH acc'); [|done]. destruct (Nx.has_edge G u v).
    + apply bind_Ok in Hstep as (x & Hx & [= <-]).
      apply get_edge_risk_nonneg in Hx; [|done..]. lra.
    + by injection Hstep as <-.
Qed.

Section Ranges.
Context `{MathLib, NumpyRandom}.

(** What NumPy documents of the two draws: [uniform(low, high)] lies
    between its bounds, [choice(a)] is an element of [a]. *)
Hypothesis uniform_range : ∀ low high g,
  low <= high → low <= (random_uniform low high g).1 <= high.
Hypothesis choice_member : ∀ a g, a ≠ [] → (random_choice a g).1 ∈ a.

(** The multipliers of a scenario are in the ranges they are drawn from. *)
Definition in_range (scenario : Scenario) : Prop :=
  (7 # 10 <= visibility_mult scenario <= 13 # 10) ∧
  (8 # 10 <= detection_mult scenario <= 12 # 10) ∧
  patrol_presence scenario ∈ [8 # 10; 1 # 1; 12 # 10; 15 # 10].

(** X19. With draws as NumPy documents them, [_generate_scenarios]
    never raises and leaves the graph alone; it returns [num_scenarios]
    scenarios, each with a visibility multiplier in [0.7, 1.3], a
    detection multiplier in [0.8, 1.2] and a patrol presence among 0.8,
    1.0, 1.2 and 1.5. *)
Theorem scenarios_in_range self s :
  ∃ scenarios s',
    _generate_scenarios self s = (Ok scenarios, s') ∧ graph s' = graph s ∧
    length scenarios = num_scenarios self ∧ Forall in_range scenarios.
Proof.
  unfold _generate_scenarios. generalize (num_scenarios self). intros n.
  revert s. induction n as [|n IH]; intros s.
  - by exists [], s.
  - cbn [scenario_loop]. unfold mbind, M_bind, Call.draw. cbn [graph np_random].
    pose proof (uniform_range (7 # 10) (13 # 10) (np_random s) ltac:(lra)) as Hv.
    destruct (random_uniform (7 # 10) (13 # 10) (np_random s)) as [v g1].
    cbn [graph np_random].
    pose proof (uniform_range (8 # 10) (12 # 10) g1 ltac:(lra)) as Hd.
    destruct (random_uniform (8 # 10) (12 # 10) g1) as [d g2].
    cbn [graph np_random].
    pose proof (choice_member [8 # 10; 1 # 1; 12 # 10; 15 # 10] g2 ltac:(done)) as Hp.
    destruct (random_choice [8 # 10; 1 # 1; 12 # 10; 15 # 10] g2) as [p g3].
    destruct (IH (mkState (graph s) g3)) as (rest & s' & Hrun & Hg & Hlen & Hall).
    cbn [graph np_random fst] in *.
    exists (mkScenario v d p :: rest), s'. rewrite Hrun.
    split; [done|]. split; [done|]. split; [cbn; by rewrite Hlen|].
    constructor; [|done]. unfold in_range. cbn. tauto.
Qed.

End Ranges.

Section Sign.
Context `{MathLib}.

(** X20. On a graph without negative detection probabilities,
    visibilities or kill-zone penalties, for a cargo value and scenario
    multipliers that are not negative, the three risk figures of a
    route result are not negative. *)
Theorem route_risk_nonneg G node_path scenarios cargo_value method r :
  nonneg_attrs G → 0 <= cargo_value → Forall nonneg_scenario scenarios →
  _build_route_result G node_path scenarios cargo_value method = Ok r →
  0 <= RouteResult.mean_risk r ∧ 0 <= RouteResult.cvar_95 r ∧
  0 <= RouteResult.cvar_99 r.
Proof.
  intros HG Hc Hsc. unfold _build_route_result. intros Hr.
  apply bind_Ok in Hr as ([[pc total_time] td] & _ & Hr).
  apply bind_Ok in Hr as (wps & _ & Hr).
  apply bind_Ok in Hr as (risks & Hrisks & Hr).
  apply bind_Ok in Hr as (c95 & H95 & Hr).
  apply bind_Ok in Hr as (c99 & H99 & Hr).
  injection Hr as <-. cbn.
  assert (Hpos : Forall (fun x => 0 <= x) risks).
  { apply comprehension_Ok in Hrisks. apply Forall_forall. intros x Hx.
    apply list_elem_of_lookup in Hx as [i Hi].
    destruct (Forall2_lookup_r _ _ _ _ _ Hrisks Hi) as (sc & Hsci & Hx).
    eapply path_risk_fold_nonneg; [done| |done| |exact Hx]; [|lra].
    rewrite Forall_forall in Hsc. apply Hsc. by eapply list_elem_of_lookup_2. }
  assert (Hne : risks ≠ []).
  { intros ->. unfold calculate_cvar in H95. by vm_compute in H95. }
  apply (mean_nonneg _ Hne) in Hpos.
  assert (HB : Forall (fun x => x <= 10 * inject_Z (Py.len (steps node_path))) risks).
  { apply comprehension_Ok in Hrisks. apply Forall_forall. intros x Hx.
    apply list_elem_of_lookup in Hx as [i Hi].
    destruct (Forall2_lookup_r _ _ _ _ _ Hrisks Hi) as (sc & _ & Hx).
    by apply path_risk_bound in Hx. }
  destruct (cvar_order risks (95 # 100) (99 # 100) _ Hne eq_refl
              ltac:(discriminate) eq_refl HB) as (c1 & c2 & E1 & E2 & ? & ? & _).
  unfold calculate_cvar in H95, H99. rewrite E1 in H95. rewrite E2 in H99.
  simplify_eq. split_and!; lra.
Qed.

End Sign.
End ScenarioSpec.
Module MoreRuns.
Import Lqa CVaRRouter NearestNode ScenarioSpec Sample.
#[local] Existing Instances taylor_exp lcg search no_solver.
Local Open Scope Q_scope.

Lemma nearest_original_node_witness :
  ∃ n data,
    _find_nearest_original_node PayoffRuns.grid_distance simple_graph
      (483 # 10) (3721 # 100) [0; 1; 2; 3]%Z = Ok (Some n) ∧
    n ∈ [0; 1; 2; 3]%Z ∧ nodes simple_graph !! n = Some data ∧
    ∀ n' data', n' ∈ [0; 1; 2; 3]%Z → nodes simple_graph !! n' = Some data' →
      distance_to PayoffRuns.grid_distance (483 # 10) (3721 # 100) data
      <= distance_to PayoffRuns.grid_distance (483 # 10) (3721 # 100) data'.
Proof.
  apply (proj2 (proj2 (NearestSpec.nearest_original_node PayoffRuns.grid_distance
                         simple_graph (483 # 10) (3721 # 100) [0; 1; 2; 3]%Z))).
  - discriminate.
  - intros n Hn.
    repeat (apply elem_of_cons in Hn as [->|Hn]; [by eexists|]).
    by apply elem_of_nil in Hn.
Defined.

(** The point lies next to node 2. *)
Example nearest_is_node_2 :
  _find_nearest_original_node PayoffRuns.grid_distance simple_graph
    (483 # 10) (3721 # 100) [0; 1; 2; 3]%Z = Ok (Some 2%Z).
Proof. vm_compute. reflexivity. Qed.

Lemma lcg_choice_member (a : list Q) g : a ≠ [] → (random_choice a g).1 ∈ a.
Proof.
  intros Hne. cbn.
  assert (Hlen : (0 < Z.of_nat (length a))%Z) by (destruct a; [done|cbn; lia]).
  pose proof (Z.mod_pos_bound (lcg_next g) (Z.of_nat (length a)) Hlen) as Hm.
  destruct (a !! Z.to_nat (lcg_next g mod Z.of_nat (length a))) as [x|] eqn:E.
  - cbn. by eapply list_elem_of_lookup_2.
  - apply lookup_ge_None in E. lia.
Qed.

Lemma scenarios_in_range_witness :
  ∃ scenarios s',
    _generate_scenarios router (start simple_graph) = (Ok scenarios, s') ∧
    graph s' = graph (start simple_graph) ∧
    length scenarios = num_scenarios router ∧ Forall in_range scenarios.
Proof.
  apply (scenarios_in_range PayoffRuns.lcg_uniform_range lcg_choice_member router
           (start simple_graph)).
Defined.

Lemma route_risk_nonneg_witness :
  0 <= RouteResult.mean_risk RouterMoreRuns.sample_route ∧
  0 <= RouteResult.cvar_95 RouterMoreRuns.sample_route ∧
  0 <= RouteResult.cvar_99 RouterMoreRuns.sample_route.
Proof.
  apply (route_risk_nonneg simple_graph [0; 1; 2; 3]%Z RouterMoreRuns.two_scenarios 7
           "cvar" RouterMoreRuns.sample_route).
  - unfold nonneg_attrs. apply (bool_decide_unpack _). vm_compute. exact I.
  - discriminate.
  - repeat constructor; discriminate.
  - vm_compute. reflexivity.
Defined.

End MoreRuns.

(* ===================================================================== *)
(** * Coordinates, time and distance of a route result *)
(* ===================================================================== *)

Module TravelSpec.
Import Lqa CVaRRouter LoopFacts.
Local Open Scope Q_scope.

(** The edge [(u, v)] exists and carries no ["geometry"]. *)
Definition plain_edge (G : DiGraph) (e : Z * Z) : Prop :=
  ∃ data, edges G !! e = Some data ∧ data !! "geometry" = None.

(** [coord] is the position [(y, x)] of [node]. *)
Definition located (G : DiGraph) (node : Z) (coord : Q * Q) : Prop :=
  Nx.node_coords G node = Ok coord.

(** [value] is what [data.get(key, 0)] reads on the edge [e]. *)
Definition reads (G : DiGraph) (key : string) (e : Z * Z) (value : Q) : Prop :=
  ∃ data, edges G !! e = Some data ∧ Nx.get_num data key 0 = Ok value.

Lemma steps_cons2 u v rest : steps (u :: v :: rest) = (u, v) :: steps (v :: rest).
Proof. done. Qed.

Lemma travel_step_plain G i u v path_coords total_time total_distance acc' :
  plain_edge G (u, v) →
  travel_step G (path_coords, total_time, total_distance) (i, (u, v)) = Ok acc' →
  ∃ ext dt dd,
    acc' = (path_coords ++ ext, total_time + dt, total_distance + dd) ∧
    reads G "travel_time_hours" (u, v) dt ∧ reads G "distance_km" (u, v) dd ∧
    (if Nat.eqb i 0 then ∃ cu cv, ext = [cu; cv] ∧ located G u cu ∧ located G v cv
     else ∃ cv, ext = [cv] ∧ located G v cv).
Proof.
  intros (data & Hdata & Hgeom). unfold travel_step, Nx.has_edge, Nx.edge_data.
  rewrite Hdata. rewrite bool_decide_eq_true_2 by (by eexists). cbn [negb].
  intros Hstep. apply bind_Ok in Hstep as (data' & [= <-] & Hstep).
  apply bind_Ok in Hstep as (pc & Hpc & Hstep).
  apply bind_Ok in Hstep as (dt & Hdt & Hstep).
  apply bind_Ok in Hstep as (dd & Hdd & [= <-]).
  unfold extend_coords in Hpc. rewrite Hgeom in Hpc. unfold append_endpoints in Hpc.
  apply bind_Ok in Hpc as (pc0 & Hpc0 & Hpc).
  apply bind_Ok in Hpc as (cv & Hcv & [= <-]).
  destruct (Nat.eqb i 0).
  - apply bind_Ok in Hpc0 as (cu & Hcu & [= <-]).
    exists [cu; cv], dt, dd. rewrite <- app_assoc.
    split_and!; [done|by exists data|by exists data|]. by exists cu, cv.
  - injection Hpc0 as <-. exists [cv], dt, dd.
    split_and!; [done|by exists data|by exists data|]. by exists cv.
Qed.

(** The first loop from step [i] on, for a walk along plain edges. *)
Lemma travel_fold_plain G rest before u path_coords total_time total_distance out :
  Forall (plain_edge G) (steps (u :: rest)) →
  (if before is [] then path_coords = []
   else Forall2 (located G) (before ++ [u]) path_coords) →
  Loop.fold (travel_step G) (path_coords, total_time, total_distance)
    (Py.enumerate_from (length before) (steps (u :: rest))) = Ok out →
  ∃ times distances,
    Forall2 (reads G "travel_time_hours") (steps (u :: rest)) times ∧
    Forall2 (reads G "distance_km") (steps (u :: rest)) distances ∧
    out.1.2 == total_time + Py.sum times ∧
    out.2 == total_distance + Py.sum distances ∧
    (rest ≠ [] → Forall2 (located G) (before ++ u :: rest) out.1.1).
Proof.
  revert before u path_coords total_time total_distance.
  induction rest as [|v rest IH];
    intros before u path_coords total_time total_distance Hplain Hpc.
  - cbn. intros [= <-]. exists [], []. cbn.
    split_and!; [constructor|constructor|ring|ring|done].
  - rewrite steps_cons2 in *. apply Forall_cons in Hplain as [Huv Hplain].
    cbn [Py.enumerate_from Loop.fold]. intros Hf.
    apply bind_Ok in Hf as ([[pc1 t1] d1] & Hstep & Hf).
    apply travel_step_plain in Hstep as (ext & dt & dd & [= -> -> ->] & Hdt & Hdd & Hext);
      [|done].
    assert (Hpc1 : Forall2 (located G) ((before ++ [u]) ++ [v]) (path_coords ++ ext)).
    { destruct before as [|b before]; cbn [length Nat.eqb] in Hext.
      - destruct Hext as (cu & cv & -> & Hcu & Hcv). subst path_coords. cbn.
        by repeat constructor.
      - destruct Hext as (cv & -> & Hcv).
        apply Forall2_app; [done|]. by repeat constructor. }
    specialize (IH (before ++ [u]) v (path_coords ++ ext) (total_time + dt)
                  (total_distance + dd) Hplain).
    rewrite length_app in IH. cbn [length] in IH. rewrite Nat.add_1_r in IH.
    destruct IH as (times & distances & Ht & Hd & Etime & Edist & Hcoords); [|done|].
    { destruct (before ++ [u]) eqn:E; [by destruct before|done]. }
    exists (dt :: times), (dd :: distances).
    split_and!; [by constructor|by constructor| | |].
    + rewrite Etime. cbn [Py.sum foldr]. fold (Py.sum times). ring.
    + rewrite Edist. cbn [Py.sum foldr]. fold (Py.sum distances). ring.
    + intros _. destruct rest as [|w rest].
      * cbn in Hf. injection Hf as <-. cbn [fst snd]. by rewrite <- app_assoc in Hpc1.
      * rewrite <- app_assoc in Hcoords. by apply Hcoords.
Qed.

Section Travel.
Context `{MathLib}.

(** X21. For a node path of at least two nodes whose consecutive pairs
    are edges without geometry, the route result lists the position of
    every node of the path, in order; its time is sixty times the sum
    of the travel times of these edges and its distance the sum of
    their lengths (an absent attribute counting as 0). *)
Theorem route_along_plain_edges G node_path scenarios cargo_value method r :
  _build_route_result G node_path scenarios cargo_value method = Ok r →
  (2 ≤ length node_path)%nat →
  Forall (plain_edge G) (steps node_path) →
  Forall2 (located G) node_path (RouteResult.path r) ∧
  ∃ times distances,
    Forall2 (reads G "travel_time_hours") (steps node_path) times ∧
    Forall2 (reads G "distance_km") (steps node_path) distances ∧
    RouteResult.time_minutes r == Py.sum times * 60 ∧
    RouteResult.distance_km r == Py.sum distances.
Proof.
  unfold _build_route_result. intros Hr Hlen Hplain.
  apply bind_Ok in Hr as ([[pc total_time] td] & Hfold & Hr).
  apply bind_Ok in Hr as (wps & _ & Hr).
  apply bind_Ok in Hr as (risks & _ & Hr).
  apply bind_Ok in Hr as (c95 & _ & Hr).
  apply bind_Ok in Hr as (c99 & _ & Hr).
  injection Hr as <-. cbn [RouteResult.path RouteResult.time_minutes
                             RouteResult.distance_km].
  destruct node_path as [|u [|v rest]]; [cbn in Hlen; lia..|].
  destruct (travel_fold_plain G (v :: rest) [] u [] 0 0 _ Hplain eq_refl Hfold)
    as (times & distances & Ht & Hd & Etime & Edist & Hcoords).
  cbn [fst snd] in *. split; [by apply Hcoords|].
  exists times, distances. split_and!; [done|done| |].
  - rewrite Etime. ring.
  - rewrite Edist. ring.
Qed.

End Travel.
End TravelSpec.
Module TravelRuns.
Import Lqa CVaRRouter TravelSpec Sample.
#[local] Existing Instances taylor_exp lcg search no_solver.
Local Open Scope Q_scope.

Lemma route_along_plain_edges_witness :
  Forall2 (located simple_graph) [0; 1; 2; 3]%Z
    (RouteResult.path RouterMoreRuns.sample_route) ∧
  ∃ times distances,
    Forall2 (reads simple_graph "travel_time_hours") (steps [0; 1; 2; 3]%Z) times ∧
    Forall2 (reads simple_graph "distance_km") (steps [0; 1; 2; 3]%Z) distances ∧
    RouteResult.time_minutes RouterMoreRuns.sample_route == Py.sum times * 60 ∧
    RouteResult.distance_km RouterMoreRuns.sample_route == Py.sum distances.
Proof.
  apply (route_along_plain_edges simple_graph [0; 1; 2; 3]%Z
           RouterMoreRuns.two_scenarios 7 "cvar" RouterMoreRuns.sample_route).
  - vm_compute. reflexivity.
  - cbn. lia.
  - repeat constructor; eexists; split; reflexivity.
Defined.

(** Eighteen minutes over fifteen kilometres. *)
Example sample_route_totals :
  RouteResult.time_minutes RouterMoreRuns.sample_route == 18 ∧
  RouteResult.distance_km RouterMoreRuns.sample_route == 15.
Proof. split; reflexivity. Qed.

End TravelRuns.

(* ===================================================================== *)
(** * The reconstructed path is simple *)
(* ===================================================================== *)

Module PathSimple.
Import CVaRRouter PathFacts.

(** Every node of [p] before the last differs from [destination]. *)
Definition open_until (destination : Z) (p : list Z) : Prop :=
  ∀ i x, p !! i = Some x → (Datatypes.S i < length p)%nat → x ≠ destination.

Lemma walk_open dict destination fuel p current res :
  walk dict destination fuel p current = Some res →
  open_until destination p → last p = Some current →
  open_until destination res.
Proof.
  revert p current. induction fuel as [|fuel IH]; intros p current; cbn [walk].
  - by intros [= <-].
  - case_bool_decide as Hcur; [by intros [= <-]|].
    destruct (dict !! current) as [next_node|] eqn:E; [|done].
    intros Hw Hopen Hlast. apply (IH _ _ Hw); [|by rewrite last_snoc].
    intros i x Hx Hi. rewrite length_app in Hi. cbn [length] in Hi.
    rewrite lookup_app_l in Hx by lia.
    destruct (decide (Datatypes.S i < length p)%nat) as [Hlt|Hge]; [by eapply Hopen|].
    rewrite last_lookup in Hlast.
    assert (i = pred (length p)) as -> by lia. congruence.
Qed.

(** Along a chain, two walks from the same node stay together. *)
Lemma chained_together dict p i j x t :
  chained dict p → p !! i = Some x → p !! j = Some x →
  (j + t < length p)%nat → (i ≤ j)%nat → p !! (i + t)%nat = p !! (j + t)%nat.
Proof.
  intros Hc Hi Hj. induction t as [|t IH]; intros Ht Hij.
  - rewrite !Nat.add_0_r. congruence.
  - assert (is_Some (p !! (j + t)%nat)) as [y Hy] by (apply lookup_lt_is_Some; lia).
    assert (is_Some (p !! (j + Datatypes.S t)%nat)) as [z Hz]
      by (apply lookup_lt_is_Some; lia).
    assert (is_Some (p !! (i + Datatypes.S t)%nat)) as [z' Hz']
      by (apply lookup_lt_is_Some; lia).
    assert (Hy' : p !! (i + t)%nat = Some y) by (rewrite IH; [done|lia|done]).
    rewrite Hz, Hz'. f_equal.
    rewrite Nat.add_succ_r in Hz, Hz'.
    pose proof (Hc _ _ _ Hy Hz). pose proof (Hc _ _ _ Hy' Hz'). congruence.
Qed.

Lemma chained_simple dict destination p :
  chained dict p → open_until destination p → last p = Some destination → NoDup p.
Proof.
  intros Hc Hopen Hlast. apply NoDup_alt.
  assert (Hle : ∀ i j x, (i < j)%nat → p !! i = Some x → p !! j = Some x → False).
  { intros i j x Hij Hi Hj.
    pose proof (lookup_lt_Some _ _ _ Hj) as Hjl.
    pose proof (chained_together dict p i j x (length p - 1 - j) Hc Hi Hj
                  ltac:(lia) ltac:(lia)) as Heq.
    replace (j + (length p - 1 - j))%nat with (pred (length p)) in Heq by lia.
    rewrite <- last_lookup, Hlast in Heq.
    eapply Hopen; [exact Heq|lia|done]. }
  intros i j x Hi Hj.
  destruct (Nat.lt_trichotomy i j) as [Hlt|[->|Hgt]]; [|done|]; exfalso; eauto.
Qed.

(** X22. The node path that [_edges_to_path] returns has no repeated
    node and at most one node more than there are selected edges. *)
Theorem reconstructed_path_simple edges origin destination :
  NoDup (_edges_to_path edges origin destination) ∧
  (length (_edges_to_path edges origin destination) ≤ length edges + 1)%nat.
Proof.
  unfold _edges_to_path. destruct edges as [|e edges];
    [split; [constructor|cbn; lia]|].
  set (dict := foldl _ ∅ (e :: edges)).
  destruct (walk dict destination _ [origin] origin) as [p|] eqn:Hw;
    [|split; [constructor|cbn; lia]].
  case_bool_decide as Hlast; [|split; [constructor|cbn; lia]].
  destruct (walk_sound _ _ _ _ _ _ Hw) as (Hc & _ & _); [by intros [|i] u v|done|].
  assert (Hopen : open_until destination p).
  { eapply walk_open; [exact Hw| |done]. intros [|i] x Hx Hi; cbn in *; lia. }
  assert (Hnd : NoDup p) by (by eapply chained_simple).
  split; [done|].
  assert (Hsub : take (length p - 1) p ⊆+ (e :: edges).*1).
  { apply NoDup_submseteq.
    - eapply sublist_NoDup; [exact Hnd|apply sublist_take].
    - intros u Hu. apply list_elem_of_lookup in Hu as [i Hi].
      apply lookup_take_Some in Hi as [Hi Hlt].
      assert (is_Some (p !! Datatypes.S i)) as [v Hv]
        by (apply lookup_lt_is_Some; lia).
      destruct (edge_dict_lookup (e :: edges) ∅ u v (Hc i u v Hi Hv)) as [Hin|?];
        [|done].
      apply list_elem_of_fmap. by exists (u, v). }
  apply submseteq_length in Hsub.
  rewrite length_take, length_fmap in Hsub. lia.
Qed.

End PathSimple.
